(** * Approximate quantum compilation by sequential MPS disentanglement

    A shallow embedding of [ucc/aqc/mps_sequential.py] and
    [ucc/aqc/utils.py], with the properties of the design document that
    concern them, followed by an embedding of the compiler front end and by
    further properties read off the code.

    Conventions of the embedding.
    - A numpy [float64] is a real number and a [complex128] a pair of
      reals: arithmetic is exact, and what is proved of a computed number
      holds of numpy's up to rounding.  Where numpy would silently produce
      [nan] or [inf] and go on (a division by a zero norm), the embedding
      stops with the marker [NonFinite], which is not a Python exception.
    - A Python exception is a value of [exn]; a computation that can raise
      returns a [result].
    - The global generator behind [np.random.uniform] is an explicit
      oracle [sample : nat -> R] (the k-th variate it hands out) together
      with a counter of the variates consumed so far.
    - The tensor-network library (quimb) and the quantum-information
      functions of qiskit are not part of the repository: their operations
      are parameters. *)

From Stdlib Require Import String Reals Lra Lia ZArith Bool Arith List.
Import ListNotations.

Set Implicit Arguments.

(** ** Python exceptions and results *)

Inductive exn : Type :=
| ValueError          (* tuple unpacking, broadcasting, np.vdot on unequal sizes *)
| OverflowError       (* int(-inf) *)
| UFuncTypeError      (* in-place ufunc whose output cannot be cast to the target dtype *)
| UnboundLocalError   (* a loop variable read after a loop that never ran *)
| LibraryError        (* anything raised inside quimb or qiskit *)
| InvalidInputError   (* the class named by the design document, section 7 *)
| NonFinite.          (* nan/inf in a numpy result: outside the real-number model *)

Inductive result (A : Type) : Type :=
| Ok (a : A)
| Raise (e : exn).

Arguments Ok {A} a.
Arguments Raise {A} e.

Definition bind_result {A B} (r : result A) (k : A -> result B) : result B :=
  match r with
  | Ok a => k a
  | Raise e => Raise e
  end.

Declare Scope py_scope.
Delimit Scope py_scope with py.
Notation "x <- c ;; k" := (bind_result c (fun x => k))
  (at level 61, c at next level, right associativity) : py_scope.
Notation "' p <- c ;; k" := (bind_result c (fun p => k))
  (at level 61, p pattern, c at next level, right associativity) : py_scope.

Open Scope R_scope.

(** ** Real and complex scalars *)

Definition Rleb (x y : R) : bool := if Rle_dec x y then true else false.
Definition Rltb (x y : R) : bool := if Rlt_dec x y then true else false.
Definition Reqb (x y : R) : bool := if Req_dec_T x y then true else false.

Definition C : Type := (R * R)%type.

Definition RtoC (x : R) : C := (x, 0).
Definition Re (z : C) : R := fst z.
Definition Im (z : C) : R := snd z.
Definition Cadd (a b : C) : C := (Re a + Re b, Im a + Im b).
Definition Csub (a b : C) : C := (Re a - Re b, Im a - Im b).
Definition Cmul (a b : C) : C :=
  (Re a * Re b - Im a * Im b, Re a * Im b + Im a * Re b).
Definition Cconj (a : C) : C := (Re a, - Im a).
Definition Cmod (a : C) : R := sqrt (Re a * Re a + Im a * Im a).
Definition Cdiv_real (a : C) (r : R) : C := (Re a / r, Im a / r).
Definition Czero : C := (0, 0).
Definition Cone : C := (1, 0).

Definition Rsum (l : list R) : R := fold_right Rplus 0 l.
Definition Csum (l : list C) : C := fold_right Cadd Czero l.

(** [np.isclose(a, b, rtol, atol)] on finite reals: [|a - b| <= atol + rtol * |b|].
    The defaults of numpy are [rtol = 1e-05] and [atol = 1e-08]. *)
Definition default_rtol : R := 1e-5.
Definition default_atol : R := 1e-8.

Definition isclose (a b rtol atol : R) : bool :=
  Rleb (Rabs (a - b)) (atol + rtol * Rabs b).

(** ** Entanglement entropy slope ([utils.py], and its copy in [entanglement_type]) *)

Section EntanglementAnalyzer.

(** [qiskit.quantum_info.partial_trace] and [entropy(_, base=2)]. *)
Variable DensityMatrix : Type.
Variable partial_trace : list C -> list nat -> DensityMatrix.
Variable entropy : DensityMatrix -> R.

(** [n = int(np.ceil(np.log2(len(state))))]: [np.log2(0)] is [-inf], which
    [int] refuses. *)
Definition num_qubits_of (state : list C) : result nat :=
  if (length state =? 0)%nat then Raise OverflowError
  else Ok (Nat.log2_up (length state)).

(** The loop [for k in range(1, n // 2 + 1)], tracing out [range(k, n)]. *)
Definition cut_entropies (state : list C) (n : nat) : list R :=
  map (fun k => entropy (partial_trace state (seq k (n - k)))) (seq 1 (n / 2)).

(** [entropies[len(entropies) // 2:]] *)
Definition second_half (entropies : list R) : list R :=
  skipn (length entropies / 2) entropies.

(** [np.arange(1, m + 1)] *)
Definition arange1 (m : nat) : list R := map INR (seq 1 m).

(** [np.mean]; on an empty array numpy gives [nan], which the code never
    uses: every array it is subtracted from is empty as well. *)
Definition mean (l : list R) : R := Rsum l / INR (length l).

Definition regression_numerator (entropies : list R) : R :=
  let x := arange1 (length entropies) in
  let x_mean := mean x in
  let y_mean := mean entropies in
  Rsum (map (fun xy => (fst xy - x_mean) * (snd xy - y_mean)) (combine x entropies)).

Definition regression_denominator (entropies : list R) : R :=
  let x := arange1 (length entropies) in
  let x_mean := mean x in
  Rsum (map (fun xi => (xi - x_mean) ^ 2) x).

(** [slope = numerator / denominator if denominator != 0 else 0].  The
    sums and the quotient are the exact ones; numpy computes their
    float64 roundings. *)
Definition regression_slope (entropies : list R) : R :=
  let numerator := regression_numerator entropies in
  let denominator := regression_denominator entropies in
  if Reqb denominator 0 then 0 else numerator / denominator.

(** The entropies the regression is run on. *)
Definition retained_entropies (state : list C) : result (list R) :=
  (n <- num_qubits_of state ;;
   Ok (second_half (cut_entropies state n)))%py.

(** [utils.calculate_entanglement_entropy_slope] *)
Definition calculate_entanglement_entropy_slope (state : list C) : result R :=
  (n <- num_qubits_of state ;;
   let entropies := cut_entropies state n in
   let entropies := second_half entropies in
   Ok (regression_slope entropies))%py.

(** [mps_sequential.entanglement_type] *)
Definition entanglement_type (state : list C) : result string :=
  (n <- num_qubits_of state ;;
   let entropies := cut_entropies state n in
   let entropies := second_half entropies in
   let slope := regression_slope entropies in
   if isclose slope 1 default_rtol 0.1 then Ok "volume"%string
   else Ok "area"%string)%py.

End EntanglementAnalyzer.

(** ** numpy arrays *)

Inductive dtype : Type := float64 | complex128.

(** An array is its element type, its shape and its elements in C (row-major)
    order; a [float64] array holds elements with a zero imaginary part. *)
Record ndarray : Type := mk_ndarray {
  dtype_of : dtype;
  shape : list nat;
  data : list C
}.

(** [np.zeros(shape, dtype)] *)
Definition zeros (dt : dtype) (sh : list nat) : ndarray :=
  mk_ndarray dt sh (repeat Czero (fold_right Nat.mul 1%nat sh)).

(** Column [j] of a two-dimensional array with [ncols] columns:
    [a[:, j]] read, and [a[:, j] = v] written. *)
Definition get_col (ncols nrows : nat) (d : list C) (j : nat) : list C :=
  map (fun i => nth (i * ncols + j) d Czero) (seq 0 nrows).

Definition set_col (ncols : nat) (d : list C) (j : nat) (v : list C) : list C :=
  map (fun p => if (p mod ncols =? j)%nat then nth (p / ncols) v Czero
                else nth p d Czero)
      (seq 0 (length d)).

(** [a.conj().T @ b] on one-dimensional arrays, which is also [np.vdot(a, b)]. *)
Definition inner (a b : list C) : C :=
  Csum (map (fun ab => Cmul (Cconj (fst ab)) (snd ab)) (combine a b)).

(** [np.linalg.norm] of a one-dimensional array. *)
Definition norm (v : list C) : R :=
  sqrt (Rsum (map (fun z => Re z * Re z + Im z * Im z) v)).

Definition vscale (c : C) (v : list C) : list C := map (Cmul c) v.
Definition vsub (a b : list C) : list C :=
  map (fun ab => Csub (fst ab) (snd ab)) (combine a b).
Definition vdiv (v : list C) (r : R) : list C := map (fun z => Cdiv_real z r) v.

(** [np.allclose(v, 0)]: every element within [atol + rtol * |0|] of zero. *)
Definition allclose_zero (v : list C) : bool :=
  forallb (fun z => Rleb (Cmod (Csub z Czero))
                         (default_atol + default_rtol * Cmod Czero)) v.

(** ** State: the caller's array and the random generator *)

(** [gram_schmidt] writes through a view of its argument, so the elements of
    the caller's array are part of the state, next to the number of variates
    the global generator has handed out. *)
Record gs_state : Type := mk_gs_state {
  arr : list C;
  rng : nat
}.

Definition M (A : Type) : Type := gs_state -> result (A * gs_state).

Definition ret {A} (a : A) : M A := fun st => Ok (a, st).
Definition raise {A} (e : exn) : M A := fun _ => Raise e.
Definition bind {A B} (c : M A) (k : A -> M B) : M B :=
  fun st => match c st with
            | Ok (a, st') => k a st'
            | Raise e => Raise e
            end.

Declare Scope gs_scope.
Delimit Scope gs_scope with gs.
Notation "x <- c ;; k" := (bind c (fun x => k))
  (at level 61, c at next level, right associativity) : gs_scope.
Notation "' p <- c ;; k" := (bind c (fun p => k))
  (at level 61, p pattern, c at next level, right associativity) : gs_scope.

(** The local name [column] is bound either to the view [matrix[:, j]] of the
    caller's array or to an array of its own. *)
Inductive colref : Type :=
| View (j : nat)
| Own (dt : dtype) (v : list C).

(** ** Gram-Schmidt completion ([gram_schmidt]) *)

Section GramSchmidt.

(** The k-th variate of [np.random.uniform(-1, 1, _)]. *)
Variable sample : nat -> R.

(** [np.random.uniform(-1, 1, n)]: a fresh [float64] array. *)
Definition uniform (n : nat) : M (list R) :=
  fun st => Ok (map sample (seq (rng st) n),
                mk_gs_state (arr st) (rng st + n)).

Section Columns.

(** [matrix.dtype] and [num_rows, num_columns = matrix.shape] *)
Variable mdtype : dtype.
Variables num_rows num_columns : nat.

Definition col_dtype (c : colref) : dtype :=
  match c with View _ => mdtype | Own dt _ => dt end.

(** The elements [column] denotes in the current state. *)
Definition read_column (c : colref) (st : gs_state) : list C :=
  match c with
  | View j => get_col num_columns num_rows (arr st) j
  | Own _ v => v
  end.

Definition col_values (c : colref) : M (list C) :=
  fun st => Ok (read_column c st, st).

(** [column -= rhs] with a [complex128] right-hand side: numpy refuses to
    cast the complex result into a [float64] target; through a view the
    result lands in the caller's array. *)
Definition isub (c : colref) (rhs : list C) : M colref :=
  match col_dtype c with
  | float64 => raise UFuncTypeError
  | complex128 =>
      match c with
      | View j =>
          fun st =>
            let v := get_col num_columns num_rows (arr st) j in
            Ok (View j,
                mk_gs_state (set_col num_columns (arr st) j (vsub v rhs)) (rng st))
      | Own dt v => ret (Own dt (vsub v rhs))
      end
  end.

(** [column += rhs] with a [complex128] right-hand side. *)
Definition iadd (c : colref) (rhs : list C) : M colref :=
  match col_dtype c with
  | float64 => raise UFuncTypeError
  | complex128 =>
      match c with
      | View j =>
          fun st =>
            let v := get_col num_columns num_rows (arr st) j in
            Ok (View j,
                mk_gs_state
                  (set_col num_columns (arr st) j
                     (map (fun ab => Cadd (fst ab) (snd ab)) (combine v rhs)))
                  (rng st))
      | Own dt v => ret (Own dt (map (fun ab => Cadd (fst ab) (snd ab)) (combine v rhs)))
      end
  end.

(** Lines 33-36: a column that is close to zero is replaced by a random
    one; [column = column + 1j * ...] builds a new complex array.  The
    test [np.iscomplexobj(matrix)] is the case distinction on
    [mdtype]. *)
Definition replace_if_zero (j : nat) : M colref :=
  (column <- col_values (View j) ;;
   if allclose_zero column then
     re <- uniform num_rows ;;
     match mdtype with
     | complex128 =>
         im <- uniform num_rows ;;
         ret (Own complex128 (combine re im))
     | float64 => ret (Own float64 (map RtoC re))
     end
   else ret (View j))%gs.

(** Lines 39-40 and 49-50:
    [for basis_vector in orthonormal_basis:
         column -= (basis_vector.conj().T @ column) * basis_vector] *)
Fixpoint project_out (orthonormal_basis : list (list C)) (column : colref)
  : M colref :=
  match orthonormal_basis with
  | [] => ret column
  | basis_vector :: rest =>
      (v <- col_values column ;;
       column' <- isub column (vscale (inner basis_vector v) basis_vector) ;;
       project_out rest column')%gs
  end.

(** Lines 43-50: a residual of norm below [1e-12] is given up for a new
    random array, built with [column += 1j * ...] this time. *)
Definition retry_if_dependent (orthonormal_basis : list (list C))
           (column : colref) : M colref :=
  (v <- col_values column ;;
   if Rltb (norm v) 1e-12 then
     re <- uniform num_rows ;;
     column' <- (match mdtype with
                 | complex128 =>
                     im <- uniform num_rows ;;
                     iadd (Own float64 (map RtoC re))
                          (map (fun y => Cmul (0, 1) (RtoC y)) im)
                 | float64 => ret (Own float64 (map RtoC re))
                 end) ;;
     project_out orthonormal_basis column'
   else ret column)%gs.

(** Lines 52-53: [unitary[:, j] = column / np.linalg.norm(column)] and
    [orthonormal_basis.append(unitary[:, j])].  The norm and the
    quotient are the exact ones; numpy rounds both, so that a column of
    unit norm is stored again up to rounding only. *)
Definition normalize_into (unitary : list C) (j : nat) (column : colref)
  : M (list C * list C) :=
  (v <- col_values column ;;
   if Reqb (norm v) 0 then raise NonFinite
   else
     let unitary' := set_col num_columns unitary j (vdiv v (norm v)) in
     ret (unitary', get_col num_columns num_rows unitary' j))%gs.

(** One turn of [for j in range(num_columns)]. *)
Definition column_step (acc : list C * list (list C)) (j : nat)
  : M (list C * list (list C)) :=
  let '(unitary, orthonormal_basis) := acc in
  (column <- replace_if_zero j ;;
   column <- project_out orthonormal_basis column ;;
   column <- retry_if_dependent orthonormal_basis column ;;
   '(unitary', basis_vector) <- normalize_into unitary j column ;;
   ret (unitary', orthonormal_basis ++ [basis_vector]))%gs.

Fixpoint column_loop (js : list nat) (acc : list C * list (list C))
  : M (list C * list (list C)) :=
  match js with
  | [] => ret acc
  | j :: rest => (acc' <- column_step acc j ;; column_loop rest acc')%gs
  end.

End Columns.

(** [gram_schmidt(matrix)], started with [g] variates already consumed.  The
    result is the returned [unitary] together with the final state, whose
    [arr] is what the caller's [matrix] holds after the call. *)
Definition gram_schmidt (matrix : ndarray) (g : nat)
  : result (ndarray * gs_state) :=
  match shape matrix with
  | [num_rows; num_columns] =>
      let unitary := zeros complex128 [num_rows; num_columns] in
      match column_loop (dtype_of matrix) num_rows num_columns
              (seq 0 num_columns) (data unitary, [])
              (mk_gs_state (data matrix) g) with
      | Ok ((unitary', _), st) =>
          Ok (mk_ndarray complex128 [num_rows; num_columns] unitary', st)
      | Raise e => Raise e
      end
  | _ => Raise ValueError
  end.

End GramSchmidt.

(** ** Closed forms of the column loop

    These are not in the source: they name what its loops compute, for the
    statements below. *)

(** What the projection loop leaves in [column], as a function of the basis
    and of the column it starts from. *)
Definition project (basis : list (list C)) (v : list C) : list C :=
  fold_left (fun w b => vsub w (vscale (inner b w) b)) basis v.

(** The same loop run through the view [matrix[:, j]]: the caller's array
    after it. *)
Definition project_view (c r : nat) (basis : list (list C)) (j : nat)
           (a : list C) : list C :=
  fold_left
    (fun a b =>
       let v := get_col c r a j in
       set_col c a j (vsub v (vscale (inner b v) b)))
    basis a.

(** The complex column drawn by the fallback of lines 34-36 when [g]
    variates have been consumed. *)
Definition fresh_column (sample : nat -> R) (r g : nat) : list C :=
  combine (map sample (seq g r)) (map sample (seq (g + r) r)).

(** The end of a turn of the column loop on a [complex128] matrix, once the
    projected column [w] is known. *)
Definition finish_column (c r : nat) (unitary : list C) (basis : list (list C))
           (j : nat) (w : list C) (st : gs_state)
  : result ((list C * list (list C)) * gs_state) :=
  if Rltb (norm w) 1e-12 then Raise UFuncTypeError
  else if Reqb (norm w) 0 then Raise NonFinite
  else
    let unitary' := set_col c unitary j (vdiv w (norm w)) in
    Ok ((unitary', basis ++ [get_col c r unitary' j]), st).

(** What column [j] of the caller's array holds after a call that returned
    [unitary]: the original column if the fallback replaced it (the view is
    dropped unwritten), else the original column minus its projections on
    the earlier columns of [unitary]. *)
Definition residual_of (c r : nat) (unitary original : list C) (j : nat) : list C :=
  let v := get_col c r original j in
  if allclose_zero v then v
  else project (map (get_col c r unitary) (seq 0 j)) v.

(** ** Layer generation ([Sequential.generate_layer]) *)

(** [a.reshape(sh)]: same elements in the same order.  At every call site of
    the source the new shape has the size of the old one. *)
Definition reshape (a : ndarray) (sh : list nat) : ndarray :=
  mk_ndarray (dtype_of a) sh (data a).

(** [np.swapaxes(t, 1, 2)] on a three-dimensional array of shape [(a, b, c)]:
    the result has shape [(a, c, b)] and element [(x, z, y)] is the old
    [(x, y, z)]. *)
Definition swapaxes12_data (a b c : nat) (d : list C) : list C :=
  flat_map (fun x =>
    flat_map (fun z =>
      map (fun y => nth ((x * b + y) * c + z) d Czero) (seq 0 b))
      (seq 0 c))
    (seq 0 a).

Definition swapaxes12 (t : ndarray) : result ndarray :=
  match shape t with
  | [a; b; c] => Ok (mk_ndarray (dtype_of t) [a; c; b] (swapaxes12_data a b c (data t)))
  | _ => Raise ValueError
  end.

(** [matrix = np.zeros((rows, rows)); matrix[:, :cols] = isometry] *)
Definition pad_columns (rows cols : nat) (isometry : list C) : list C :=
  flat_map (fun r =>
    map (fun c => if (c <? cols)%nat then nth (r * cols + c) isometry Czero
                  else Czero)
        (seq 0 rows))
    (seq 0 rows).

(** [int(np.ceil(np.log2(d)))] *)
Definition ceil_log2 (d : nat) : result Z :=
  if (d =? 0)%nat then Raise OverflowError
  else Ok (Z.of_nat (Nat.log2_up d)).

(** [range(lo, hi)] on Python integers *)
Definition py_range (lo hi : Z) : list Z :=
  map (fun k => (lo + Z.of_nat k)%Z) (seq 0 (Z.to_nat (hi - lo))).

(** Lines 144-145: the qubits a site's gate acts on, in LSB order. *)
Definition site_qubits (num_sites i : nat) (d_left : nat) : result (list Z) :=
  (c <- ceil_log2 d_left ;;
   let qubits := rev (py_range (Z.of_nat i - c) (Z.of_nat i + 1)) in
   Ok (map (fun qubit => Z.abs (qubit - Z.of_nat num_sites + 1)) qubits))%py.

(** A gate of a layer: the qubits and the unitary. *)
Notation gate := (list Z * ndarray)%type (only parsing).

(** A matrix product state as the code reads it: [mps.arrays], with
    [mps.L = len(mps.arrays)]. *)
Definition MatrixProductState : Type := list ndarray.
Definition L (mps : MatrixProductState) : nat := length mps.

Section LayerGenerator.

Variable sample : nat -> R.

(** Lines 128-133: the two boundary reshapes, one after the other. *)
Definition boundary_reshape (num_sites i : nat) (tensor : ndarray)
  : result ndarray :=
  (tensor <- (if (i =? 0)%nat then
                match shape tensor with
                | [d_right; d] => Ok (reshape tensor [1%nat; d_right; d])
                | _ => Raise ValueError
                end
              else Ok tensor) ;;
   if (Z.of_nat i =? Z.of_nat num_sites - 1)%Z then
     match shape tensor with
     | [d_left; d] => Ok (reshape tensor [d_left; 1%nat; d])
     | _ => Raise ValueError
     end
   else Ok tensor)%py.

(** The body of the loop over the sites, lines 122-157, for site [i]. *)
Definition site_gate (num_sites i : nat) (tensor : ndarray) (g : nat)
  : result (gate * nat) :=
  (tensor <- boundary_reshape num_sites i tensor ;;
   tensor <- swapaxes12 tensor ;;
   match shape tensor with
   | [d_left; d; d_right] =>
       let rows := (d * d_left)%nat in
       let isometry := reshape tensor [rows; d_right] in
       qubits <- site_qubits num_sites i d_left ;;
       if (rows <? d_right)%nat then Raise ValueError
       else
         let matrix :=
           mk_ndarray (dtype_of isometry) [rows; rows]
                      (pad_columns rows d_right (data isometry)) in
         '(unitary, st) <- gram_schmidt sample matrix g ;;
         Ok ((qubits, unitary), rng st)
   | _ => Raise ValueError
   end)%py.

(** [for i, tensor in enumerate(reversed(mps.arrays))], where the body
    starts with [i = num_sites - i - 1]. *)
Fixpoint site_loop (num_sites : nat) (sites : list (nat * ndarray))
         (unitary_layer : list gate) (g : nat) : result (list gate * nat) :=
  match sites with
  | [] => Ok (unitary_layer, g)
  | (k, tensor) :: rest =>
      ('(gt, g') <- site_gate num_sites (num_sites - k - 1) tensor g ;;
       site_loop num_sites rest (unitary_layer ++ [gt]) g')%py
  end.

Definition generate_layer (mps : MatrixProductState) (g : nat)
  : result (list gate * nat) :=
  let num_sites := L mps in
  site_loop num_sites (combine (seq 0 (length mps)) (rev mps)) [] g.

End LayerGenerator.

(** ** The disentanglement loop ([Sequential.mps_to_circuit_approx]) *)

(** The operations of quimb the loop calls.  [None] stands for an exception
    raised inside the library.  The in-place methods return the updated
    state; [copy(deep=True)] is the identity on values. *)
Record quimb : Type := mk_quimb {
  from_dense : list C -> option MatrixProductState;
  tensor_network_1d_compress : MatrixProductState -> Z -> option MatrixProductState;
  permute_arrays : MatrixProductState -> option MatrixProductState;
  compress_left : MatrixProductState -> Z -> option MatrixProductState;
  left_canonicalize : MatrixProductState -> option MatrixProductState;
  normalize : MatrixProductState -> option MatrixProductState;
  gate_split_ : MatrixProductState -> ndarray -> Z * Z -> option MatrixProductState;
  gate_ : MatrixProductState -> ndarray -> Z -> option MatrixProductState;
  to_dense : MatrixProductState -> option (list C)
}.

Definition lib {A} (o : option A) : result A :=
  match o with
  | Some a => Ok a
  | None => Raise LibraryError
  end.

(** [u.conj().T] of a two-dimensional array (what [gram_schmidt] returns
    has two dimensions). *)
Definition dagger (u : ndarray) : ndarray :=
  match shape u with
  | [r; c] =>
      mk_ndarray (dtype_of u) [c; r]
        (flat_map (fun j => map (fun i => Cconj (nth (i * c + j) (data u) Czero))
                                (seq 0 r))
                  (seq 0 c))
  | _ => u
  end.

(** [zero_state = np.zeros((2**L,)); zero_state[0] = 1.0] *)
Definition zero_state (l : nat) : list C :=
  match repeat Czero (2 ^ l) with
  | [] => []
  | _ :: rest => Cone :: rest
  end.

(** [np.vdot(a, b)]: the arrays are flattened and must have the same size. *)
Definition vdot (a b : list C) : result C :=
  if (length a =? length b)%nat then Ok (inner a b) else Raise ValueError.

(** [z >= t] between a numpy [complex128] and a Python float: numpy orders
    complex numbers lexicographically, the real part first. *)
Definition complex_ge (z : C) (t : R) : bool :=
  Rltb t (Re z) || (Reqb (Re z) t && Rleb 0 (Im z)).

(** [QuantumCircuit(n, n)] with the [circuit.unitary(u, qubits)] appended. *)
Record QuantumCircuit : Type := mk_circuit {
  num_qubits : nat;
  num_clbits : nat;
  instructions : list (ndarray * list Z)
}.

Record loop_state : Type := mk_loop_state {
  disentangled_mps : MatrixProductState;
  unitary_layers : list (list gate);
  layer_index : option nat;
  fidelity : option C;
  generator : nat
}.

Section SequentialDisentangler.

Variable sample : nat -> R.
Variable Q : quimb.

(** [self.target_fidelity] *)
Variable target_fidelity : R.

(** Lines 229-239: the inverses of the gates of the layer, last gate first. *)
Fixpoint apply_inverses (unitary_layer : list gate) (idxs : list nat)
         (d : MatrixProductState) : result MatrixProductState :=
  match idxs with
  | [] => Ok d
  | i :: rest =>
      let inverse :=
        dagger (snd (nth (length unitary_layer - (i + 1)) unitary_layer
                         ([], zeros complex128 []))) in
      (d' <- (if (hd 0%nat (shape inverse) =? 4)%nat
              then lib (gate_split_ Q d inverse (Z.of_nat i - 1, Z.of_nat i)%Z)
              else lib (gate_ Q d inverse (Z.of_nat i))) ;;
       apply_inverses unitary_layer rest d')%py
  end.

(** One turn of [for layer_index in range(max_num_layers)], up to the
    assignment of [fidelity]. *)
Definition iteration (chi_max : Z) (num_sites : nat) (idx : nat)
           (s : loop_state) : result loop_state :=
  (let compressed_mps := disentangled_mps s in
   compressed_mps <- lib (normalize Q compressed_mps) ;;
   compressed_mps <- lib (compress_left Q compressed_mps 2) ;;
   '(unitary_layer, g') <- generate_layer sample compressed_mps (generator s) ;;
   let unitary_layers' := unitary_layers s ++ [unitary_layer] in
   d <- apply_inverses unitary_layer (seq 0 (length unitary_layer))
                       (disentangled_mps s) ;;
   d <- lib (tensor_network_1d_compress Q d chi_max) ;;
   dense <- lib (to_dense Q d) ;;
   f <- vdot dense (zero_state num_sites) ;;
   Ok (mk_loop_state d unitary_layers' (Some idx) (Some f) g'))%py.

(** [if fidelity >= self.target_fidelity: break] *)
Definition reached (s : loop_state) : bool :=
  match fidelity s with
  | Some f => complex_ge f target_fidelity
  | None => false
  end.

Fixpoint layer_loop (chi_max : Z) (num_sites : nat) (idxs : list nat)
         (s : loop_state) : result loop_state :=
  match idxs with
  | [] => Ok s
  | idx :: rest =>
      (s' <- iteration chi_max num_sites idx s ;;
       if reached s' then Ok s'
       else layer_loop chi_max num_sites rest s')%py
  end.

(** Not in the source: [idxs] turns of the loop run without the test of
    line 252, to name the state after a given number of turns. *)
Fixpoint iterate (chi_max : Z) (num_sites : nat) (idxs : list nat)
         (s : loop_state) : result loop_state :=
  match idxs with
  | [] => Ok s
  | idx :: rest =>
      (s' <- iteration chi_max num_sites idx s ;;
       iterate chi_max num_sites rest s')%py
  end.

(** Lines 277-279 *)
Definition emit (num_sites : nat) (layers : list (list gate)) : QuantumCircuit :=
  mk_circuit num_sites num_sites
    (flat_map (fun unitary_layer =>
                 map (fun qu : gate => (snd qu, fst qu)) unitary_layer)
              layers).

(** The state before the loop, lines 189-206. *)
Definition prepare (statevector : list C) (chi_max : Z) (g : nat)
  : result loop_state :=
  (mps <- lib (from_dense Q statevector) ;;
   mps <- lib (tensor_network_1d_compress Q mps chi_max) ;;
   mps <- lib (permute_arrays Q mps) ;;
   mps <- lib (compress_left Q mps chi_max) ;;
   mps <- lib (left_canonicalize Q mps) ;;
   Ok (mk_loop_state mps [] None None g))%py.

Definition mps_to_circuit_approx (statevector : list C)
           (max_num_layers chi_max : Z) (g : nat)
  : result (QuantumCircuit * nat) :=
  (s0 <- prepare statevector chi_max g ;;
   let num_sites := L (disentangled_mps s0) in
   s <- layer_loop chi_max num_sites (seq 0 (Z.to_nat max_num_layers)) s0 ;;
   (* [if layer_index == max_num_layers - 1:] reads the loop variable *)
   match layer_index s with
   | None => Raise UnboundLocalError
   | Some _ =>
       Ok (emit num_sites (rev (unitary_layers s)), generator s)
   end)%py.

End SequentialDisentangler.

(** * The compiler front end

    A shallow embedding of [ucc/aqc/__init__.py],
    [ucc/aqc/qmprs_compiler.py], [ucc/transpilers/ucc_defaults.py] and
    [ucc/compile.py].

    Conventions, in addition to those above.
    - qiskit, qbraid, qmprs, quick and psutil are not part of the
      repository: their operations are parameters, and [None] stands for
      an exception raised inside one of them.
    - [warnings.warn] and [print] are recorded, in order, in a log of
      events that survives an exception raised later.
    - A circuit object, in whatever format, is a value of an abstract type
      [program]. *)

(** ** Exceptions, events and the monad of the front end *)

(** The exceptions of the front end: those of the encoder and of the
    libraries, and the [TypeError] Python raises for a call that lacks a
    required argument. *)
Inductive front_exn : Type :=
| TypeError
| Inner (e : exn).

Inductive outcome (A : Type) : Type :=
| Returns (a : A)
| Throws (e : front_exn).

Arguments Returns {A} a.
Arguments Throws {A} e.

(** A gate set is a Python set of gate names; it is kept as a list. *)
Definition gateset : Type := list string.

Inductive warning : Type :=
| QmprsNotInstalled                             (* compile.py, lines 76-79 *)
| NotEnoughMemory (required available : R)      (* compile.py, lines 90-94 *)
| FidelityTooLow (fidelity : C)                 (* compile.py, lines 105-107 *)
| GatesetNotSupported (target_gateset : option gateset)
                                                (* compile.py, lines 182-184 *)
| VolumeLawEntangled.                           (* qmprs_compiler.py, lines 115-117 *)

Inductive event : Type :=
| Warn (w : warning)
| Print (fidelity : C) (num_qubits : nat) (num_layers num_sweeps : Z).
                                                (* qmprs_compiler.py, lines 119-124 *)

Definition F (A : Type) : Type := (list event * outcome A)%type.

Definition fret {A} (a : A) : F A := ([], Returns a).
Definition throw {A} (e : front_exn) : F A := ([], Throws e).
Definition warn (w : warning) : F unit := ([Warn w], Returns tt).

Definition fbind {A B} (c : F A) (k : A -> F B) : F B :=
  match c with
  | (log, Returns a) => let '(log', r) := k a in (log ++ log', r)
  | (log, Throws e) => (log, Throws e)
  end.

Definition lift {A} (r : result A) : F A :=
  match r with
  | Ok a => fret a
  | Raise e => throw (Inner e)
  end.

Definition flib {A} (o : option A) : F A := lift (lib o).

Declare Scope front_scope.
Delimit Scope front_scope with front.
Notation "x <- c ;; k" := (fbind c (fun x => k))
  (at level 61, c at next level, right associativity) : front_scope.
Notation "' p <- c ;; k" := (fbind c (fun p => k))
  (at level 61, p pattern, c at next level, right associativity) : front_scope.
Notation "c ;;; k" := (fbind c (fun _ => k))
  (at level 61, right associativity) : front_scope.

(** [int(x)] of a float: truncation towards zero. *)
Definition py_int (x : R) : Z :=
  if Rleb 0 x then Int_part x else (- Int_part (- x))%Z.

(** [z < t] between a numpy [complex128] and a Python float, in numpy's
    lexicographic order. *)
Definition complex_lt (z : C) (t : R) : bool :=
  Rltb (Re z) t || (Reqb (Re z) t && Rltb (Im z) 0).

(** ** The qmprs encoder ([QmprsCompiler]) *)

(** The operations of qmprs and quick the wrapper calls:
    [self.sequential.prepare_state], with the [fidelity_threshold] the
    constructor has set on [self.sequential] as first argument, then
    [circuit.get_statevector()] and the attribute [circuit.circuit]. *)
Record qmprs (QuickCircuit program : Type) : Type := mk_qmprs {
  sequential_prepare_state :
    R -> list C -> Z -> Z -> Z -> option QuickCircuit;
  get_statevector : QuickCircuit -> option (list C);
  circuit_of : QuickCircuit -> program
}.

(** [QmprsCompiler(target_fidelity=0.99)]: the instance is the threshold
    it has set. *)
Record QmprsCompiler : Type := mk_QmprsCompiler {
  fidelity_threshold : R
}.

Definition QmprsCompiler_init (target_fidelity : option R) : QmprsCompiler :=
  mk_QmprsCompiler (match target_fidelity with Some t => t | None => 0.99 end).

Section QmprsCompiler.

Variable DensityMatrix : Type.
Variable partial_trace : list C -> list nat -> DensityMatrix.
Variable entropy : DensityMatrix -> R.

Variables QuickCircuit program : Type.
Variable X : qmprs QuickCircuit program.

(** [QmprsCompiler.calculate_entanglement_entropy_slope], lines 28-62: the
    text of [utils.calculate_entanglement_entropy_slope] once more. *)
Definition QmprsCompiler_calculate_entanglement_entropy_slope
           (state : list C) : result R :=
  (n <- num_qubits_of state ;;
   let entropies := cut_entropies partial_trace entropy state n in
   let entropies := second_half entropies in
   let numerator := regression_numerator entropies in
   let denominator := regression_denominator entropies in
   let slope := if Reqb denominator 0 then 0 else numerator / denominator in
   Ok slope)%py.

(** [QmprsCompiler.optimal_params], lines 65-84 *)
Definition optimal_params (statevector : list C) : result (Z * Z) :=
  (num_qubits <- num_qubits_of statevector ;;
   slope <- QmprsCompiler_calculate_entanglement_entropy_slope statevector ;;
   let num_layers := py_int ((2 + 2 * slope) * INR num_qubits / 1.5) in
   let num_sweeps := py_int ((10 + 20 * slope) * INR num_qubits) in
   Ok (num_layers, num_sweeps))%py.

(** [QmprsCompiler.__call__], lines 86-126 *)
Definition QmprsCompiler_call (self : QmprsCompiler) (statevector : list C)
           (verbose : bool) : F program :=
  (num_qubits <- lift (num_qubits_of statevector) ;;
   '(num_layers, num_sweeps) <- lift (optimal_params statevector) ;;
   circuit <- flib (sequential_prepare_state X (fidelity_threshold self)
                      statevector (2 ^ Z.of_nat num_qubits) num_layers num_sweeps) ;;
   produced <- flib (get_statevector X circuit) ;;
   fidelity <- lift (vdot produced statevector) ;;
   (if verbose then
      slope <- lift (QmprsCompiler_calculate_entanglement_entropy_slope statevector) ;;
      (if isclose slope 1 default_rtol 0.1 then warn VolumeLawEntangled
       else fret tt) ;;;
      ([Print fidelity num_qubits num_layers num_sweeps], Returns tt)
    else fret tt) ;;;
   fret (circuit_of X circuit))%front.

End QmprsCompiler.

(** ** The choice of the encoder ([ucc/aqc/__init__.py]) *)

Inductive encoder_class : Type :=
| QmprsCompiler_class
| Sequential_class.

(** [MPS_Encoder]: [QmprsCompiler] if qmprs can be imported, else
    [Sequential]. *)
Definition MPS_Encoder (qmprs_available : bool) : encoder_class :=
  if qmprs_available then QmprsCompiler_class else Sequential_class.

(** An instance of either class; [Sequential.__init__] stores the target
    fidelity. *)
Inductive encoder : Type :=
| QmprsCompiler_instance (self : QmprsCompiler)
| Sequential_instance (target_fidelity : R).

(** A call [cls(...)] with positional arguments.  [QmprsCompiler.__init__] has
    one optional parameter, [Sequential.__init__] one required parameter:
    a call with too few or too many arguments raises [TypeError]. *)
Definition new_encoder (cls : encoder_class) (args : list R) : outcome encoder :=
  match cls, args with
  | QmprsCompiler_class, [] => Returns (QmprsCompiler_instance (QmprsCompiler_init None))
  | QmprsCompiler_class, [t] =>
      Returns (QmprsCompiler_instance (QmprsCompiler_init (Some t)))
  | Sequential_class, [t] => Returns (Sequential_instance t)
  | _, _ => Throws TypeError
  end.

(** ** The default pass pipeline ([ucc/transpilers/ucc_defaults.py]) *)

(** What [_get_trial_count] reads: the entry [sabre_all_threads] of
    qiskit's user configuration, the environment variable
    [QISKIT_SABRE_ALL_THREADS], and the number of processes qiskit would
    use. *)
Record host : Type := mk_host {
  sabre_all_threads : option bool;
  QISKIT_SABRE_ALL_THREADS : option string;
  default_num_processes : Z
}.

(** Truth value of [CONFIG.get("sabre_all_threads", None)] and of
    [os.getenv(...)]: [None], [False] and the empty string are false. *)
Definition truthy_bool (v : option bool) : bool :=
  match v with Some b => b | None => false end.

Definition truthy_str (v : option string) : bool :=
  match v with
  | Some s => negb (String.eqb s EmptyString)
  | None => false
  end.

Definition _get_trial_count (h : host) (default_trials : Z) : Z :=
  if truthy_bool (sabre_all_threads h) || truthy_str (QISKIT_SABRE_ALL_THREADS h)
  then default_num_processes h
  else default_trials.

Section Passes.

(** [qiskit.transpiler.Target] and the coupling map it builds. *)
Variables Target CouplingMap : Type.

(** The passes the file constructs, with the arguments it gives them, and
    the passes a caller hands in. *)
Inductive pass : Type :=
| Optimize1qGatesDecomposition
| CommutativeCancellation
| Collect2qBlocks
| ConsolidateBlocks (force_consolidate : bool)
| UnitarySynthesis (basis_gates : gateset)
| CollectCliffords
| HighLevelSynthesis (clifford : list string)
| SabreLayout (coupling_map : CouplingMap)
              (seed max_iterations swap_trials layout_trials : Z)
| VF2Layout (target : Target)
| ApplyLayout
| SabreSwap (coupling_map : CouplingMap) (heuristic : string) (seed trials : Z)
| VF2PostLayout (target : Target)
| CustomPass (name : string).

(** [target_device.operation_names] and
    [target_device.build_coupling_map()]. *)
Variable operation_names : Target -> gateset.
Variable build_coupling_map : Target -> option CouplingMap.

Variable h : host.

(** An instance of [UCCDefault1]; [pass_manager] is the list of the passes
    appended so far. *)
Record UCCDefault1 : Type := mk_UCCDefault1 {
  pass_manager : list pass;
  target_device : option Target;
  target_gateset : gateset
}.

(** [self.pass_manager.append(...)], for one pass or a list of passes *)
Definition append (self : UCCDefault1) (passes : list pass) : UCCDefault1 :=
  mk_UCCDefault1 (pass_manager self ++ passes) (target_device self)
                 (target_gateset self).

(** Lines 76-89 *)
Definition _add_local_passes (self : UCCDefault1) (local_iterations : Z)
  : UCCDefault1 :=
  fold_left
    (fun self _ =>
       let self := append self [Optimize1qGatesDecomposition] in
       let self := append self [CommutativeCancellation] in
       let self := append self [Collect2qBlocks] in
       let self := append self [ConsolidateBlocks true] in
       let self := append self [UnitarySynthesis (target_gateset self)] in
       let self := append self [CollectCliffords] in
       append self [HighLevelSynthesis ["greedy"%string]])
    (py_range 0 local_iterations) self.

(** Lines 94-125 *)
Definition _add_map_passes (self : UCCDefault1) (target_device : option Target)
  : result UCCDefault1 :=
  match target_device with
  | Some device =>
      (coupling_map <- lib (build_coupling_map device) ;;
       let self := append self [SabreLayout coupling_map 1 4
                                  (_get_trial_count h 20)
                                  (_get_trial_count h 20)] in
       let self := append self [VF2Layout device] in
       let self := append self [ApplyLayout] in
       let self := append self [SabreSwap coupling_map "decay"%string 1
                                  (_get_trial_count h 20)] in
       let self := append self [VF2PostLayout device] in
       let self := append self [ApplyLayout] in
       let self := _add_local_passes self 1 in
       let self := append self [VF2PostLayout device] in
       Ok (append self [ApplyLayout]))%py
  | None => Ok self
  end.

(** [UCCDefault1(local_iterations=1, target_device=None,
    target_gateset=None)], lines 39-70.  [hasattr(target_device,
    "operation_names")] holds for a [Target] and fails for [None]. *)
Definition UCCDefault1_init (local_iterations : Z)
           (target_device : option Target) (target_gateset : option gateset)
  : result UCCDefault1 :=
  let gates :=
    match target_device with
    | Some device => operation_names device
    | None =>
        match target_gateset with
        | Some gates => gates
        | None => ["cx"; "rz"; "rx"; "ry"; "h"]%string
        end
    end in
  let self := mk_UCCDefault1 [] target_device gates in
  let self := _add_local_passes self local_iterations in
  _add_map_passes self target_device.

End Passes.

Arguments Optimize1qGatesDecomposition {Target CouplingMap}.
Arguments CommutativeCancellation {Target CouplingMap}.
Arguments Collect2qBlocks {Target CouplingMap}.
Arguments ConsolidateBlocks {Target CouplingMap} force_consolidate.
Arguments UnitarySynthesis {Target CouplingMap} basis_gates.
Arguments CollectCliffords {Target CouplingMap}.
Arguments HighLevelSynthesis {Target CouplingMap} clifford.
Arguments SabreLayout {Target CouplingMap} coupling_map seed max_iterations
  swap_trials layout_trials.
Arguments VF2Layout {Target CouplingMap} target.
Arguments ApplyLayout {Target CouplingMap}.
Arguments SabreSwap {Target CouplingMap} coupling_map heuristic seed trials.
Arguments VF2PostLayout {Target CouplingMap} target.
Arguments CustomPass {Target CouplingMap} name.

(** ** Approximate compilation and [compile] ([ucc/compile.py]) *)

(** The operations of qiskit and qbraid on circuit objects:
    [circuit.num_qubits], [Statevector(circuit).data],
    [qiskit.transpile(circuit, basis_gates=..., optimization_level=...)],
    [circuit.count_ops().get("cx", 0)], [circuit.depth()],
    [PassManager.run], and qbraid's [get_program_type_alias] and
    [transpile], imported as [translate]. *)
Record toolchain (program Target CouplingMap : Type) : Type := mk_toolchain {
  circuit_num_qubits : program -> nat;
  Statevector_data : program -> option (list C);
  qiskit_transpile : program -> gateset -> Z -> option program;
  count_ops_cx : program -> Z;
  depth : program -> Z;
  PassManager_run : list (pass Target CouplingMap) -> program -> option program;
  get_program_type_alias : program -> option string;
  translate : program -> string -> option program
}.

(** [has_enough_memory(num_qubits)], lines 36-60, with [available] the
    value of [psutil.virtual_memory().available], in bytes.  A negative
    exponent makes [2 ** e] a float, which is exact here. *)
Definition has_enough_memory (available : Z) (num_qubits : nat)
  : bool * R * R :=
  let available_memory_gb := IZR available in
  let available_memory_gb := available_memory_gb / 2 ^ 30 in
  let memory_required_gb := powerRZ 2 (4 + Z.of_nat num_qubits - 31) in
  let has_memory := Rleb memory_required_gb available_memory_gb in
  (has_memory, memory_required_gb, available_memory_gb).

Section Compile.

Variable DensityMatrix : Type.
Variable partial_trace : list C -> list nat -> DensityMatrix.
Variable entropy : DensityMatrix -> R.

Variables QuickCircuit program Target CouplingMap : Type.
Variable X : qmprs QuickCircuit program.
Variable T : toolchain program Target CouplingMap.
Variable operation_names : Target -> gateset.
Variable build_coupling_map : Target -> option CouplingMap.
Variable h : host.

(** [importlib.util.find_spec("qmprs") is not None], and the free memory
    psutil reports. *)
Variable qmprs_available : bool.
Variable available : Z.

(** [encoder(target_sv)], the call of line 98.  [Sequential.__call__] has
    two more required parameters, [max_num_layers] and [chi_max]. *)
Definition call_encoder (e : encoder) (target_sv : list C) : F program :=
  match e with
  | QmprsCompiler_instance self =>
      QmprsCompiler_call partial_trace entropy X self target_sv false
  | Sequential_instance _ => throw TypeError
  end.

(** [approx_compile(circuit)], lines 63-127 *)
Definition approx_compile (circuit : program) : F program :=
  ((if negb qmprs_available then warn QmprsNotInstalled else fret tt) ;;;
   if (circuit_num_qubits T circuit =? 1)%nat then fret circuit
   else
     let '(has_memory, required_memory, available_memory) :=
       has_enough_memory available (circuit_num_qubits T circuit) in
     if negb has_memory then
       warn (NotEnoughMemory required_memory available_memory) ;;;
       fret circuit
     else
       target_sv <- flib (Statevector_data T circuit) ;;
       encoder <- ([], new_encoder (MPS_Encoder qmprs_available) []) ;;
       aqc_circuit <- call_encoder encoder target_sv ;;
       aqc_sv <- flib (Statevector_data T aqc_circuit) ;;
       fidelity <- lift (vdot target_sv aqc_sv) ;;
       if complex_lt fidelity 0.8 then
         warn (FidelityTooLow fidelity) ;;;
         fret circuit
       else
         aqc_transpiled <- flib (qiskit_transpile T aqc_circuit ["u3"; "cx"]%string 3) ;;
         original_transpiled <- flib (qiskit_transpile T circuit ["u3"; "cx"]%string 3) ;;
         let aqc_cx_count := count_ops_cx T aqc_transpiled in
         let aqc_depth := depth T aqc_transpiled in
         let original_cx_count := count_ops_cx T original_transpiled in
         let original_depth := depth T original_transpiled in
         if (original_cx_count <=? aqc_cx_count)%Z && (original_depth <=? aqc_depth)%Z
         then fret circuit
         else fret aqc_circuit)%front.

(** [None in target_device.operation_names]: the names are strings. *)
Definition None_in (names : gateset) : bool := false.

(** [compile(circuit, return_format, target_gateset, target_device,
    custom_passes, aqc)], lines 129-197.  The defaults of the source are
    ["original"], [None], [None], [None] and [False]. *)
Definition compile (circuit : program) (return_format : string)
           (target_gateset : option gateset) (target_device : option Target)
           (custom_passes : option (list (pass Target CouplingMap)))
           (aqc : bool) : F program :=
  (return_format <- (if String.eqb return_format "original"
                     then flib (get_program_type_alias T circuit)
                     else fret return_format) ;;
   qiskit_circuit <- flib (translate T circuit "qiskit") ;;
   qiskit_circuit <- (if aqc then approx_compile qiskit_circuit
                      else fret qiskit_circuit) ;;
   ucc_default1 <- lift (UCCDefault1_init operation_names build_coupling_map h
                           1 target_device None) ;;
   let ucc_default1 :=
     match custom_passes with
     | Some passes => append ucc_default1 passes
     | None => ucc_default1
     end in
   compiled_circuit <- flib (PassManager_run T (pass_manager ucc_default1)
                               qiskit_circuit) ;;
   compiled_circuit <-
     match target_gateset, target_device with
     | Some gates, _ => flib (qiskit_transpile T compiled_circuit gates 0)
     | None, Some device =>
         (if negb (None_in (operation_names device))
          then warn (GatesetNotSupported target_gateset) else fret tt) ;;;
         let target_gateset := operation_names device in
         flib (qiskit_transpile T compiled_circuit target_gateset 0)
     | None, None => fret compiled_circuit
     end ;;
   flib (translate T compiled_circuit return_format))%front.

End Compile.

(** * Statement vocabulary and concrete inputs

    Nothing below this line is in the source: predicates used by the
    statements, and the concrete arrays, oracles and library behaviours
    the examples run on. *)

(** ** Predicates of the statements *)

(** The sum of squared residuals of the line [y = a * x + b] on a list of
    points: what an ordinary least-squares fit minimises. *)
Definition squared_error (a b : R) (points : list (R * R)) : R :=
  Rsum (map (fun xy => (snd xy - (a * fst xy + b)) ^ 2) points).

(** Columns that are pairwise orthogonal and of unit norm: for the columns of
    a square matrix [u] this is [u.conj().T @ u = I]. *)
Definition orthonormal (columns : list (list C)) : Prop :=
  ForallOrdPairs (fun a b => inner a b = Czero /\ inner b a = Czero) columns
  /\ Forall (fun b => inner b b = Cone) columns.

(** The invariant of the column loop of [gram_schmidt] before column [k]:
    [acc] is the pair of [unitary] and [orthonormal_basis], [st] holds the
    caller's array, [original] is what that array held at the call. *)
Definition column_inv (c r : nat) (original : list C) (k : nat)
           (acc : list C * list (list C)) (st : gs_state) : Prop :=
  length (fst acc) = (r * c)%nat
  /\ length (arr st) = (r * c)%nat
  /\ snd acc = map (get_col c r (fst acc)) (seq 0 k)
  /\ (forall j, (j < k)%nat ->
                get_col c r (arr st) j = residual_of c r (fst acc) original j)
  /\ (forall j, (k <= j < c)%nat ->
                get_col c r (arr st) j = get_col c r original j).

(** A matrix product state whose bonds (and physical legs) have dimension at
    most 2. *)
Definition bond_le_2 (mps : MatrixProductState) : Prop :=
  Forall (fun t => Forall (fun d => (d <= 2)%nat) (shape t)) mps.

(** The qubits of the gate of site [i], read off the shape of its tensor:
    one qubit for the first site and for a left bond of dimension 1, two
    for a left bond of dimension 2. *)
Definition expected_qubits (num_sites i : nat) (t : ndarray) : list Z :=
  if (i =? 0)%nat || (hd 0%nat (shape t) =? 1)%nat
  then [Z.of_nat (num_sites - 1 - i)]
  else [Z.of_nat (num_sites - 1 - i); Z.of_nat (num_sites - i)].

(** A computation that does not raise the exception the design document
    asks for: in the state monad of [gram_schmidt], and as a result. *)
Definition never_invalid {A} (c : M A) : Prop :=
  forall st, c st <> Raise InvalidInputError.

Definition benign {A} (r : result A) : Prop := r <> Raise InvalidInputError.

(** ** Concrete inputs *)

(** *** Statevectors and entropies *)

(** The Bell state [(|00> + |11>)/sqrt 2].  As stand-in for qiskit a reduced
    state is represented by the number of traced-out qubits; the entropy
    of one half of a Bell pair is 1. *)
Definition bell_state : list C :=
  [(/ sqrt 2, 0); Czero; Czero; (/ sqrt 2, 0)].

Definition traced_out (state : list C) (qargs : list nat) : nat := length qargs.

Definition bell_entropy (traced : nat) : R := 1.

(** A statevector on 6 qubits, with the entropies [0.5], [1] and [1.899995]
    for the cuts of size 1, 2 and 3 (5, 4 and 3 qubits traced out). *)
Definition flat_state64 : list C := repeat (/ 8, 0) 64.

Definition profile6_entropy (traced : nat) : R :=
  match traced with
  | 3%nat => 1.899995
  | 4%nat => 1
  | _ => 0.5
  end.

(** *** Matrices and random draws for [gram_schmidt] *)

(** [[1, 1], [0, 0]]: rank 1, the second column equal to the first. *)
Definition rank_deficient : ndarray :=
  mk_ndarray complex128 [2%nat; 2%nat] [Cone; Cone; Czero; Czero].

Definition identity2 : ndarray :=
  mk_ndarray complex128 [2%nat; 2%nat] [Cone; Czero; Czero; Cone].

(** [[1, 1], [0, 1]] *)
Definition triangular2 : ndarray :=
  mk_ndarray complex128 [2%nat; 2%nat] [Cone; Cone; Czero; Cone].

(** [[1e-10]] *)
Definition tiny1 : ndarray :=
  mk_ndarray complex128 [1%nat; 1%nat] [(1e-10, 0)].

(** A generator that always hands out [0.5], and one that hands out [0.6]
    and then [0.8]. *)
Definition half_sample (k : nat) : R := 1 / 2.

Definition pythagorean_sample (k : nat) : R :=
  if (k =? 0)%nat then 3 / 5 else 4 / 5.

(** *** An entangled pair *)

(** The state [(3|00> + 4|11>)/5] as a left-canonical matrix product state
    of bond dimension 2: the tensor of site 0 has shape (bond, physical),
    that of site 1 shape (bond, physical). *)
Definition pair_state : list C := [(3 / 5, 0); Czero; Czero; (4 / 5, 0)].

Definition pair_mps : MatrixProductState :=
  [ mk_ndarray complex128 [2%nat; 2%nat] [Cone; Czero; Czero; Cone];
    mk_ndarray complex128 [2%nat; 2%nat] [(3 / 5, 0); Czero; Czero; (4 / 5, 0)] ].

(** The same state before normalisation, of norm 5. *)
Definition unnormalized_pair : list C := [(3, 0); Czero; Czero; (4, 0)].

(** The matrix [generate_layer] builds for site 1: the isometry in the first
    column, three zero columns. *)
Definition pair_matrix : ndarray :=
  mk_ndarray complex128 [4%nat; 4%nat]
    [(3 / 5, 0); Czero; Czero; Czero;
     Czero; Czero; Czero; Czero;
     Czero; Czero; Czero; Czero;
     (4 / 5, 0); Czero; Czero; Czero].

(** A generator, of period 24, whose draws for the three zero columns of
    [pair_matrix] are [0.5 e1], [0.5 e2] and [(0.4, 0, 0, -0.3)], all with
    zero imaginary parts. *)
Definition staircase_sample (k : nat) : R :=
  let k := (k mod 24)%nat in
  if (k =? 1)%nat then 1 / 2
  else if (k =? 10)%nat then 1 / 2
  else if (k =? 16)%nat then 2 / 5
  else if (k =? 19)%nat then - 3 / 10
  else 0.

(** What [gram_schmidt] returns on [pair_matrix] with these draws. *)
Definition pair_unitary : ndarray :=
  mk_ndarray complex128 [4%nat; 4%nat]
    [(3 / 5, 0); Czero; Czero; (4 / 5, 0);
     Czero; Cone; Czero; Czero;
     Czero; Czero; Cone; Czero;
     (4 / 5, 0); Czero; Czero; (- 3 / 5, 0)].

(** The layer generated from [pair_mps]. *)
Definition pair_layer : list (list Z * ndarray) :=
  [([0; 1]%Z, pair_unitary); ([1]%Z, identity2)].

(** *** A recorded run of quimb *)

(** The tensor networks of the run of [mps_to_circuit_approx] on
    [pair_state] and on [unnormalized_pair], each in one choice of basis
    of its bond: [pair_mps], the same state before normalisation, and the
    states [|00>] and [5|00>] that are left once the layer has been
    undone, which have a bond of dimension 1. *)
Definition unnormalized_mps : MatrixProductState :=
  [ mk_ndarray complex128 [2%nat; 2%nat] [Cone; Czero; Czero; Cone];
    mk_ndarray complex128 [2%nat; 2%nat] [(3, 0); Czero; Czero; (4, 0)] ].

Definition zero_mps : MatrixProductState :=
  [ mk_ndarray complex128 [1%nat; 2%nat] [Cone; Czero];
    mk_ndarray complex128 [1%nat; 2%nat] [Cone; Czero] ].

Definition scaled_zero_mps : MatrixProductState :=
  [ mk_ndarray complex128 [1%nat; 2%nat] [Cone; Czero];
    mk_ndarray complex128 [1%nat; 2%nat] [(5, 0); Czero] ].

(** [|00>] and [5|00>] *)
Definition zero_dense : list C := [Cone; Czero; Czero; Czero].
Definition scaled_zero_dense : list C := [(5, 0); Czero; Czero; Czero].

(** Equality of amplitudes, arrays and states, to look a call up. *)
Definition C_eq_dec (a b : C) : {a = b} + {a <> b}.
Proof. decide equality; apply Req_dec_T. Defined.

Definition dtype_eq_dec (a b : dtype) : {a = b} + {a <> b}.
Proof. decide equality. Defined.

Definition ndarray_eq_dec (a b : ndarray) : {a = b} + {a <> b}.
Proof.
  decide equality;
    [ apply (list_eq_dec C_eq_dec) | apply (list_eq_dec Nat.eq_dec)
    | apply dtype_eq_dec ].
Defined.

Definition mps_eq_dec : forall a b : MatrixProductState, {a = b} + {a <> b} :=
  list_eq_dec ndarray_eq_dec.

(** A record of calls: the results of the calls made on the listed
    arguments; a call that is not listed is not answered. *)
Fixpoint lookup (A K : Type) (eq_dec : forall a b : K, {a = b} + {a <> b})
         (table : list (K * A)) (k : K) : option A :=
  match table with
  | [] => None
  | (k', v) :: rest => if eq_dec k k' then Some v else lookup eq_dec rest k
  end.

Definition unchanged : list (MatrixProductState * MatrixProductState) :=
  [(pair_mps, pair_mps); (unnormalized_mps, unnormalized_mps);
   (zero_mps, zero_mps); (scaled_zero_mps, scaled_zero_mps)].

(** What quimb answers on these two runs with [chi_max >= 2].
    - [from_dense] splits the statevector without normalising it.
    - No bond exceeds dimension 2, so the compressions, and
      [permute_arrays], leave each state as it is.
    - [normalize] divides by the norm.
    - Line 194 discards what [left_canonicalize(normalize=True)] returns;
      whether the call also updates [mps] depends on the version of quimb,
      and [inplace] says which of the two is recorded.
    - The gate of site 0 is the identity; undoing the gate of site 1 takes
      [(3|00> + 4|11>)/5] to [|00>].
    - [to_dense] contracts the state. *)
Definition recorded_quimb (inplace : bool) : quimb :=
  mk_quimb
    (lookup (list_eq_dec C_eq_dec)
            [(pair_state, pair_mps); (unnormalized_pair, unnormalized_mps)])
    (fun m chi => if (2 <=? chi)%Z then lookup mps_eq_dec unchanged m else None)
    (lookup mps_eq_dec unchanged)
    (fun m chi => if (2 <=? chi)%Z then lookup mps_eq_dec unchanged m else None)
    (lookup mps_eq_dec
            [(pair_mps, pair_mps);
             (unnormalized_mps, if inplace then pair_mps else unnormalized_mps)])
    (lookup mps_eq_dec
            [(pair_mps, pair_mps); (unnormalized_mps, pair_mps);
             (zero_mps, zero_mps); (scaled_zero_mps, zero_mps)])
    (fun m u sites =>
       if ndarray_eq_dec u (dagger pair_unitary)
       then if ((fst sites =? 0) && (snd sites =? 1))%Z
            then lookup mps_eq_dec
                        [(pair_mps, zero_mps); (unnormalized_mps, scaled_zero_mps)] m
            else None
       else None)
    (fun m u site =>
       if ndarray_eq_dec u (dagger identity2)
       then if ((0 <=? site) && (site <? 2))%Z
            then lookup mps_eq_dec unchanged m
            else None
       else None)
    (lookup mps_eq_dec
            [(pair_mps, pair_state); (unnormalized_mps, unnormalized_pair);
             (zero_mps, zero_dense); (scaled_zero_mps, scaled_zero_dense)]).

(** The state of the loop before the first turn and after it, on the run
    from [pair_state]. *)
Definition pair_start (g : nat) : loop_state :=
  mk_loop_state pair_mps [] None None g.

Definition pair_stopped : loop_state :=
  mk_loop_state zero_mps [pair_layer] (Some 0%nat) (Some (Cconj Cone)) 24.

(** The recorded states differ in the first entry of their last tensor. *)
Definition mark (m : MatrixProductState) : R :=
  Re (hd Czero (data (nth 1 m identity2))).

(** The states of the record: two sites, bonds of dimension at most 2. *)
Definition recorded_state (m : MatrixProductState) : Prop :=
  In m [pair_mps; unnormalized_mps; zero_mps; scaled_zero_mps].

(** *** More matrices *)

(** The identity as an array of [float64]. *)
Definition real_identity2 : ndarray :=
  mk_ndarray float64 [2%nat; 2%nat] [Cone; Czero; Czero; Cone].

(** *** Predicates on matrix product states *)

(** A matrix product state of qubits: in every tensor the physical leg (the
    last axis) has dimension 2 and every leg has dimension 1 or 2. *)
Definition qubit_mps (mps : MatrixProductState) : Prop :=
  Forall (fun t => last (shape t) 0%nat = 2%nat
                   /\ Forall (fun d => (1 <= d <= 2)%nat) (shape t)) mps.

(** *** Entropy profiles *)

(** On 6 qubits, the entropy of a maximally mixed reduced state: one bit
    per qubit kept, that is 6 minus the number of qubits traced out. *)
Definition maximal_entropy6 (traced : nat) : R := INR (6 - traced).

(** *** A recorded behaviour of the tool chain *)

(** Circuits are named.  ["single"] is on one qubit, every other circuit
    on two; every circuit has the statevector [pair_state]; transpilation,
    the pass manager and translation return the circuit they are given;
    ["pair"] has one [cx] and depth 2, every other circuit no [cx] and
    depth 1. *)
Definition recorded_toolchain : toolchain string unit unit :=
  mk_toolchain
    (fun c => if String.eqb c "single" then 1%nat else 2%nat)
    (fun _ => Some pair_state)
    (fun c _ _ => Some c)
    (fun c => if String.eqb c "pair" then 1%Z else 0%Z)
    (fun c => if String.eqb c "pair" then 2%Z else 1%Z)
    (fun _ c => Some c)
    (fun _ => Some "qiskit"%string)
    (fun c _ => Some c).

(** qmprs returning, whatever it is asked, a circuit named ["encoded"] that
    prepares [pair_state]. *)
Definition recorded_qmprs : qmprs unit string :=
  mk_qmprs (fun _ _ _ _ _ => Some tt)
           (fun _ => Some pair_state)
           (fun _ => "encoded"%string).

(** 8 GiB of free memory. *)
Definition eight_gib : Z := 8589934592.

(** A host with the default configuration and 4 processes, and one with
    the environment variable set to ["0"]. *)
Definition plain_host : host := mk_host None None 4.
Definition threaded_host : host := mk_host None (Some "0"%string) 4.

(** *** The blocks of the default pipeline *)

(** The seven passes one iteration of [_add_local_passes] appends, and the
    passes [_add_map_passes] appends around one such iteration, for a
    device [device] with coupling map [coupling_map] and [trials] trials
    of the Sabre passes. *)
Definition local_block (Target CouplingMap : Type) (gates : gateset)
  : list (pass Target CouplingMap) :=
  [Optimize1qGatesDecomposition; CommutativeCancellation; Collect2qBlocks;
   ConsolidateBlocks true; UnitarySynthesis gates; CollectCliffords;
   HighLevelSynthesis ["greedy"%string]].

Definition map_block (Target CouplingMap : Type) (gates : gateset)
           (device : Target) (coupling_map : CouplingMap) (trials : Z)
  : list (pass Target CouplingMap) :=
  [SabreLayout coupling_map 1 4 trials trials; VF2Layout device; ApplyLayout;
   SabreSwap coupling_map "decay"%string 1 trials; VF2PostLayout device;
   ApplyLayout]
  ++ local_block Target CouplingMap gates
  ++ [VF2PostLayout device; ApplyLayout].

(** The gate set [UCCDefault1.__init__] settles on. *)
Definition resolved_gateset (Target : Type) (operation_names : Target -> gateset)
           (target_device : option Target) (target_gateset : option gateset)
  : gateset :=
  match target_device, target_gateset with
  | Some device, _ => operation_names device
  | None, Some gates => gates
  | None, None => ["cx"; "rz"; "rx"; "ry"; "h"]%string
  end.

(** A pass that lays out or routes the circuit on a device. *)
Definition is_map_pass (Target CouplingMap : Type) (p : pass Target CouplingMap)
  : bool :=
  match p with
  | SabreLayout _ _ _ _ _ | VF2Layout _ | ApplyLayout
  | SabreSwap _ _ _ _ | VF2PostLayout _ => true
  | _ => false
  end.

(** A device whose operations are [cx] and [u3], with a coupling map, and
    the pipeline [UCCDefault1] builds for it with one local iteration on
    [threaded_host]. *)
Definition recorded_names (device : unit) : gateset := ["cx"; "u3"]%string.
Definition recorded_coupling (device : unit) : option unit := Some tt.

Definition recorded_pipeline : UCCDefault1 unit unit :=
  mk_UCCDefault1
    (local_block unit unit ["cx"; "u3"]%string
     ++ map_block ["cx"; "u3"]%string tt tt 4)
    (Some tt) ["cx"; "u3"]%string.

(** A variant of the record that lets a gate at a negative site through and
    leaves the state as it is, where the record has no answer. *)
Definition lenient_quimb : quimb :=
  let Q := recorded_quimb true in
  mk_quimb (from_dense Q)
           (tensor_network_1d_compress Q)
           (permute_arrays Q)
           (compress_left Q)
           (left_canonicalize Q)
           (normalize Q)
           (fun m u sites =>
              if (fst sites <? 0)%Z then Some m else gate_split_ Q m u sites)
           (fun m u site => if (site <? 0)%Z then Some m else gate_ Q m u site)
           (to_dense Q).

(** *** Well-formed layers *)

(** A layer for a register of [n] qubits: one gate per qubit, each on one
    or two qubits of the register. *)
Definition layer_fits (n : nat) (layer : list (list Z * ndarray)) : Prop :=
  length layer = n
  /\ (forall qs u, In (qs, u) layer ->
        (1 <= length qs <= 2)%nat
        /\ (forall q, In q qs -> (0 <= q < Z.of_nat n)%Z)).

(** * Facts *)

(** ** Boolean tests on reals *)

Lemma Rleb_spec x y : reflect (x <= y) (Rleb x y).
Proof. unfold Rleb; destruct (Rle_dec x y); constructor; assumption. Qed.

Lemma Rltb_spec x y : reflect (x < y) (Rltb x y).
Proof. unfold Rltb; destruct (Rlt_dec x y); constructor; assumption. Qed.

Lemma Reqb_spec x y : reflect (x = y) (Reqb x y).
Proof. unfold Reqb; destruct (Req_dec_T x y); constructor; assumption. Qed.

Lemma Rleb_true x y : x <= y -> Rleb x y = true.
Proof. destruct (Rleb_spec x y); intuition. Qed.

Lemma Rleb_false x y : y < x -> Rleb x y = false.
Proof. destruct (Rleb_spec x y); intuition; lra. Qed.

Lemma Rltb_true x y : x < y -> Rltb x y = true.
Proof. destruct (Rltb_spec x y); intuition. Qed.

Lemma Rltb_false x y : y <= x -> Rltb x y = false.
Proof. destruct (Rltb_spec x y); intuition; lra. Qed.

Lemma Reqb_true x y : x = y -> Reqb x y = true.
Proof. destruct (Reqb_spec x y); intuition. Qed.

Lemma Reqb_false x y : x <> y -> Reqb x y = false.
Proof. destruct (Reqb_spec x y); intuition. Qed.

Section RegressionFacts.

Lemma Rsum_squares_nonneg (m : R) (l : list R) :
  0 <= Rsum (map (fun xi => (xi - m) ^ 2) l).
Proof.
  induction l as [|a l IH]; cbn [map Rsum fold_right]; [lra|].
  fold (Rsum (map (fun xi => (xi - m) ^ 2) l)).
  pose proof (pow2_ge_0 (a - m)). lra.
Qed.

Lemma Rsum_squares_pos (m a b : R) (l : list R) :
  a <> b -> 0 < Rsum (map (fun xi => (xi - m) ^ 2) (a :: b :: l)).
Proof.
  intros Hab. cbn [map Rsum fold_right].
  fold (Rsum (map (fun xi => (xi - m) ^ 2) l)).
  pose proof (Rsum_squares_nonneg m l) as Hl.
  pose proof (pow2_ge_0 (a - m)) as Ha2. pose proof (pow2_ge_0 (b - m)) as Hb2.
  destruct (Req_dec a m) as [Ha|Ha].
  - assert (Hb : b - m <> 0) by lra.
    pose proof (pow_nonzero (b - m) 2 Hb). lra.
  - assert (Ha' : a - m <> 0) by lra.
    pose proof (pow_nonzero (a - m) 2 Ha'). lra.
Qed.

(** The variance of the cut indices vanishes exactly below two points. *)
Lemma regression_denominator_zero_iff (entropies : list R) :
  regression_denominator entropies = 0 <-> (length entropies <= 1)%nat.
Proof.
  unfold regression_denominator, arange1. split.
  - destruct entropies as [|y0 [|y1 ys]]; simpl length; intros H; try lia.
    exfalso.
    pose proof (@Rsum_squares_pos
                  (mean (map INR (seq 1 (S (S (length ys))))))
                  (INR 1) (INR 2) (map INR (seq 3 (length ys)))) as Hpos.
    simpl seq in H. simpl map in H. simpl in Hpos.
    assert (1 <> 1 + 1) by lra.
    specialize (Hpos H0). simpl in H. lra.
  - intros Hlen. destruct entropies as [|y0 [|y1 ys]]; simpl in Hlen; try lia.
    + simpl. reflexivity.
    + unfold mean. simpl. field_simplify_eq; lra.
Qed.

Lemma regression_slope_degenerate (entropies : list R) :
  regression_denominator entropies = 0 -> regression_slope entropies = 0.
Proof.
  intros H. unfold regression_slope. rewrite (Reqb_true H). reflexivity.
Qed.

Lemma isclose_zero_one : isclose 0 1 default_rtol 0.1 = false.
Proof.
  unfold isclose, default_rtol. apply Rleb_false.
  unfold Rabs. repeat destruct (Rcase_abs _); lra.
Qed.

Lemma isclose_one_iff (slope : R) :
  isclose slope 1 default_rtol 0.1 = true <-> Rabs (slope - 1) <= 0.10001.
Proof.
  unfold isclose, default_rtol. rewrite Rabs_R1.
  destruct (Rleb_spec (Rabs (slope - 1)) (0.1 + 1e-5 * 1)); split; intros; try lra; try discriminate; auto.
Qed.

(** *** The fitted line minimises the squared error *)

Lemma squared_error_expand a b (points : list (R * R)) :
  squared_error a b points =
  Rsum (map (fun p => snd p * snd p) points)
  - 2 * a * Rsum (map (fun p => fst p * snd p) points)
  - 2 * b * Rsum (map snd points)
  + a * a * Rsum (map (fun p => fst p * fst p) points)
  + 2 * a * b * Rsum (map fst points)
  + INR (length points) * (b * b).
Proof.
  unfold squared_error.
  induction points as [|[x y] points IH].
  - cbn. lra.
  - cbn [map Rsum fold_right length fst snd].
    fold (Rsum (map (fun xy : R * R => (snd xy - (a * fst xy + b)) ^ 2) points)).
    fold (Rsum (map (fun p : R * R => snd p * snd p) points)).
    fold (Rsum (map (fun p : R * R => fst p * snd p) points)).
    fold (Rsum (map (@snd R R) points)).
    fold (Rsum (map (fun p : R * R => fst p * fst p) points)).
    fold (Rsum (map (@fst R R) points)).
    rewrite IH, S_INR. ring.
Qed.

Lemma numerator_expand m m' (points : list (R * R)) :
  Rsum (map (fun xy => (fst xy - m) * (snd xy - m')) points) =
  Rsum (map (fun p => fst p * snd p) points)
  - m' * Rsum (map fst points)
  - m * Rsum (map snd points)
  + INR (length points) * (m * m').
Proof.
  induction points as [|[x y] points IH].
  - cbn. lra.
  - cbn [map Rsum fold_right length fst snd].
    fold (Rsum (map (fun xy : R * R => (fst xy - m) * (snd xy - m')) points)).
    fold (Rsum (map (fun p : R * R => fst p * snd p) points)).
    fold (Rsum (map (@snd R R) points)).
    fold (Rsum (map (@fst R R) points)).
    rewrite IH, S_INR. ring.
Qed.

Lemma denominator_expand m (points : list (R * R)) :
  Rsum (map (fun xi => (xi - m) ^ 2) (map fst points)) =
  Rsum (map (fun p => fst p * fst p) points)
  - 2 * m * Rsum (map fst points)
  + INR (length points) * (m * m).
Proof.
  induction points as [|[x y] points IH].
  - cbn. lra.
  - cbn [map Rsum fold_right length fst snd].
    fold (Rsum (map (fun xi : R => (xi - m) ^ 2) (map fst points))).
    fold (Rsum (map (fun p : R * R => fst p * fst p) points)).
    fold (Rsum (map (@fst R R) points)).
    rewrite IH, S_INR. ring.
Qed.

Lemma map_fst_combine (A B : Type) (l : list A) (l' : list B) :
  length l = length l' -> map fst (combine l l') = l.
Proof.
  revert l'. induction l as [|a l IH]; intros [|b l'] H; try discriminate.
  - reflexivity.
  - cbn. f_equal. apply IH. cbn in H. lia.
Qed.

Lemma map_snd_combine (A B : Type) (l : list A) (l' : list B) :
  length l = length l' -> map snd (combine l l') = l'.
Proof.
  revert l'. induction l as [|a l IH]; intros [|b l'] H; try discriminate.
  - reflexivity.
  - cbn. f_equal. apply IH. cbn in H. lia.
Qed.

Lemma length_arange1 m : length (arange1 m) = m.
Proof. unfold arange1. rewrite length_map, length_seq. reflexivity. Qed.

(** The algebra behind the normal equations, on the aggregate sums. *)
Lemma least_squares_algebra n m m' D a' Syy a b :
  0 < n -> 0 < D ->
  (Syy - 2 * a' * (a' * D + n * m * m') - 2 * (m' - a' * m) * (n * m')
   + a' * a' * (D + n * (m * m)) + 2 * a' * (m' - a' * m) * (n * m)
   + n * ((m' - a' * m) * (m' - a' * m)))
  <=
  (Syy - 2 * a * (a' * D + n * m * m') - 2 * b * (n * m')
   + a * a * (D + n * (m * m)) + 2 * a * b * (n * m)
   + n * (b * b)).
Proof.
  intros Hn HD.
  assert (H1 : 0 <= D * ((a - a') * (a - a'))).
  { apply Rmult_le_pos; [lra|]. pose proof (Rle_0_sqr (a - a')) as Hs.
    unfold Rsqr in Hs. exact Hs. }
  assert (H2 : 0 <= n * ((a * m + b - m') * (a * m + b - m'))).
  { apply Rmult_le_pos; [lra|]. pose proof (Rle_0_sqr (a * m + b - m')) as Hs.
    unfold Rsqr in Hs. exact Hs. }
  match goal with
  | |- ?lhs <= ?rhs =>
      assert (Hid : rhs - lhs =
                    D * ((a - a') * (a - a'))
                    + n * ((a * m + b - m') * (a * m + b - m'))) by ring
  end.
  lra.
Qed.

(** When the regression is not degenerate, the line of slope
    [regression_slope] through the means has the least squared error. *)
Lemma regression_slope_minimises (entropies : list R) (a b : R) :
  regression_denominator entropies <> 0 ->
  let x := arange1 (length entropies) in
  let slope := regression_slope entropies in
  squared_error slope (mean entropies - slope * mean x) (combine x entropies)
  <= squared_error a b (combine x entropies).
Proof.
  intros Hden x slope.
  assert (Hlenx : length x = length entropies) by apply length_arange1.
  set (points := combine x entropies).
  assert (Hfst : map fst points = x) by (apply map_fst_combine; exact Hlenx).
  assert (Hsnd : map snd points = entropies) by (apply map_snd_combine; exact Hlenx).
  assert (Hlen : length points = length entropies)
    by (unfold points; rewrite length_combine, Hlenx; apply Nat.min_id).
  (* at least two points *)
  assert (Hn2 : (2 <= length entropies)%nat).
  { destruct (le_lt_dec (length entropies) 1) as [Hle|Hgt]; [|lia].
    exfalso. apply Hden. apply regression_denominator_zero_iff. exact Hle. }
  set (n := INR (length entropies)).
  assert (Hn : 0 < n) by (unfold n; apply lt_0_INR; lia).
  set (Sx := Rsum (map fst points)).
  set (Sy := Rsum (map snd points)).
  set (Sxx := Rsum (map (fun p => fst p * fst p) points)).
  set (Sxy := Rsum (map (fun p => fst p * snd p) points)).
  set (Syy := Rsum (map (fun p => snd p * snd p) points)).
  set (m := mean x). set (m' := mean entropies).
  assert (Hm : Sx = n * m).
  { unfold m, mean, Sx, n. rewrite Hfst, Hlenx. field. apply not_0_INR. lia. }
  assert (Hm' : Sy = n * m').
  { unfold m', mean, Sy, n. rewrite Hsnd. field. apply not_0_INR. lia. }
  assert (HD : regression_denominator entropies = Sxx - n * (m * m)).
  { unfold regression_denominator. fold x. fold m. rewrite <- Hfst.
    rewrite denominator_expand. fold Sxx Sx. rewrite Hlen. fold n. rewrite Hm. ring. }
  assert (HN : regression_numerator entropies = Sxy - n * m * m').
  { unfold regression_numerator. fold x. fold m m' points.
    rewrite numerator_expand. fold Sxy Sx Sy. rewrite Hlen. fold n.
    rewrite Hm, Hm'. ring. }
  set (D := regression_denominator entropies) in *.
  assert (HDpos : 0 < D).
  { pose proof (Rsum_squares_nonneg m x) as Hnn.
    unfold D, regression_denominator in *. fold x in Hden |- *. fold m in Hden |- *. lra. }
  assert (Hslope : slope * D = regression_numerator entropies).
  { unfold slope, regression_slope. fold D. rewrite Reqb_false by exact Hden.
    field. exact Hden. }
  rewrite !squared_error_expand. fold Sxx Sxy Syy Sx Sy. rewrite Hlen. fold n.
  rewrite Hm, Hm'.
  assert (HSxx : Sxx = D + n * (m * m)) by lra.
  assert (HSxy : Sxy = slope * D + n * m * m') by lra.
  rewrite HSxx, HSxy.
  apply least_squares_algebra; assumption.
Qed.

End RegressionFacts.

(** ** Columns of a flat two-dimensional array *)

Lemma map_nth_seq (A : Type) (d : A) (v : list A) :
  map (fun i => nth i v d) (seq 0 (length v)) = v.
Proof.
  apply nth_ext with (d := d) (d' := d).
  - rewrite length_map, length_seq. reflexivity.
  - intros n Hn. rewrite length_map, length_seq in Hn.
    rewrite (nth_indep _ d (nth 0%nat v d)) by (rewrite length_map, length_seq; exact Hn).
    rewrite (map_nth (fun i => nth i v d)), seq_nth by exact Hn. reflexivity.
Qed.

Lemma length_get_col c r d j : length (get_col c r d j) = r.
Proof. unfold get_col. rewrite length_map, length_seq. reflexivity. Qed.

Lemma length_set_col c d j v : length (set_col c d j v) = length d.
Proof. unfold set_col. rewrite length_map, length_seq. reflexivity. Qed.

Lemma nth_set_col c d j v p :
  (p < length d)%nat ->
  nth p (set_col c d j v) Czero =
  if (p mod c =? j)%nat then nth (p / c) v Czero else nth p d Czero.
Proof.
  intros Hp. unfold set_col.
  set (f := fun q => if (q mod c =? j)%nat then nth (q / c) v Czero else nth q d Czero).
  rewrite (nth_indep _ Czero (f 0%nat)) by (rewrite length_map, length_seq; exact Hp).
  rewrite (map_nth f), seq_nth by exact Hp. reflexivity.
Qed.

Lemma cell_in_range r c i j :
  (i < r)%nat -> (j < c)%nat -> (i * c + j < r * c)%nat.
Proof. intros. nia. Qed.

Lemma cell_mod c i j : (j < c)%nat -> ((i * c + j) mod c = j)%nat.
Proof.
  intros Hj. rewrite Nat.add_comm, Nat.Div0.mod_add. apply Nat.mod_small; exact Hj.
Qed.

Lemma cell_div c i j : (j < c)%nat -> ((i * c + j) / c = i)%nat.
Proof.
  intros Hj. rewrite Nat.add_comm, Nat.div_add by lia.
  rewrite Nat.div_small by exact Hj. reflexivity.
Qed.

Lemma get_col_set_col_same c r d j v :
  (j < c)%nat -> length d = (r * c)%nat -> length v = r ->
  get_col c r (set_col c d j v) j = v.
Proof.
  intros Hj Hd Hv. unfold get_col.
  apply eq_trans with (map (fun i => nth i v Czero) (seq 0 r));
    [| rewrite <- Hv; apply map_nth_seq].
  apply map_ext_in. intros i Hi. apply in_seq in Hi.
  rewrite nth_set_col by (rewrite Hd; apply cell_in_range; lia).
  rewrite cell_mod, cell_div by exact Hj. rewrite Nat.eqb_refl. reflexivity.
Qed.

Lemma get_col_set_col_other c r d j k v :
  (k < c)%nat -> j <> k -> length d = (r * c)%nat ->
  get_col c r (set_col c d j v) k = get_col c r d k.
Proof.
  intros Hk Hjk Hd. unfold get_col.
  apply map_ext_in. intros i Hi. apply in_seq in Hi.
  rewrite nth_set_col by (rewrite Hd; apply cell_in_range; lia).
  rewrite cell_mod by exact Hk.
  destruct (Nat.eqb_spec k j); [congruence | reflexivity].
Qed.

(** ** Moduli and norms *)

Lemma Cmod_nonneg z : 0 <= Cmod z.
Proof. unfold Cmod. apply sqrt_pos. Qed.

Lemma Cmod_le_iff z t :
  0 <= t -> (Cmod z <= t <-> Re z * Re z + Im z * Im z <= t * t).
Proof.
  intros Ht. unfold Cmod.
  assert (Hs : 0 <= Re z * Re z + Im z * Im z) by nra.
  rewrite <- (sqrt_square t) at 1 by exact Ht.
  split; intros H.
  - apply sqrt_le_0 in H; nra.
  - apply sqrt_le_1; nra.
Qed.

Lemma Cmod_Czero : Cmod Czero = 0.
Proof.
  unfold Cmod, Czero, Re, Im; simpl.
  replace (0 * 0 + 0 * 0) with 0 by lra. apply sqrt_0.
Qed.

Lemma Csub_Czero z : Csub z Czero = z.
Proof. destruct z as [x y]. unfold Csub, Czero, Re, Im; simpl. f_equal; lra. Qed.

Lemma sum_sq_nonneg v : 0 <= Rsum (map (fun z => Re z * Re z + Im z * Im z) v).
Proof. induction v as [|z v IH]; simpl; [lra | nra]. Qed.

Lemma norm_nonneg v : 0 <= norm v.
Proof. unfold norm. apply sqrt_pos. Qed.

Lemma norm_eq v t :
  0 <= t -> Rsum (map (fun z => Re z * Re z + Im z * Im z) v) = t * t -> norm v = t.
Proof. intros Ht H. unfold norm. rewrite H. apply sqrt_square; exact Ht. Qed.

Lemma norm_lt_iff v t :
  0 <= t ->
  (norm v < t <-> Rsum (map (fun z => Re z * Re z + Im z * Im z) v) < t * t).
Proof.
  intros Ht. unfold norm. pose proof (sum_sq_nonneg v) as Hs.
  rewrite <- (sqrt_square t) at 1 by exact Ht.
  split; intros H.
  - apply sqrt_lt_0_alt in H. exact H.
  - apply sqrt_lt_1; nra.
Qed.

(** [np.allclose(v, 0)] holds exactly when every modulus is at most [1e-8]. *)
Lemma allclose_zero_iff v :
  allclose_zero v = true <-> Forall (fun z => Cmod z <= 1e-8) v.
Proof.
  unfold allclose_zero. rewrite forallb_forall, Forall_forall.
  assert (Htol : default_atol + default_rtol * Cmod Czero = 1e-8)
    by (rewrite Cmod_Czero; unfold default_atol, default_rtol; lra).
  split; intros H z Hz; specialize (H z Hz); rewrite Csub_Czero, Htol in *.
  - destruct (Rleb_spec (Cmod z) 1e-8); [assumption | discriminate].
  - apply Rleb_true; assumption.
Qed.

(** ** One turn of the column loop *)

Section GramSchmidtFacts.

Variable sample : nat -> R.
Variables r c : nat.

(** Through a view the projection loop rewrites column [j] of the
    caller's array; on an array of its own it leaves the state alone. *)
Lemma project_out_view basis j st :
  project_out complex128 r c basis (View j) st =
  Ok (View j, mk_gs_state (project_view c r basis j (arr st)) (rng st)).
Proof.
  revert st. induction basis as [|b basis IH]; intros st.
  - destruct st; reflexivity.
  - cbn [project_out]. unfold bind, col_values, isub, col_dtype.
    rewrite IH. reflexivity.
Qed.

Lemma project_out_own mdtype basis v st :
  project_out mdtype r c basis (Own complex128 v) st =
  Ok (Own complex128 (project basis v), st).
Proof.
  revert v. induction basis as [|b basis IH]; intros v.
  - reflexivity.
  - cbn [project_out]. unfold bind, col_values, isub, col_dtype, ret.
    rewrite IH. reflexivity.
Qed.

(** The two tests of the loop body, on a [complex128] matrix.  The retry
    never gets past its in-place addition. *)
Lemma replace_if_zero_complex j st :
  replace_if_zero sample complex128 r c j st =
  if allclose_zero (get_col c r (arr st) j)
  then Ok (Own complex128 (fresh_column sample r (rng st)),
           mk_gs_state (arr st) (rng st + r + r))
  else Ok (View j, st).
Proof.
  unfold replace_if_zero, bind, col_values, read_column.
  destruct (allclose_zero (get_col c r (arr st) j)); reflexivity.
Qed.

Lemma retry_if_dependent_complex basis column st :
  retry_if_dependent sample complex128 r c basis column st =
  if Rltb (norm (read_column r c column st)) 1e-12 then Raise UFuncTypeError
  else Ok (column, st).
Proof.
  unfold retry_if_dependent, bind, col_values.
  destruct (Rltb _ _); reflexivity.
Qed.

(** One turn of the column loop in closed form. *)
Lemma column_step_complex unitary basis j st :
  column_step sample complex128 r c (unitary, basis) j st =
  if allclose_zero (get_col c r (arr st) j)
  then finish_column c r unitary basis j
         (project basis (fresh_column sample r (rng st)))
         (mk_gs_state (arr st) (rng st + r + r))
  else
    let a := project_view c r basis j (arr st) in
    finish_column c r unitary basis j (get_col c r a j) (mk_gs_state a (rng st)).
Proof.
  unfold column_step. unfold bind at 1. rewrite replace_if_zero_complex.
  destruct (allclose_zero (get_col c r (arr st) j)).
  - unfold bind at 1. rewrite project_out_own.
    unfold bind at 1. rewrite retry_if_dependent_complex. cbn [read_column].
    unfold finish_column. destruct (Rltb _ _); [reflexivity|].
    unfold normalize_into, col_values, read_column, bind, raise, ret.
    destruct (Reqb _ _); reflexivity.
  - unfold bind at 1. rewrite project_out_view.
    unfold bind at 1. rewrite retry_if_dependent_complex. cbn [read_column arr rng].
    unfold finish_column. cbv zeta. destruct (Rltb _ _); [reflexivity|].
    unfold normalize_into, col_values, read_column, bind, raise, ret. cbn [arr].
    destruct (Reqb _ _); reflexivity.
Qed.

End GramSchmidtFacts.

(** Evaluation of the list structure of concrete columns, leaving the real
    arithmetic to [lra]. *)
Ltac eval_lists :=
  cbv [get_col set_col project_view project fresh_column pad_columns
       swapaxes12_data flat_map
       fold_left map seq nth length Nat.modulo Nat.div Nat.divmod Nat.eqb
       Nat.ltb Nat.leb Nat.mul Nat.add Nat.sub fst snd
       vsub vscale vdiv inner combine Csum fold_right repeat app
       data arr rng
       staircase_sample pythagorean_sample half_sample
       Cdiv_real Csub Cmul Cadd Cconj Cone Czero RtoC Re Im].

Ltac vec_eq :=
  eval_lists;
  repeat first [ reflexivity
               | match goal with |- @eq R _ _ => lra end
               | f_equal ].

Lemma allclose_zero_false_at v :
  Exists (fun z => 1e-8 * 1e-8 < Re z * Re z + Im z * Im z) v ->
  allclose_zero v = false.
Proof.
  intros Hex. destruct (allclose_zero v) eqn:E; [|reflexivity].
  apply allclose_zero_iff in E. rewrite Forall_forall in E.
  apply Exists_exists in Hex. destruct Hex as (z & Hz & Hlt).
  specialize (E z Hz). apply Cmod_le_iff in E; lra.
Qed.

Lemma finish_column_ok c r unitary basis j w st t :
  norm w = t -> 1e-12 <= t ->
  finish_column c r unitary basis j w st =
  Ok ((set_col c unitary j (vdiv w t),
       basis ++ [get_col c r (set_col c unitary j (vdiv w t)) j]), st).
Proof.
  intros Hn Ht. unfold finish_column. rewrite Hn.
  rewrite Rltb_false by exact Ht. rewrite Reqb_false by lra. reflexivity.
Qed.

Lemma finish_column_dependent c r unitary basis j w st :
  norm w < 1e-12 ->
  finish_column c r unitary basis j w st = Raise UFuncTypeError.
Proof. intros Hn. unfold finish_column. rewrite Rltb_true by exact Hn. reflexivity. Qed.

Lemma norm_zero_vector v :
  Rsum (map (fun z => Re z * Re z + Im z * Im z) v) = 0 -> norm v = 0.
Proof. intros H. apply norm_eq; lra. Qed.

(** ** What the column loop leaves in the caller's array *)

Lemma length_vscale z v : length (vscale z v) = length v.
Proof. unfold vscale. apply length_map. Qed.

Lemma length_vsub a b : length a = length b -> length (vsub a b) = length a.
Proof.
  intros H. unfold vsub. rewrite length_map, length_combine, <- H.
  apply Nat.min_id.
Qed.

Lemma length_vdiv v t : length (vdiv v t) = length v.
Proof. unfold vdiv. apply length_map. Qed.

Section ViewFacts.

Variables r c : nat.

(** The projection loop run through the view of column [j] computes
    [project] on that column and touches no other column. *)
Lemma project_view_facts basis j a :
  (j < c)%nat -> length a = (r * c)%nat ->
  Forall (fun b => length b = r) basis ->
  length (project_view c r basis j a) = (r * c)%nat
  /\ get_col c r (project_view c r basis j a) j = project basis (get_col c r a j)
  /\ (forall k, (k < c)%nat -> k <> j ->
                get_col c r (project_view c r basis j a) k = get_col c r a k).
Proof.
  intros Hj. revert a. induction basis as [|b basis IH]; intros a Ha Hb.
  - cbn. auto.
  - apply Forall_cons_iff in Hb. destruct Hb as [Hlb Hrest].
    cbn [project_view project fold_left].
    set (v := get_col c r a j).
    set (a1 := set_col c a j (vsub v (vscale (inner b v) b))).
    assert (Hv : length (vsub v (vscale (inner b v) b)) = r).
    { assert (Hlv : length v = r) by apply length_get_col.
      rewrite length_vsub; [exact Hlv|].
      rewrite length_vscale, Hlv, Hlb. reflexivity. }
    assert (Ha1 : length a1 = (r * c)%nat)
      by (unfold a1; rewrite length_set_col; exact Ha).
    destruct (IH a1 Ha1 Hrest) as (Hlen & Hsame & Hother).
    fold (project_view c r basis j a1). fold (project basis (vsub v (vscale (inner b v) b))).
    split; [exact Hlen|]. split.
    + rewrite Hsame. unfold a1.
      rewrite get_col_set_col_same; auto.
    + intros k Hk Hkj. rewrite Hother by assumption.
      unfold a1. apply get_col_set_col_other; auto.
Qed.

Lemma basis_columns_agree unitary k v j :
  (j <= k)%nat -> (k < c)%nat -> length unitary = (r * c)%nat ->
  map (get_col c r (set_col c unitary k v)) (seq 0 j) =
  map (get_col c r unitary) (seq 0 j).
Proof.
  intros Hjk Hk Hlen. apply map_ext_in. intros i Hi. apply in_seq in Hi.
  apply get_col_set_col_other; [lia | lia | exact Hlen].
Qed.

Lemma residual_of_set_col_later unitary original k v j :
  (j <= k)%nat -> (k < c)%nat -> length unitary = (r * c)%nat ->
  residual_of c r (set_col c unitary k v) original j =
  residual_of c r unitary original j.
Proof.
  intros Hjk Hk Hlen. unfold residual_of.
  rewrite basis_columns_agree by assumption. reflexivity.
Qed.

End ViewFacts.

Section ColumnLoopFacts.

Variable sample : nat -> R.
Variables r c : nat.
Variable original : list C.

Lemma finish_column_inv unitary basis j w st acc' st' :
  finish_column c r unitary basis j w st = Ok (acc', st') ->
  acc' = (set_col c unitary j (vdiv w (norm w)),
          basis ++ [get_col c r (set_col c unitary j (vdiv w (norm w))) j])
  /\ st' = st /\ 1e-12 <= norm w.
Proof.
  unfold finish_column.
  destruct (Rltb_spec (norm w) 1e-12); [discriminate|].
  destruct (Reqb _ _); [discriminate|].
  intros H. injection H as <- <-. repeat split. lra.
Qed.

(** A turn of the column loop that returns keeps the invariant. *)
Lemma column_step_inv k acc st acc' st' :
  (k < c)%nat ->
  column_inv c r original k acc st ->
  column_step sample complex128 r c acc k st = Ok (acc', st') ->
  column_inv c r original (S k) acc' st'.
Proof.
  intros Hk (HU & Ha & Hbasis & Hdone & Htodo) Hstep.
  destruct acc as [unitary basis]. cbn [fst snd] in *.
  rewrite column_step_complex in Hstep.
  assert (Horig : get_col c r (arr st) k = get_col c r original k)
    by (apply Htodo; lia).
  assert (Hbl : Forall (fun b => length b = r) basis).
  { rewrite Hbasis. apply Forall_forall. intros b Hb.
    apply in_map_iff in Hb. destruct Hb as (i & <- & _). apply length_get_col. }
  destruct (allclose_zero (get_col c r (arr st) k)) eqn:Hz.
  - apply finish_column_inv in Hstep. destruct Hstep as (-> & -> & _).
    unfold column_inv. cbn [fst snd arr].
    set (u := vdiv _ _).
    split; [rewrite length_set_col; exact HU|]. split; [exact Ha|]. split.
    + rewrite seq_S, map_app. cbn [map Nat.add]. f_equal.
      rewrite basis_columns_agree by (auto; lia). exact Hbasis.
    + split.
      * intros j Hj. rewrite residual_of_set_col_later by (auto; lia).
        destruct (Nat.eq_dec j k) as [->|Hne].
        -- unfold residual_of. rewrite <- Horig, Hz. reflexivity.
        -- apply Hdone. lia.
      * intros j Hj. apply Htodo. lia.
  - cbv zeta in Hstep.
    apply finish_column_inv in Hstep. destruct Hstep as (-> & -> & _).
    destruct (@project_view_facts r c basis k (arr st) Hk Ha Hbl)
      as (Hlen & Hsame & Hother).
    unfold column_inv. cbn [fst snd arr].
    set (u := vdiv _ _).
    split; [rewrite length_set_col; exact HU|]. split; [exact Hlen|]. split.
    + rewrite seq_S, map_app. cbn [map Nat.add]. f_equal.
      rewrite basis_columns_agree by (auto; lia). exact Hbasis.
    + split.
      * intros j Hj. rewrite residual_of_set_col_later by (auto; lia).
        destruct (Nat.eq_dec j k) as [->|Hne].
        -- rewrite Hsame. unfold residual_of.
           rewrite <- Horig, Hz, <- Hbasis. reflexivity.
        -- rewrite Hother by lia. apply Hdone. lia.
      * intros j Hj. rewrite Hother by lia. apply Htodo. lia.
Qed.

Lemma column_loop_inv n k acc st acc' st' :
  (k + n = c)%nat ->
  column_inv c r original k acc st ->
  column_loop sample complex128 r c (seq k n) acc st = Ok (acc', st') ->
  column_inv c r original c acc' st'.
Proof.
  revert k acc st. induction n as [|n IH]; intros k acc st Hkn Hinv Hloop.
  - cbn in Hloop. injection Hloop as <- <-.
    assert (Hk : k = c) by lia. rewrite Hk in Hinv. exact Hinv.
  - cbn [seq column_loop] in Hloop. unfold bind in Hloop.
    destruct (column_step sample complex128 r c acc k st) as [[acc1 st1]|e] eqn:Hstep;
      [|discriminate].
    apply (IH (S k) acc1 st1); [lia | | exact Hloop].
    apply (column_step_inv (k := k) (acc := acc) (st := st)); [lia | exact Hinv | exact Hstep].
Qed.

End ColumnLoopFacts.

(** C9 (amended): [gram_schmidt] writes the projection subtractions through
    a view into the caller's array.  After a call that returns, every
    column that the fallback did not replace holds the original column
    minus its projections on the earlier columns of the result; a replaced
    column and the first column hold their original values.  The array
    changes only where such a projection is not zero. *)
Theorem gram_schmidt_writes_residuals
        (sample : nat -> R) (matrix unitary : ndarray) (g r c : nat) (st : gs_state) :
  dtype_of matrix = complex128 ->
  shape matrix = [r; c] ->
  length (data matrix) = (r * c)%nat ->
  gram_schmidt sample matrix g = Ok (unitary, st) ->
  length (arr st) = (r * c)%nat
  /\ (forall j, (j < c)%nat ->
        get_col c r (arr st) j = residual_of c r (data unitary) (data matrix) j)
  /\ ((0 < c)%nat -> get_col c r (arr st) 0 = get_col c r (data matrix) 0).
Proof.
  intros Hdt Hsh Hlen Hrun. unfold gram_schmidt in Hrun.
  rewrite Hsh, Hdt in Hrun.
  destruct (column_loop sample complex128 r c (seq 0 c)
              (data (zeros complex128 [r; c]), []) (mk_gs_state (data matrix) g))
    as [[[u basis] st1]|e] eqn:Hloop; [|discriminate].
  injection Hrun as <- <-. cbn [data].
  assert (Hinit : column_inv c r (data matrix) 0
                    (data (zeros complex128 [r; c]), [])
                    (mk_gs_state (data matrix) g)).
  { unfold column_inv. cbn [fst snd arr zeros data fold_right].
    rewrite repeat_length. repeat split; auto; try lia. }
  pose proof (@column_loop_inv sample r c (data matrix) c 0 _ _ _ _
                (Nat.add_0_l c) Hinit Hloop) as (HU & Ha & Hb & Hdone & _).
  cbn [fst snd] in *.
  split; [exact Ha|]. split; [exact Hdone|].
  intros Hc. rewrite (Hdone 0%nat Hc). unfold residual_of. cbn [seq map project fold_left].
  destruct (allclose_zero _); reflexivity.
Qed.

(** ** Runs of [gram_schmidt] on concrete matrices *)

(** The runs below are evaluated turn by turn: the list structure by
    computation, the real arithmetic by [lra], with the intermediate arrays
    given in closed form to keep the terms small. *)
Lemma allclose_zero_true_at v :
  Forall (fun z => Re z * Re z + Im z * Im z <= 1e-8 * 1e-8) v ->
  allclose_zero v = true.
Proof.
  intros H. apply allclose_zero_iff. eapply Forall_impl; [|exact H].
  intros z Hz. apply Cmod_le_iff; lra.
Qed.

Lemma finish_column_eval c r unitary basis j w st t u' b' :
  norm w = t -> 1e-12 <= t ->
  set_col c unitary j (vdiv w t) = u' ->
  get_col c r u' j = b' ->
  finish_column c r unitary basis j w st = Ok ((u', basis ++ [b']), st).
Proof.
  intros Hn Ht Hu Hb. rewrite (@finish_column_ok c r unitary basis j w st t Hn Ht), Hu, Hb.
  reflexivity.
Qed.

Ltac some_entry_large :=
  eval_lists;
  first [ apply Exists_cons_hd; lra
        | apply Exists_cons_tl; apply Exists_cons_hd; lra
        | apply Exists_cons_tl; apply Exists_cons_tl; apply Exists_cons_hd; lra
        | apply Exists_cons_tl; apply Exists_cons_tl; apply Exists_cons_tl;
          apply Exists_cons_hd; lra ].

Ltac all_entries_small :=
  eval_lists; repeat (apply Forall_cons; [lra|]); apply Forall_nil.

Ltac finish_with t u' b' :=
  match goal with
  | |- context [finish_column ?c ?r ?U ?B ?j ?W ?st] =>
      rewrite (@finish_column_eval c r U B j W st t u' b');
      [ | apply norm_eq; [lra | unfold Rsum; eval_lists; lra] | lra | vec_eq | vec_eq ]
  end.

(** One turn of the column loop on a column that is kept: [a'] is the
    caller's array after the projections, [t] the norm of the residual,
    [u'] the unitary and [b'] the basis vector after the turn. *)
Ltac gs_keep a' t u' b' :=
  unfold bind at 1; rewrite column_step_complex; cbn [arr rng];
  rewrite allclose_zero_false_at; [ cbv zeta | some_entry_large ];
  match goal with
  | |- context [project_view ?c ?r ?B ?j ?A] =>
      replace (project_view c r B j A) with a' by (symmetry; vec_eq)
  end;
  finish_with t u' b'.

(** One turn on a column that the fallback replaces by the vector [w]
    (after the projections). *)
Ltac gs_fresh w t u' b' :=
  unfold bind at 1; rewrite column_step_complex; cbn [arr rng];
  rewrite allclose_zero_true_at; [ | all_entries_small ];
  match goal with
  | |- context [finish_column ?c ?r ?U ?B ?j ?W ?st] =>
      replace W with w by (symmetry; vec_eq)
  end;
  finish_with t u' b'.

Lemma vsub_zero_scale v b :
  length b = length v -> vsub v (vscale Czero b) = v.
Proof.
  revert b. induction v as [|z v IH]; intros [|y b] Hlen; try discriminate.
  - reflexivity.
  - unfold vsub, vscale in *. cbn [map combine fst snd]. f_equal.
    + destruct z as [x1 x2], y as [y1 y2].
      unfold Csub, Cmul, Czero, Re, Im; cbn [fst snd]. f_equal; lra.
    + apply IH. cbn in Hlen. lia.
Qed.

(** A column already orthogonal to the basis comes out of the projection
    loop unchanged. *)
Lemma project_orthogonal basis v :
  Forall (fun b => length b = length v /\ inner b v = Czero) basis ->
  project basis v = v.
Proof.
  induction basis as [|b basis IH]; intros H; [reflexivity|].
  apply Forall_cons_iff in H. destruct H as [[Hlen Hin] Hrest].
  unfold project. cbn [fold_left]. rewrite Hin, vsub_zero_scale by exact Hlen.
  apply IH. exact Hrest.
Qed.

(** One turn on a column that the fallback replaces by a vector orthogonal
    to the basis built so far. *)
Ltac gs_fresh_orthogonal t u' b' :=
  unfold bind at 1; rewrite column_step_complex; cbn [arr rng];
  rewrite allclose_zero_true_at; [ | all_entries_small ];
  rewrite project_orthogonal;
  [ | repeat (apply Forall_cons; [split; [reflexivity | vec_eq] | ]);
      apply Forall_nil ];
  finish_with t u' b'.

Ltac gs_start :=
  unfold gram_schmidt; cbn [shape dtype_of data];
  cbn [seq column_loop zeros fold_right Nat.mul repeat data].

Lemma gram_schmidt_identity2 sample g :
  gram_schmidt sample identity2 g = Ok (identity2, mk_gs_state (data identity2) g).
Proof.
  unfold identity2 at 1. gs_start.
  gs_keep [Cone; Czero; Czero; Cone] 1 [Cone; Czero; Czero; Czero] [Cone; Czero].
  gs_keep [Cone; Czero; Czero; Cone] 1 [Cone; Czero; Czero; Cone] [Czero; Cone].
  reflexivity.
Qed.

Lemma gram_schmidt_triangular2 sample g :
  gram_schmidt sample triangular2 g = Ok (identity2, mk_gs_state (data identity2) g).
Proof.
  unfold triangular2. gs_start.
  gs_keep [Cone; Cone; Czero; Cone] 1 [Cone; Czero; Czero; Czero] [Cone; Czero].
  gs_keep [Cone; Czero; Czero; Cone] 1 [Cone; Czero; Czero; Cone] [Czero; Cone].
  reflexivity.
Qed.

Lemma gram_schmidt_rank_deficient sample g :
  gram_schmidt sample rank_deficient g = Raise UFuncTypeError.
Proof.
  unfold rank_deficient. gs_start.
  gs_keep [Cone; Cone; Czero; Czero] 1 [Cone; Czero; Czero; Czero] [Cone; Czero].
  unfold bind at 1; rewrite column_step_complex; cbn [arr rng].
  rewrite allclose_zero_false_at; [cbv zeta | some_entry_large].
  rewrite finish_column_dependent; [reflexivity|].
  rewrite norm_zero_vector; [lra|]. unfold Rsum; eval_lists; lra.
Qed.

(** ** Orthonormality of the result of [gram_schmidt] *)

(** *** Algebra of the inner product *)

Ltac complex_ring :=
  unfold Cadd, Csub, Cmul, Cconj, Cdiv_real, Czero, Cone, Re, Im, Rdiv;
  cbn [fst snd]; f_equal; ring.

Lemma inner_nil_l v : inner [] v = Czero.
Proof. reflexivity. Qed.

Lemma inner_nil_r v : inner v [] = Czero.
Proof. destruct v; reflexivity. Qed.

Lemma inner_cons_cons a v b w :
  inner (a :: v) (b :: w) = Cadd (Cmul (Cconj a) b) (inner v w).
Proof. reflexivity. Qed.

Lemma inner_vsub_r a v w :
  length v = length w ->
  inner a (vsub v w) = Csub (inner a v) (inner a w).
Proof.
  revert v w. induction a as [|x a IH]; intros v w Hlen.
  - rewrite !inner_nil_l. complex_ring.
  - destruct v as [|y v], w as [|y' w]; try discriminate.
    + unfold vsub. cbn [combine map]. rewrite !inner_nil_r. complex_ring.
    + unfold vsub. cbn [combine map fst snd]. fold (vsub v w).
      rewrite !inner_cons_cons, IH by (cbn in Hlen; lia).
      destruct x, y, y', (inner a v), (inner a w). complex_ring.
Qed.

Lemma inner_vscale_r a z w : inner a (vscale z w) = Cmul z (inner a w).
Proof.
  revert w. induction a as [|x a IH]; intros w.
  - rewrite !inner_nil_l. complex_ring.
  - destruct w as [|y w].
    + unfold vscale. cbn [map]. rewrite !inner_nil_r. complex_ring.
    + unfold vscale. cbn [map]. fold (vscale z w).
      rewrite !inner_cons_cons, IH.
      destruct x, y, z, (inner a w). complex_ring.
Qed.

Lemma inner_vdiv_r a w t : inner a (vdiv w t) = Cdiv_real (inner a w) t.
Proof.
  revert w. induction a as [|x a IH]; intros w.
  - rewrite !inner_nil_l. complex_ring.
  - destruct w as [|y w].
    + unfold vdiv. cbn [map]. rewrite !inner_nil_r. complex_ring.
    + unfold vdiv. cbn [map]. fold (vdiv w t).
      rewrite !inner_cons_cons, IH.
      destruct x, y, (inner a w). complex_ring.
Qed.

Lemma inner_conj_sym a b : inner a b = Cconj (inner b a).
Proof.
  revert b. induction a as [|x a IH]; intros b.
  - rewrite inner_nil_l, inner_nil_r. complex_ring.
  - destruct b as [|y b].
    + rewrite inner_nil_l, inner_nil_r. complex_ring.
    + rewrite !inner_cons_cons, (IH b).
      destruct x, y, (inner b a). complex_ring.
Qed.

Lemma inner_vdiv_l w t b : inner (vdiv w t) b = Cdiv_real (inner w b) t.
Proof.
  rewrite inner_conj_sym, inner_vdiv_r, (inner_conj_sym w b).
  destruct (inner b w). complex_ring.
Qed.

Lemma inner_self w :
  inner w w = (Rsum (map (fun z => Re z * Re z + Im z * Im z) w), 0).
Proof.
  induction w as [|z w IH].
  - reflexivity.
  - rewrite inner_cons_cons, IH. cbn [map].
    change (Rsum (?x :: ?l)) with (x + Rsum l).
    destruct z. complex_ring.
Qed.

Lemma inner_zero_sym a b : inner a b = Czero -> inner b a = Czero.
Proof. intros H. rewrite inner_conj_sym, H. complex_ring. Qed.

(** A vector of norm [t > 0] divided by [t] has unit norm. *)
Lemma inner_normalized w :
  norm w <> 0 -> inner (vdiv w (norm w)) (vdiv w (norm w)) = Cone.
Proof.
  intros Hn. rewrite inner_vdiv_l, inner_vdiv_r, inner_self.
  pose proof (sum_sq_nonneg w) as Hs.
  assert (Ht : norm w * norm w = Rsum (map (fun z => Re z * Re z + Im z * Im z) w))
    by (unfold norm; apply sqrt_sqrt; exact Hs).
  set (S := Rsum (map (fun z => Re z * Re z + Im z * Im z) w)) in *.
  unfold Cdiv_real, Cone, Re, Im; cbn [fst snd]. f_equal.
  - rewrite <- Ht. field. exact Hn.
  - field. exact Hn.
Qed.

(** *** The projection loop makes the column orthogonal to the basis *)

Lemma length_project basis v :
  Forall (fun b => length b = length v) basis ->
  length (project basis v) = length v.
Proof.
  revert v. induction basis as [|b basis IH]; intros v H; [reflexivity|].
  apply Forall_cons_iff in H. destruct H as [Hb Hrest].
  unfold project. cbn [fold_left].
  fold (project basis (vsub v (vscale (inner b v) b))).
  assert (Hl : length (vsub v (vscale (inner b v) b)) = length v)
    by (apply length_vsub; rewrite length_vscale; auto).
  rewrite IH; [exact Hl|].
  rewrite Hl. exact Hrest.
Qed.

Lemma project_kills pre post v :
  Forall (fun a => Forall (fun b => inner a b = Czero) post) pre ->
  orthonormal post ->
  Forall (fun a => inner a v = Czero) pre ->
  Forall (fun b => length b = length v) post ->
  Forall (fun a => inner a (project post v) = Czero) (pre ++ post).
Proof.
  revert pre v. induction post as [|b1 post IH]; intros pre v Hpp [Hord Hunit] Hpre Hlen.
  - rewrite app_nil_r. exact Hpre.
  - apply Forall_cons_iff in Hunit. destruct Hunit as [Hb1 Hunit].
    apply Forall_cons_iff in Hlen. destruct Hlen as [Hlb1 Hlen].
    inversion Hord as [|? ? Hhead Htail]; subst.
    set (v1 := vsub v (vscale (inner b1 v) b1)).
    assert (Hl1 : length v1 = length v)
      by (apply length_vsub; rewrite length_vscale; auto).
    change (project (b1 :: post) v) with (project post v1).
    replace (pre ++ b1 :: post) with ((pre ++ [b1]) ++ post)
      by (rewrite <- app_assoc; reflexivity).
    apply IH.
    + apply Forall_app. split.
      * eapply Forall_impl; [|exact Hpp]. intros a Ha.
        apply Forall_cons_iff in Ha. exact (proj2 Ha).
      * constructor; [|constructor].
        eapply Forall_impl; [|exact Hhead]. intros b Hb. exact (proj1 Hb).
    + split; assumption.
    + assert (Hstep : forall a, inner a v1 =
                        Csub (inner a v) (Cmul (inner b1 v) (inner a b1))).
      { intros a. unfold v1. rewrite inner_vsub_r, inner_vscale_r; [reflexivity|].
        rewrite length_vscale. auto. }
      apply Forall_app. split.
      * rewrite Forall_forall in *. intros a Ha. rewrite Hstep, (Hpre a Ha).
        specialize (Hpp a Ha). apply Forall_inv in Hpp. rewrite Hpp.
        destruct (inner b1 v). complex_ring.
      * constructor; [|constructor]. rewrite Hstep, Hb1.
        destruct (inner b1 v). complex_ring.
    + rewrite Hl1. exact Hlen.
Qed.

Lemma project_orthogonal_to_basis basis v :
  orthonormal basis ->
  Forall (fun b => length b = length v) basis ->
  Forall (fun a => inner a (project basis v) = Czero) basis.
Proof.
  intros Ho Hl.
  apply (@project_kills [] basis v); auto.
Qed.

Lemma ForallOrdPairs_snoc (A : Type) (R : A -> A -> Prop) l b :
  ForallOrdPairs R l -> Forall (fun a => R a b) l -> ForallOrdPairs R (l ++ [b]).
Proof.
  induction 1 as [|a l Ha Hl IH]; intros Hb; cbn [app].
  - constructor; constructor.
  - apply Forall_cons_iff in Hb. destruct Hb as [Hab Hb].
    constructor; [|apply IH; exact Hb].
    apply Forall_app. split; [exact Ha | constructor; [exact Hab | constructor]].
Qed.

(** Appending the normalised residual keeps the basis orthonormal. *)
Lemma orthonormal_extend basis v :
  orthonormal basis ->
  Forall (fun b => length b = length v) basis ->
  norm (project basis v) <> 0 ->
  orthonormal (basis ++ [vdiv (project basis v) (norm (project basis v))]).
Proof.
  intros Ho Hl Hn.
  pose proof (@project_orthogonal_to_basis basis v Ho Hl) as Hk.
  destruct Ho as [Hord Hunit]. split.
  - apply ForallOrdPairs_snoc; [exact Hord|].
    eapply Forall_impl; [|exact Hk]. intros a Ha. cbv beta in *.
    assert (H0 : inner a (vdiv (project basis v) (norm (project basis v))) = Czero)
      by (rewrite inner_vdiv_r, Ha; complex_ring).
    split; [exact H0 | apply inner_zero_sym; exact H0].
  - apply Forall_app. split; [exact Hunit|].
    constructor; [|constructor]. apply inner_normalized. exact Hn.
Qed.

(** *** The basis stays orthonormal along the column loop *)

Section OrthonormalLoop.

Variable sample : nat -> R.
Variables r c : nat.
Variable original : list C.

Lemma length_fresh_column g : length (fresh_column sample r g) = r.
Proof.
  unfold fresh_column, C.
  rewrite length_combine, !length_map, !length_seq. apply Nat.min_id.
Qed.

Lemma column_step_orthonormal k acc st acc' st' :
  (k < c)%nat ->
  column_inv c r original k acc st ->
  orthonormal (snd acc) ->
  column_step sample complex128 r c acc k st = Ok (acc', st') ->
  orthonormal (snd acc').
Proof.
  intros Hk (HU & Ha & Hbasis & _ & _) Horth Hstep.
  destruct acc as [unitary basis]. cbn [fst snd] in *.
  rewrite column_step_complex in Hstep.
  assert (Hbl : Forall (fun b => length b = r) basis).
  { rewrite Hbasis. apply Forall_forall. intros b Hb.
    apply in_map_iff in Hb. destruct Hb as (i & <- & _). apply length_get_col. }
  assert (Hext : forall v, length v = r ->
            1e-12 <= norm (project basis v) ->
            orthonormal
              (basis ++ [get_col c r
                           (set_col c unitary k
                              (vdiv (project basis v) (norm (project basis v)))) k])).
  { intros v Hv Hn.
    assert (Hlv : Forall (fun b => length b = length v) basis)
      by (rewrite Hv; exact Hbl).
    rewrite get_col_set_col_same; [| exact Hk | exact HU |].
    - apply orthonormal_extend; [exact Horth | exact Hlv | lra].
    - rewrite length_vdiv, length_project; assumption. }
  destruct (allclose_zero (get_col c r (arr st) k)).
  - apply finish_column_inv in Hstep. destruct Hstep as (-> & _ & Hn).
    cbn [snd]. apply Hext; [apply length_fresh_column | exact Hn].
  - cbv zeta in Hstep.
    apply finish_column_inv in Hstep. destruct Hstep as (-> & _ & Hn).
    destruct (@project_view_facts r c basis k (arr st) Hk Ha Hbl) as (_ & Hsame & _).
    cbn [snd]. rewrite Hsame in Hn |- *.
    apply Hext; [apply length_get_col | exact Hn].
Qed.

Lemma column_loop_orthonormal n k acc st acc' st' :
  (k + n = c)%nat ->
  column_inv c r original k acc st ->
  orthonormal (snd acc) ->
  column_loop sample complex128 r c (seq k n) acc st = Ok (acc', st') ->
  orthonormal (snd acc').
Proof.
  revert k acc st. induction n as [|n IH]; intros k acc st Hkn Hinv Horth Hloop.
  - cbn in Hloop. injection Hloop as <- <-. exact Horth.
  - cbn [seq column_loop] in Hloop. unfold bind in Hloop.
    destruct (column_step sample complex128 r c acc k st) as [[acc1 st1]|e] eqn:Hstep;
      [|discriminate].
    apply (IH (S k) acc1 st1); [lia | | | exact Hloop].
    + apply (@column_step_inv sample r c original k acc st acc1 st1);
        [lia | exact Hinv | exact Hstep].
    + apply (@column_step_orthonormal k acc st acc1 st1);
        [lia | exact Hinv | exact Horth | exact Hstep].
Qed.

End OrthonormalLoop.

(** X1: whenever [gram_schmidt] returns on a complex matrix, the result has
    the shape of the input and its columns are orthonormal, that is
    [unitary.conj().T @ unitary] is the identity (in exact arithmetic). *)
Theorem gram_schmidt_columns_orthonormal
        (sample : nat -> R) (matrix unitary : ndarray) (g r c : nat) (st : gs_state) :
  dtype_of matrix = complex128 ->
  shape matrix = [r; c] ->
  length (data matrix) = (r * c)%nat ->
  gram_schmidt sample matrix g = Ok (unitary, st) ->
  shape unitary = [r; c]
  /\ length (data unitary) = (r * c)%nat
  /\ orthonormal (map (get_col c r (data unitary)) (seq 0 c)).
Proof.
  intros Hdt Hsh Hlen Hrun. unfold gram_schmidt in Hrun.
  rewrite Hsh, Hdt in Hrun.
  destruct (column_loop sample complex128 r c (seq 0 c)
              (data (zeros complex128 [r; c]), []) (mk_gs_state (data matrix) g))
    as [[[u basis] st1]|e] eqn:Hloop; [|discriminate].
  injection Hrun as <- <-. cbn [data shape].
  assert (Hinit : column_inv c r (data matrix) 0
                    (data (zeros complex128 [r; c]), [])
                    (mk_gs_state (data matrix) g)).
  { unfold column_inv. cbn [fst snd arr zeros data fold_right].
    rewrite repeat_length. repeat split; auto; try lia. }
  assert (Horth0 : orthonormal (snd (data (zeros complex128 [r; c]), @nil (list C))))
    by (split; constructor).
  pose proof (@column_loop_inv sample r c (data matrix) c 0 _ _ _ _
                (Nat.add_0_l c) Hinit Hloop) as (HU & _ & Hb & _ & _).
  pose proof (@column_loop_orthonormal sample r c (data matrix) c 0 _ _ _ _
                (Nat.add_0_l c) Hinit Horth0 Hloop) as Horth.
  cbn [fst snd] in *. rewrite <- Hb. auto.
Qed.

Lemma gram_schmidt_columns_orthonormal_witness :
  shape identity2 = [2; 2]%nat
  /\ length (data identity2) = (2 * 2)%nat
  /\ orthonormal (map (get_col 2 2 (data identity2)) (seq 0 2)).
Proof.
  apply (@gram_schmidt_columns_orthonormal half_sample triangular2 identity2 0 2 2
           (mk_gs_state (data identity2) 0));
    [reflexivity | reflexivity | reflexivity | apply gram_schmidt_triangular2].
Defined.

(** ** The qubits of a generated layer *)

(** Lines 144-145 for a left bond of dimension 1 or 2. *)
Lemma site_qubits_cases num_sites i d_left qs :
  (i < num_sites)%nat -> (d_left <= 2)%nat -> (d_left = 2%nat -> (1 <= i)%nat) ->
  site_qubits num_sites i d_left = Ok qs ->
  qs = if (d_left =? 1)%nat then [Z.of_nat (num_sites - 1 - i)]
       else [Z.of_nat (num_sites - 1 - i); Z.of_nat (num_sites - i)].
Proof.
  intros Hi Hd Hi1 H. unfold site_qubits, ceil_log2 in H.
  destruct d_left as [|[|[|d]]]; try lia.
  - cbn in H. discriminate.
  - cbn [Nat.eqb bind_result Nat.log2_up] in H. 
    change (Z.of_nat (Nat.log2_up 1)) with 0%Z in H.
    injection H as <-. unfold py_range.
    replace (Z.of_nat i + 1 - (Z.of_nat i - 0))%Z with 1%Z by lia.
    change (Z.to_nat 1) with 1%nat. cbn [seq map rev app Nat.eqb].
    f_equal. lia.
  - specialize (Hi1 eq_refl).
    change (Z.of_nat (Nat.log2_up 2)) with 1%Z in H.
    cbn [Nat.eqb bind_result] in H.
    injection H as <-. unfold py_range.
    replace (Z.of_nat i + 1 - (Z.of_nat i - 1))%Z with 2%Z by lia.
    change (Z.to_nat 2) with 2%nat. cbn [seq map rev app Nat.eqb].
    f_equal; [lia|]. f_equal. lia.
Qed.

Lemma nth_error_combine_seq (A : Type) (l : list A) s k :
  nth_error (combine (seq s (length l)) l) k =
  option_map (fun t => ((s + k)%nat, t)) (nth_error l k).
Proof.
  revert s k. induction l as [|a l IH]; intros s k.
  - destruct k; reflexivity.
  - destruct k as [|k]; cbn [length seq combine nth_error option_map].
    + rewrite Nat.add_0_r. reflexivity.
    + rewrite IH. rewrite Nat.add_succ_r. reflexivity.
Qed.

Lemma expected_qubits_at num_sites k t :
  (k < num_sites)%nat ->
  expected_qubits num_sites (num_sites - k - 1) t =
  if (S k =? num_sites)%nat || (hd 0%nat (shape t) =? 1)%nat
  then [Z.of_nat k] else [Z.of_nat k; Z.of_nat (S k)].
Proof.
  intros Hk. unfold expected_qubits.
  replace (num_sites - 1 - (num_sites - k - 1))%nat with k by lia.
  replace (num_sites - (num_sites - k - 1))%nat with (S k) by lia.
  destruct (Nat.eqb_spec (num_sites - k - 1) 0), (Nat.eqb_spec (S k) num_sites);
    try lia; reflexivity.
Qed.

Section LayerFacts.

Variable sample : nat -> R.

(** The qubits of the gate of a site depend on the shape of its tensor
    only. *)
Lemma site_gate_qubits num_sites i t g qs u g' :
  (i < num_sites)%nat ->
  Forall (fun d => (d <= 2)%nat) (shape t) ->
  site_gate sample num_sites i t g = Ok ((qs, u), g') ->
  qs = expected_qubits num_sites i t.
Proof.
  intros Hi Hsh H. unfold site_gate in H.
  destruct (boundary_reshape num_sites i t) as [t1|e] eqn:Hb; [|discriminate].
  cbn [bind_result] in H.
  destruct (swapaxes12 t1) as [t2|e] eqn:Hs; [|discriminate].
  cbn [bind_result] in H.
  unfold swapaxes12 in Hs.
  destruct (shape t1) as [|a [|b [|c [|? ?]]]] eqn:Ht1; try discriminate.
  injection Hs as <-. cbn [shape] in H.
  destruct (site_qubits num_sites i a) as [qs0|e] eqn:Hq; [|discriminate].
  cbn [bind_result] in H.
  destruct (_ <? _)%nat; [discriminate|].
  destruct (gram_schmidt _ _ _) as [[u0 st]|e]; [|discriminate].
  cbn [bind_result] in H. injection H as <- _ _.
  unfold expected_qubits.
  (* the first dimension after the boundary reshapes *)
  unfold boundary_reshape in Hb.
  destruct (Nat.eqb_spec i 0) as [->|Hi0].
  - destruct (shape t) as [|d_right [|d [|? ?]]] eqn:Ht; try discriminate.
    cbn [bind_result reshape shape] in Hb.
    destruct (Z.of_nat 0 =? Z.of_nat num_sites - 1)%Z; [discriminate|].
    injection Hb as <-. cbn [shape reshape] in Ht1. injection Ht1 as <- _ _.
    cbn [orb].
    apply (@site_qubits_cases num_sites 0 1 qs0); auto; lia.
  - cbn [bind_result orb] in Hb.
    assert (Ha : a = hd 0%nat (shape t) /\ (a <= 2)%nat).
    { destruct (Z.of_nat i =? Z.of_nat num_sites - 1)%Z.
      - destruct (shape t) as [|d_left [|d [|? ?]]] eqn:Ht; try discriminate.
        injection Hb as <-. cbn [shape reshape] in Ht1. injection Ht1 as <- _ _.
        split; [reflexivity|]. apply Forall_inv in Hsh. exact Hsh.
      - injection Hb as <-. rewrite Ht1 in Hsh |- *.
        split; [reflexivity|]. apply Forall_inv in Hsh. exact Hsh. }
    destruct Ha as [Ha Hle]. rewrite <- Ha.
    apply (@site_qubits_cases num_sites i a qs0); auto; lia.
Qed.

Lemma site_loop_qubits num_sites sites acc g layer g' :
  (forall k t, In (k, t) sites ->
               (k < num_sites)%nat /\ Forall (fun d => (d <= 2)%nat) (shape t)) ->
  site_loop sample num_sites sites acc g = Ok (layer, g') ->
  map fst layer =
  map fst acc ++
  map (fun kt => expected_qubits num_sites (num_sites - fst kt - 1) (snd kt)) sites.
Proof.
  revert acc g. induction sites as [|[k t] sites IH]; intros acc g Hall H.
  - cbn in H. injection H as <- _. cbn. rewrite app_nil_r. reflexivity.
  - cbn [site_loop] in H.
    destruct (site_gate sample num_sites (num_sites - k - 1) t g)
      as [[[qs u] g1]|e] eqn:Hg; [|discriminate].
    cbn [bind_result] in H.
    destruct (Hall k t (or_introl eq_refl)) as [Hk Hsh].
    apply site_gate_qubits in Hg; [|lia|exact Hsh].
    apply IH in H; [|intros k' t' Hin; apply Hall; right; exact Hin].
    rewrite H, map_app, <- app_assoc. cbn [map fst snd app]. rewrite Hg. reflexivity.
Qed.

Lemma generate_layer_qubits mps g layer g' :
  bond_le_2 mps ->
  generate_layer sample mps g = Ok (layer, g') ->
  map fst layer =
  map (fun kt => expected_qubits (L mps) (L mps - fst kt - 1) (snd kt))
      (combine (seq 0 (L mps)) (rev mps)).
Proof.
  intros Hb H. unfold generate_layer in H.
  apply site_loop_qubits in H; [exact H|].
  intros k t Hin. split.
  - apply in_combine_l in Hin. apply in_seq in Hin. unfold L. lia.
  - apply in_combine_r in Hin. apply in_rev in Hin.
    unfold bond_le_2 in Hb. rewrite Forall_forall in Hb. apply Hb. exact Hin.
Qed.

(** The k-th gate of the layer is the gate of site [n - 1 - k]: it acts on
    qubit [k], and on qubit [k + 1] as well when the left bond of that
    site has dimension 2. *)
Lemma generate_layer_gate mps g layer g' k t :
  bond_le_2 mps ->
  generate_layer sample mps g = Ok (layer, g') ->
  nth_error (rev mps) k = Some t ->
  exists u,
    nth_error layer k =
    Some (if (S k =? L mps)%nat || (hd 0%nat (shape t) =? 1)%nat
          then [Z.of_nat k] else [Z.of_nat k; Z.of_nat (S k)], u).
Proof.
  intros Hb H Ht.
  pose proof (@generate_layer_qubits mps g layer g' Hb H) as Hq.
  assert (Hk : (k < L mps)%nat).
  { unfold L. rewrite <- length_rev. apply nth_error_Some. congruence. }
  assert (Hn : nth_error (map fst layer) k =
               Some (expected_qubits (L mps) (L mps - k - 1) t)).
  { rewrite Hq, nth_error_map. unfold L at 3. rewrite <- length_rev.
    rewrite nth_error_combine_seq, Ht. reflexivity. }
  rewrite nth_error_map in Hn.
  destruct (nth_error layer k) as [[qs u]|]; [|discriminate].
  cbn [option_map fst] in Hn. injection Hn as Hn. subst qs. exists u.
  rewrite expected_qubits_at by exact Hk. reflexivity.
Qed.

Lemma generate_layer_length mps g layer g' :
  bond_le_2 mps ->
  generate_layer sample mps g = Ok (layer, g') ->
  length layer = L mps.
Proof.
  intros Hb H. pose proof (@generate_layer_qubits mps g layer g' Hb H) as Hq.
  apply (f_equal (@length _)) in Hq.
  rewrite !length_map, length_combine, length_seq, length_rev in Hq.
  unfold L in *. rewrite Nat.min_id in Hq. exact Hq.
Qed.

(** C2 (amended): the qubit subsets of a layer generated from a bond-<=2
    matrix product state cover the register: there is one gate per site,
    the k-th gate acts on qubit k, and every qubit a gate acts on lies in
    [0, n).  They do not partition it: the gate of a site whose left bond
    has dimension 2 also acts on the qubit of the next gate of the
    layer. *)
Theorem generate_layer_covers_and_overlaps mps g layer g' :
  bond_le_2 mps ->
  generate_layer sample mps g = Ok (layer, g') ->
  length layer = L mps
  /\ (forall k, (k < L mps)%nat ->
        exists qs u, nth_error layer k = Some (qs, u) /\ In (Z.of_nat k) qs)
  /\ (forall qs u q, In (qs, u) layer -> In q qs -> (0 <= q < Z.of_nat (L mps))%Z)
  /\ (forall k t, nth_error (rev mps) k = Some t -> (S k < L mps)%nat ->
        hd 0%nat (shape t) = 2%nat ->
        exists qs u qs' u',
          nth_error layer k = Some (qs, u)
          /\ nth_error layer (S k) = Some (qs', u')
          /\ In (Z.of_nat (S k)) qs /\ In (Z.of_nat (S k)) qs').
Proof.
  intros Hb H.
  pose proof (@generate_layer_length mps g layer g' Hb H) as Hlen.
  assert (Hsite : forall k, (k < L mps)%nat -> exists t, nth_error (rev mps) k = Some t).
  { intros k Hk. destruct (nth_error (rev mps) k) as [t|] eqn:E; [eauto|].
    apply nth_error_None in E. rewrite length_rev in E. unfold L in Hk. lia. }
  split; [exact Hlen|]. split; [|split].
  - intros k Hk. destruct (Hsite k Hk) as [t Ht].
    destruct (@generate_layer_gate mps g layer g' k t Hb H Ht) as [u Hu].
    eexists _, u. split; [exact Hu|].
    destruct ((S k =? L mps)%nat || (hd 0%nat (shape t) =? 1)%nat);
      left; reflexivity.
  - intros qs u q Hin Hq.
    apply In_nth_error in Hin. destruct Hin as [k Hk].
    assert (Hkl : (k < L mps)%nat).
    { rewrite <- Hlen. apply nth_error_Some. congruence. }
    destruct (Hsite k Hkl) as [t Ht].
    destruct (@generate_layer_gate mps g layer g' k t Hb H Ht) as [u' Hu].
    assert (Hqs : qs = if (S k =? L mps)%nat || (hd 0%nat (shape t) =? 1)%nat
                       then [Z.of_nat k] else [Z.of_nat k; Z.of_nat (S k)])
      by congruence.
    rewrite Hqs in Hq. clear Hqs. revert Hq.
    destruct (Nat.eqb_spec (S k) (L mps)) as [He|Hne]; cbn [orb];
      [|destruct (hd 0%nat (shape t) =? 1)%nat]; cbn [In]; intros Hq; lia.
  - intros k t Ht Hk Hd.
    destruct (@generate_layer_gate mps g layer g' k t Hb H Ht) as [u Hu].
    destruct (Hsite (S k) Hk) as [t' Ht'].
    destruct (@generate_layer_gate mps g layer g' (S k) t' Hb H Ht') as [u' Hu'].
    eexists _, u, _, u'. split; [exact Hu|]. split; [exact Hu'|].
    rewrite Hd. destruct (Nat.eqb_spec (S k) (L mps)); [lia|].
    change (2 =? 1)%nat with false. cbn [orb].
    split; [right; left; reflexivity|].
    destruct ((S (S k) =? L mps)%nat || (hd 0%nat (shape t') =? 1)%nat);
      left; reflexivity.
Qed.

End LayerFacts.

(** ** A layer generated from an entangled pair *)

(** The run of [gram_schmidt] on [pair_matrix], at the start of the first
    and of the second period of the generator. *)
Lemma gram_schmidt_pair_matrix g :
  g = 0%nat \/ g = 24%nat ->
  gram_schmidt staircase_sample pair_matrix g =
  Ok (pair_unitary, mk_gs_state (data pair_matrix) (g + 24)).
Proof.
  intros [-> | ->]; unfold pair_matrix at 1; gs_start.
  all: cbn [Nat.add].
  all: gs_keep
          [(3 / 5, 0); Czero; Czero; Czero;
           Czero; Czero; Czero; Czero;
           Czero; Czero; Czero; Czero;
           (4 / 5, 0); Czero; Czero; Czero] 1
          [(3 / 5, 0); Czero; Czero; Czero;
           Czero; Czero; Czero; Czero;
           Czero; Czero; Czero; Czero;
           (4 / 5, 0); Czero; Czero; Czero]
          [(3 / 5, 0); Czero; Czero; (4 / 5, 0)].
  all: gs_fresh_orthogonal (1 / 2)
          [(3 / 5, 0); Czero; Czero; Czero;
           Czero; Cone; Czero; Czero;
           Czero; Czero; Czero; Czero;
           (4 / 5, 0); Czero; Czero; Czero]
          [Czero; Cone; Czero; Czero].
  all: gs_fresh_orthogonal (1 / 2)
          [(3 / 5, 0); Czero; Czero; Czero;
           Czero; Cone; Czero; Czero;
           Czero; Czero; Cone; Czero;
           (4 / 5, 0); Czero; Czero; Czero]
          [Czero; Czero; Cone; Czero].
  all: gs_fresh_orthogonal (1 / 2)
          [(3 / 5, 0); Czero; Czero; (4 / 5, 0);
           Czero; Cone; Czero; Czero;
           Czero; Czero; Cone; Czero;
           (4 / 5, 0); Czero; Czero; (- 3 / 5, 0)]
          [(4 / 5, 0); Czero; Czero; (- 3 / 5, 0)].
  all: reflexivity.
Qed.

Lemma site_gate_pair_last g :
  g = 0%nat \/ g = 24%nat ->
  site_gate staircase_sample 2 1
            (mk_ndarray complex128 [2%nat; 2%nat] [(3 / 5, 0); Czero; Czero; (4 / 5, 0)])
            g =
  Ok (([0; 1]%Z, pair_unitary), (g + 24)%nat).
Proof.
  intros Hg. unfold site_gate.
  cbv -[gram_schmidt staircase_sample IZR Rdiv Rminus bind_result Nat.add].
  cbv [bind_result].
  change (gram_schmidt staircase_sample _ g)
    with (gram_schmidt staircase_sample pair_matrix g).
  rewrite gram_schmidt_pair_matrix by exact Hg. cbv [rng]. reflexivity.
Qed.

Lemma site_gate_pair_first g :
  site_gate staircase_sample 2 0
            (mk_ndarray complex128 [2%nat; 2%nat] [Cone; Czero; Czero; Cone]) g =
  Ok (([1]%Z, identity2), g).
Proof.
  unfold site_gate.
  cbv -[gram_schmidt staircase_sample IZR Rdiv Rminus bind_result].
  cbv [bind_result].
  change (gram_schmidt staircase_sample _ g)
    with (gram_schmidt staircase_sample identity2 g).
  rewrite gram_schmidt_identity2. cbv [rng]. reflexivity.
Qed.

Lemma generate_layer_pair g :
  g = 0%nat \/ g = 24%nat ->
  generate_layer staircase_sample pair_mps g = Ok (pair_layer, (g + 24)%nat).
Proof.
  intros Hg. unfold generate_layer, pair_mps, L.
  cbn [length rev app seq combine site_loop Nat.sub].
  rewrite site_gate_pair_last by exact Hg. cbn [bind_result app].
  rewrite site_gate_pair_first. reflexivity.
Qed.

(** ** Entanglement entropy slope and classification *)

Section EntanglementFacts.

Variable DensityMatrix : Type.
Variable partial_trace : list C -> list nat -> DensityMatrix.
Variable entropy : DensityMatrix -> R.

Lemma degenerate_regression (state : list C) (entropies : list R) :
  retained_entropies partial_trace entropy state = Ok entropies ->
  regression_denominator entropies = 0 ->
  calculate_entanglement_entropy_slope partial_trace entropy state = Ok 0
  /\ regression_slope entropies = 0
  /\ entanglement_type partial_trace entropy state = Ok "area"%string.
Proof.
  unfold retained_entropies, calculate_entanglement_entropy_slope, entanglement_type.
  destruct (num_qubits_of state) as [n|e]; cbn [bind_result]; [|discriminate].
  intros Hret Hden. injection Hret as Hret. rewrite Hret.
  rewrite (regression_slope_degenerate _ Hden), isclose_zero_one. auto.
Qed.

(** C7: when the denominator of the regression (the variance of the cut
    indices) is zero, [calculate_entanglement_entropy_slope] returns
    exactly 0, and so does the copy of the computation inside
    [entanglement_type], which then answers "area". *)
Theorem slope_zero_on_zero_denominator (state : list C) (entropies : list R) :
  retained_entropies partial_trace entropy state = Ok entropies ->
  regression_denominator entropies = 0 ->
  calculate_entanglement_entropy_slope partial_trace entropy state = Ok 0
  /\ regression_slope entropies = 0
  /\ entanglement_type partial_trace entropy state = Ok "area"%string.
Proof. apply degenerate_regression. Qed.

Lemma num_qubits_of_pow2 (state : list C) (n : nat) :
  length state = (2 ^ n)%nat -> num_qubits_of state = Ok n.
Proof.
  intros Hlen. unfold num_qubits_of. rewrite Hlen.
  assert (Hnz : (2 ^ n)%nat <> 0%nat) by (apply Nat.pow_nonzero; lia).
  apply Nat.eqb_neq in Hnz. rewrite Hnz.
  rewrite Nat.log2_up_pow2 by lia. reflexivity.
Qed.

Lemma second_half_short (n : nat) (state : list C) :
  (n <= 5)%nat ->
  (length (second_half (cut_entropies partial_trace entropy state n)) <= 1)%nat.
Proof.
  intros Hn. unfold second_half, cut_entropies.
  do 6 (destruct n as [|n]; [cbn; lia|]). lia.
Qed.

(** C10: for a statevector on at most 5 qubits fewer than two entropies
    are retained, the denominator of the regression is zero, the slope
    returned is exactly 0 and the state is classified "area", whatever
    the entropies are. *)
Theorem small_states_are_area_law (state : list C) (n : nat) :
  length state = (2 ^ n)%nat -> (n <= 5)%nat ->
  (exists entropies,
      retained_entropies partial_trace entropy state = Ok entropies
      /\ (length entropies < 2)%nat
      /\ regression_denominator entropies = 0)
  /\ calculate_entanglement_entropy_slope partial_trace entropy state = Ok 0
  /\ entanglement_type partial_trace entropy state = Ok "area"%string.
Proof.
  intros Hlen Hn.
  pose proof (num_qubits_of_pow2 state n Hlen) as Hq.
  pose proof (second_half_short state Hn) as Hshort.
  set (entropies := second_half (cut_entropies partial_trace entropy state n)) in *.
  assert (Hden : regression_denominator entropies = 0)
    by (apply regression_denominator_zero_iff; exact Hshort).
  assert (Hret : retained_entropies partial_trace entropy state = Ok entropies)
    by (unfold retained_entropies; rewrite Hq; reflexivity).
  destruct (degenerate_regression state Hret Hden) as (Hs & _ & Ht).
  split; [|split; assumption].
  exists entropies. repeat split; [assumption|lia|assumption].
Qed.

(** C8 (amended): [entanglement_type] answers "volume" exactly when the
    fitted slope is within [0.10001] of 1, that is [atol = 0.1] plus the
    default relative tolerance [1e-5] of [np.isclose] times [|1|], and
    "area" in every other case.  The slope is the one
    [calculate_entanglement_entropy_slope] returns: there is one entropy
    per cut size 1..n/2, the second half of them is retained, and when
    their regression is not degenerate the slope is the least-squares
    one, the line of that slope through the means having the smallest
    sum of squared residuals of all lines. *)
Theorem entanglement_type_threshold (state : list C) (n : nat) :
  num_qubits_of state = Ok n ->
  let cuts := cut_entropies partial_trace entropy state n in
  let retained := second_half cuts in
  let x := arange1 (length retained) in
  let slope := regression_slope retained in
  calculate_entanglement_entropy_slope partial_trace entropy state = Ok slope
  /\ (entanglement_type partial_trace entropy state = Ok "volume"%string
      <-> Rabs (slope - 1) <= 0.10001)
  /\ (entanglement_type partial_trace entropy state = Ok "area"%string
      <-> 0.10001 < Rabs (slope - 1))
  /\ length cuts = (n / 2)%nat
  /\ retained = skipn (n / 2 / 2) cuts
  /\ (regression_denominator retained <> 0 ->
      forall a b,
        squared_error slope (mean retained - slope * mean x) (combine x retained)
        <= squared_error a b (combine x retained)).
Proof.
  intros Hq cuts retained x slope.
  assert (Hcuts : length cuts = (n / 2)%nat)
    by (unfold cuts, cut_entropies; rewrite length_map, length_seq; reflexivity).
  unfold calculate_entanglement_entropy_slope, entanglement_type.
  rewrite Hq; cbn [bind_result]. fold cuts. fold retained. fold slope.
  pose proof (isclose_one_iff slope) as Hiff.
  assert (Hols : regression_denominator retained <> 0 ->
                 forall a b,
                   squared_error slope (mean retained - slope * mean x)
                                 (combine x retained)
                   <= squared_error a b (combine x retained))
    by (intros Hden a b; apply regression_slope_minimises; exact Hden).
  assert (Hret : retained = skipn (n / 2 / 2) cuts)
    by (unfold retained, second_half; rewrite Hcuts; reflexivity).
  destruct (isclose slope 1 default_rtol 0.1).
  - assert (Rabs (slope - 1) <= 0.10001) by (apply Hiff; reflexivity).
    repeat split; auto; try discriminate. intros; lra.
  - assert (~ Rabs (slope - 1) <= 0.10001) by (intros Hc; apply Hiff in Hc; discriminate).
    repeat split; auto; try discriminate; try (intros; lra).
Qed.

End EntanglementFacts.

Lemma small_states_are_area_law_witness :
  (exists entropies,
      retained_entropies traced_out bell_entropy bell_state = Ok entropies
      /\ (length entropies < 2)%nat
      /\ regression_denominator entropies = 0)
  /\ calculate_entanglement_entropy_slope traced_out bell_entropy bell_state = Ok 0
  /\ entanglement_type traced_out bell_entropy bell_state = Ok "area"%string.
Proof.
  apply (@small_states_are_area_law _ traced_out bell_entropy bell_state 2);
    [reflexivity | lia].
Defined.

Lemma slope_zero_on_zero_denominator_witness :
  calculate_entanglement_entropy_slope traced_out bell_entropy bell_state = Ok 0
  /\ regression_slope [1] = 0
  /\ entanglement_type traced_out bell_entropy bell_state = Ok "area"%string.
Proof.
  apply (@slope_zero_on_zero_denominator _ traced_out bell_entropy bell_state [1]).
  - reflexivity.
  - apply regression_denominator_zero_iff. cbn. lia.
Defined.

Lemma entanglement_type_threshold_witness :
  let cuts := cut_entropies traced_out profile6_entropy flat_state64 6 in
  let retained := second_half cuts in
  let x := arange1 (length retained) in
  let slope := regression_slope retained in
  calculate_entanglement_entropy_slope traced_out profile6_entropy flat_state64
  = Ok slope
  /\ (entanglement_type traced_out profile6_entropy flat_state64
      = Ok "volume"%string
      <-> Rabs (slope - 1) <= 0.10001)
  /\ (entanglement_type traced_out profile6_entropy flat_state64
      = Ok "area"%string
      <-> 0.10001 < Rabs (slope - 1))
  /\ length cuts = (6 / 2)%nat
  /\ retained = skipn (6 / 2 / 2) cuts
  /\ (regression_denominator retained <> 0 ->
      forall a b,
        squared_error slope (mean retained - slope * mean x) (combine x retained)
        <= squared_error a b (combine x retained)).
Proof.
  apply (@entanglement_type_threshold _ traced_out profile6_entropy
           flat_state64 6).
  reflexivity.
Defined.

Lemma regression_slope_profile6 :
  regression_slope [1; 1.899995] = 0.899995.
Proof.
  unfold regression_slope.
  assert (Hd : regression_denominator [1; 1.899995] = 0.5).
  { unfold regression_denominator, arange1, mean. simpl. lra. }
  assert (Hn : regression_numerator [1; 1.899995] = 0.4499975).
  { unfold regression_numerator, arange1, mean. simpl. lra. }
  rewrite Hd, Hn. rewrite Reqb_false by lra. lra.
Qed.

(** C8 (counterexample): with retained entropies [1] and [1.899995] the
    slope is [0.899995], more than [0.1] away from 1, and the answer is
    "volume". *)
Lemma entanglement_type_volume_outside_tenth :
  entanglement_type traced_out profile6_entropy flat_state64 = Ok "volume"%string
  /\ calculate_entanglement_entropy_slope traced_out profile6_entropy flat_state64
     = Ok 0.899995
  /\ ~ Rabs (0.899995 - 1) <= 0.1.
Proof.
  assert (Hq : num_qubits_of flat_state64 = Ok 6%nat) by reflexivity.
  unfold entanglement_type, calculate_entanglement_entropy_slope.
  rewrite Hq. cbn [bind_result].
  change (second_half (cut_entropies traced_out profile6_entropy flat_state64 6))
    with [1; 1.899995].
  rewrite regression_slope_profile6.
  assert (Ha : Rabs (0.899995 - 1) = 0.100005).
  { unfold Rabs. destruct (Rcase_abs _); lra. }
  split; [|split].
  - unfold isclose, default_rtol. rewrite Ha, Rabs_R1.
    rewrite Rleb_true by lra. reflexivity.
  - reflexivity.
  - rewrite Ha. lra.
Qed.

(** ** Layers and Gram-Schmidt: the properties of the design document *)

(** C2 (counterexample): the layer generated from the two-site state
    [(3|00> + 4|11>)/5] has the gates [[0; 1]] and [[1]]: qubit 1 is in
    both. *)
Lemma pair_layer_shares_a_qubit :
  bond_le_2 pair_mps
  /\ generate_layer staircase_sample pair_mps 0 =
     Ok ([([0; 1]%Z, pair_unitary); ([1]%Z, identity2)], 24%nat)
  /\ ~ NoDup (concat (map fst [([0; 1]%Z, pair_unitary); ([1]%Z, identity2)])).
Proof.
  split; [|split].
  - unfold bond_le_2, pair_mps. repeat constructor.
  - apply (generate_layer_pair (or_introl eq_refl)).
  - cbn. intros Hnd. inversion Hnd as [|? ? _ Hnd1]; subst.
    inversion Hnd1 as [|? ? Hin _]; subst. apply Hin. left. reflexivity.
Qed.

Lemma pair_mps_bond_le_2 : bond_le_2 pair_mps.
Proof. unfold bond_le_2, pair_mps. repeat constructor. Qed.

Lemma generate_layer_covers_and_overlaps_witness :
  length [([0; 1]%Z, pair_unitary); ([1]%Z, identity2)] = L pair_mps
  /\ (forall k, (k < L pair_mps)%nat ->
        exists qs u,
          nth_error [([0; 1]%Z, pair_unitary); ([1]%Z, identity2)] k = Some (qs, u)
          /\ In (Z.of_nat k) qs)
  /\ (forall qs u q,
        In (qs, u) [([0; 1]%Z, pair_unitary); ([1]%Z, identity2)] ->
        In q qs -> (0 <= q < Z.of_nat (L pair_mps))%Z)
  /\ (forall k t, nth_error (rev pair_mps) k = Some t -> (S k < L pair_mps)%nat ->
        hd 0%nat (shape t) = 2%nat ->
        exists qs u qs' u',
          nth_error [([0; 1]%Z, pair_unitary); ([1]%Z, identity2)] k = Some (qs, u)
          /\ nth_error [([0; 1]%Z, pair_unitary); ([1]%Z, identity2)] (S k) = Some (qs', u')
          /\ In (Z.of_nat (S k)) qs /\ In (Z.of_nat (S k)) qs').
Proof.
  apply (@generate_layer_covers_and_overlaps staircase_sample pair_mps 0%nat _ 24%nat
           pair_mps_bond_le_2 (generate_layer_pair (or_introl eq_refl))).
Defined.

(** C3 (defect of the code): on the complex matrix [[1, 1], [0, 0]], whose
    second column depends on the first, [gram_schmidt] does not return a
    unitary: the retry of lines 44-50 adds a complex array in place to the
    real array it has just drawn, which numpy refuses. *)
Theorem gram_schmidt_raises_on_dependent_column (sample : nat -> R) (g : nat) :
  gram_schmidt sample rank_deficient g = Raise UFuncTypeError.
Proof. apply gram_schmidt_rank_deficient. Qed.

(** C6 (amended): on a complex matrix, a column is replaced by a fresh
    random column exactly when every one of its elements has modulus at
    most [1e-8], the default absolute tolerance of [np.allclose], and a
    residual is given up as linearly dependent exactly when its norm is
    below [1e-12]. *)
Theorem gram_schmidt_tolerances
        (sample : nat -> R) (r c j : nat) (basis : list (list C))
        (column : colref) (st : gs_state) :
  (replace_if_zero sample complex128 r c j st
   = Ok (Own complex128 (fresh_column sample r (rng st)),
         mk_gs_state (arr st) (rng st + r + r))
   <-> Forall (fun z => Cmod z <= 1e-8) (get_col c r (arr st) j))
  /\ (replace_if_zero sample complex128 r c j st = Ok (View j, st)
      <-> ~ Forall (fun z => Cmod z <= 1e-8) (get_col c r (arr st) j))
  /\ (retry_if_dependent sample complex128 r c basis column st = Raise UFuncTypeError
      <-> norm (read_column r c column st) < 1e-12)
  /\ (retry_if_dependent sample complex128 r c basis column st = Ok (column, st)
      <-> 1e-12 <= norm (read_column r c column st)).
Proof.
  rewrite replace_if_zero_complex, retry_if_dependent_complex.
  pose proof (allclose_zero_iff (get_col c r (arr st) j)) as Hz.
  destruct (allclose_zero (get_col c r (arr st) j)).
  - assert (Hall : Forall (fun z => Cmod z <= 1e-8) (get_col c r (arr st) j))
      by (apply Hz; reflexivity).
    destruct (Rltb_spec (norm (read_column r c column st)) 1e-12);
      repeat split; intros; try discriminate; try lra; tauto.
  - assert (Hall : ~ Forall (fun z => Cmod z <= 1e-8) (get_col c r (arr st) j))
      by (intros Hc; apply Hz in Hc; discriminate).
    destruct (Rltb_spec (norm (read_column r c column st)) 1e-12);
      repeat split; intros; try discriminate; try lra; tauto.
Qed.

Lemma gram_schmidt_tiny1 :
  gram_schmidt pythagorean_sample tiny1 0 =
  Ok (mk_ndarray complex128 [1%nat; 1%nat] [(3 / 5, 4 / 5)],
      mk_gs_state (data tiny1) 2).
Proof.
  unfold tiny1. gs_start.
  gs_fresh [(3 / 5, 4 / 5)] 1 [(3 / 5, 4 / 5)] [(3 / 5, 4 / 5)].
  reflexivity.
Qed.

(** C6 (counterexample): the one-by-one matrix [[1e-10]] is not zero within
    [1e-12], and still its column is replaced: the result is the normalised
    random draw [0.6 + 0.8j], with two variates consumed. *)
Lemma tiny_column_is_replaced :
  gram_schmidt pythagorean_sample tiny1 0 =
  Ok (mk_ndarray complex128 [1%nat; 1%nat] [(3 / 5, 4 / 5)],
      mk_gs_state (data tiny1) 2)
  /\ replace_if_zero pythagorean_sample complex128 1 1 0 (mk_gs_state (data tiny1) 0)
     = Ok (Own complex128 (fresh_column pythagorean_sample 1 0),
           mk_gs_state (data tiny1) 2)
  /\ ~ Forall (fun z => Cmod z <= 1e-12) (get_col 1 1 (data tiny1) 0).
Proof.
  split; [exact gram_schmidt_tiny1|]. split.
  - rewrite replace_if_zero_complex. cbn [arr rng].
    rewrite allclose_zero_true_at by (unfold tiny1; all_entries_small).
    reflexivity.
  - intros H. apply Forall_inv in H. apply Cmod_le_iff in H; [|lra].
    revert H. unfold tiny1. eval_lists. lra.
Qed.

(** C9 (counterexample): on the identity no column is replaced by the
    fallback, and after the call the caller's array holds exactly what it
    held before. *)
Lemma gram_schmidt_leaves_identity_unchanged :
  gram_schmidt half_sample identity2 0 =
  Ok (identity2, mk_gs_state (data identity2) 0)
  /\ allclose_zero (get_col 2 2 (data identity2) 0) = false
  /\ allclose_zero (get_col 2 2 (data identity2) 1) = false.
Proof.
  split; [apply gram_schmidt_identity2|].
  split; apply allclose_zero_false_at; unfold identity2; some_entry_large.
Qed.

Lemma gram_schmidt_writes_residuals_witness :
  length (arr (mk_gs_state (data identity2) 0)) = (2 * 2)%nat
  /\ (forall j, (j < 2)%nat ->
        get_col 2 2 (arr (mk_gs_state (data identity2) 0)) j =
        residual_of 2 2 (data identity2) (data triangular2) j)
  /\ ((0 < 2)%nat ->
      get_col 2 2 (arr (mk_gs_state (data identity2) 0)) 0 =
      get_col 2 2 (data triangular2) 0).
Proof.
  apply (@gram_schmidt_writes_residuals half_sample triangular2 identity2 0 2 2
           (mk_gs_state (data identity2) 0));
    [reflexivity | reflexivity | reflexivity | apply gram_schmidt_triangular2].
Defined.

Lemma gram_schmidt_changes_triangular :
  gram_schmidt half_sample triangular2 0 =
  Ok (identity2, mk_gs_state (data identity2) 0)
  /\ data identity2 <> data triangular2.
Proof.
  split; [apply gram_schmidt_triangular2|].
  unfold identity2, triangular2. cbn [data]. intros H.
  apply (f_equal (fun l => Re (nth 1 l Czero))) in H.
  cbv [nth Re fst Czero Cone] in H. lra.
Qed.

(** ** The overlap with the all-zero state *)

Lemma inner_cons a v b w :
  inner (a :: v) (b :: w) = Cadd (Cmul (Cconj a) b) (inner v w).
Proof. reflexivity. Qed.

Lemma inner_zeros v m : inner v (repeat Czero m) = Czero.
Proof.
  revert m. induction v as [|z v IH]; intros [|m]; try reflexivity.
  cbn [repeat]. rewrite inner_cons, IH. destruct z as [x y].
  unfold Cadd, Cmul, Cconj, Czero, Re, Im; cbn [fst snd]. f_equal; lra.
Qed.

Lemma zero_state_cons n : zero_state n = Cone :: repeat Czero (2 ^ n - 1).
Proof.
  unfold zero_state.
  assert (H : (2 ^ n <> 0)%nat) by (apply Nat.pow_nonzero; lia).
  destruct (2 ^ n)%nat as [|m]; [congruence|].
  cbn [repeat]. rewrite Nat.sub_succ, Nat.sub_0_r. reflexivity.
Qed.

(** [np.vdot(dense, zero_state)] is the conjugate of the first amplitude. *)
Lemma inner_zero_state dense n :
  length dense = (2 ^ n)%nat ->
  inner dense (zero_state n) = Cconj (hd Czero dense).
Proof.
  intros Hlen. rewrite zero_state_cons.
  destruct dense as [|z rest].
  - cbn in Hlen. assert ((2 ^ n <> 0)%nat) by (apply Nat.pow_nonzero; lia). lia.
  - rewrite inner_cons, inner_zeros. cbn [hd].
    destruct z as [x y].
    unfold Cadd, Cmul, Cconj, Cone, Czero, Re, Im; cbn [fst snd]. f_equal; lra.
Qed.

Lemma length_zero_state n : length (zero_state n) = (2 ^ n)%nat.
Proof.
  rewrite zero_state_cons. cbn [length]. rewrite repeat_length.
  assert ((2 ^ n <> 0)%nat) by (apply Nat.pow_nonzero; lia). lia.
Qed.

Lemma vdot_zero_state dense n f :
  vdot dense (zero_state n) = Ok f ->
  length dense = (2 ^ n)%nat /\ f = Cconj (hd Czero dense).
Proof.
  unfold vdot. rewrite length_zero_state.
  destruct (Nat.eqb_spec (length dense) (2 ^ n)) as [Hlen|]; [|discriminate].
  intros H. injection H as <-. split; [exact Hlen|].
  apply inner_zero_state. exact Hlen.
Qed.

(** The lexicographic test, read on the real numbers. *)
Lemma complex_ge_iff z t :
  complex_ge z t = true <-> t < Re z \/ (Re z = t /\ 0 <= Im z).
Proof.
  unfold complex_ge.
  destruct (Rltb_spec t (Re z)), (Reqb_spec (Re z) t), (Rleb_spec 0 (Im z));
    cbn; split; intros; try discriminate; try reflexivity; try tauto; try lra.
Qed.

Lemma Re_le_Cmod z : Re z <= Cmod z.
Proof.
  unfold Cmod.
  destruct (Rle_dec 0 (Re z)) as [Hpos|Hneg].
  - rewrite <- (sqrt_square (Re z)) at 1 by exact Hpos.
    apply sqrt_le_1; nra.
  - pose proof (sqrt_pos (Re z * Re z + Im z * Im z)). lra.
Qed.

Lemma Cmod_Cconj z : Cmod (Cconj z) = Cmod z.
Proof.
  unfold Cmod, Cconj, Re, Im; cbn [fst snd]. f_equal. lra.
Qed.

Section LoopFacts.

Variable sample : nat -> R.
Variable Q : quimb.
Variable target_fidelity : R.
Variable chi_max : Z.
Variable num_sites : nat.

(** What a turn of the loop that returns has stored. *)
Lemma iteration_fidelity idx s s' :
  iteration sample Q chi_max num_sites idx s = Ok s' ->
  exists dense layer,
    to_dense Q (disentangled_mps s') = Some dense
    /\ length dense = (2 ^ num_sites)%nat
    /\ fidelity s' = Some (Cconj (hd Czero dense))
    /\ unitary_layers s' = unitary_layers s ++ [layer]
    /\ layer_index s' = Some idx.
Proof.
  unfold iteration. intros H.
  destruct (lib (normalize Q (disentangled_mps s))) as [m1|e]; [|discriminate].
  cbn [bind_result] in H.
  destruct (lib (compress_left Q m1 2)) as [m2|e]; [|discriminate].
  cbn [bind_result] in H.
  destruct (generate_layer sample m2 (generator s)) as [[layer g']|e]; [|discriminate].
  cbn [bind_result] in H.
  destruct (apply_inverses Q layer _ _) as [d1|e]; [|discriminate].
  cbn [bind_result] in H.
  destruct (lib (tensor_network_1d_compress Q d1 chi_max)) as [d2|e]; [|discriminate].
  cbn [bind_result] in H.
  destruct (to_dense Q d2) as [dense|] eqn:Hd; [|discriminate].
  cbn [lib bind_result] in H.
  destruct (vdot dense (zero_state num_sites)) as [f|e] eqn:Hv; [|discriminate].
  cbn [bind_result] in H. injection H as <-.
  apply vdot_zero_state in Hv. destruct Hv as [Hlen ->].
  exists dense, layer. cbn [disentangled_mps fidelity unitary_layers layer_index].
  auto.
Qed.

(** X25: in every turn of the loop the value stored in [fidelity] is the
    inner product [np.vdot(dense, zero_state)] as it comes, that is the
    complex conjugate of the first amplitude of the dense vector: no
    magnitude is taken.  The test [fidelity >= target_fidelity] orders
    it lexicographically against the real threshold: it holds exactly
    when the real part of the amplitude exceeds the threshold, or equals
    it with a non-positive imaginary part.  When the test holds the
    magnitude of the overlap reaches the threshold too. *)
Theorem fidelity_is_the_raw_overlap idx s s' :
  iteration sample Q chi_max num_sites idx s = Ok s' ->
  exists dense,
    to_dense Q (disentangled_mps s') = Some dense
    /\ length dense = (2 ^ num_sites)%nat
    /\ fidelity s' = Some (Cconj (hd Czero dense))
    /\ (reached target_fidelity s' = true
        <-> target_fidelity < Re (hd Czero dense)
            \/ (Re (hd Czero dense) = target_fidelity /\ Im (hd Czero dense) <= 0))
    /\ (reached target_fidelity s' = true -> target_fidelity <= Cmod (hd Czero dense)).
Proof.
  intros H. destruct (@iteration_fidelity idx s s' H) as (dense & layer & Hd & Hlen & Hf & _).
  exists dense. split; [exact Hd|]. split; [exact Hlen|]. split; [exact Hf|].
  unfold reached. rewrite Hf, complex_ge_iff.
  unfold Cconj, Re, Im; cbn [fst snd].
  split.
  - split; intros [Hlt | [Heq Him]]; [left; exact Hlt | right; split; lra
                                      | left; exact Hlt | right; split; lra].
  - pose proof (Re_le_Cmod (hd Czero dense)) as Hle. unfold Re in Hle.
    intros [Hlt | [Heq Him]]; lra.
Qed.

Lemma iterate_app idxs1 idxs2 s :
  iterate sample Q chi_max num_sites (idxs1 ++ idxs2) s =
  (s' <- iterate sample Q chi_max num_sites idxs1 s ;;
   iterate sample Q chi_max num_sites idxs2 s')%py.
Proof.
  revert s. induction idxs1 as [|i idxs1 IH]; intros s; [reflexivity|].
  cbn [app iterate].
  destruct (iteration sample Q chi_max num_sites i s) as [s1|e]; [|reflexivity].
  cbn [bind_result]. apply IH.
Qed.






End LoopFacts.

(** ** Termination of the disentanglement loop *)




Lemma prepare_state Q statevector chi_max g s0 :
  prepare Q statevector chi_max g = Ok s0 ->
  unitary_layers s0 = [] /\ generator s0 = g /\ layer_index s0 = None.
Proof.
  unfold prepare. intros H.
  repeat match type of H with
         | bind_result (lib ?o) _ = _ =>
             destruct o; cbn [lib bind_result] in H; [|discriminate]
         end.
  injection H as <-. repeat split; reflexivity.
Qed.

(** X6: with [max_num_layers <= 0] the loop body never runs, and line 262
    reads a loop variable that was never bound: once the state is
    prepared, [mps_to_circuit_approx] raises [UnboundLocalError] instead of
    returning a circuit without gates. *)
Theorem mps_to_circuit_approx_without_layers
      (sample : nat -> R) (Q : quimb) (target_fidelity : R)
      (statevector : list C) (max_num_layers chi_max : Z) (g : nat)
      (s0 : loop_state) :
  (max_num_layers <= 0)%Z ->
  prepare Q statevector chi_max g = Ok s0 ->
  mps_to_circuit_approx sample Q target_fidelity statevector
                        max_num_layers chi_max g
  = Raise UnboundLocalError.
Proof.
  intros Hmax Hprep. unfold mps_to_circuit_approx. rewrite Hprep.
  cbn [bind_result].
  replace (Z.to_nat max_num_layers) with 0%nat by lia.
  cbn [seq layer_loop bind_result].
  destruct (@prepare_state _ _ _ _ _ Hprep) as (_ & _ & ->). reflexivity.
Qed.


(** ** The recorded run *)

Lemma lookup_here (A K : Type) (eq_dec : forall a b : K, {a = b} + {a <> b})
      (k : K) (v : A) rest :
  lookup eq_dec ((k, v) :: rest) k = Some v.
Proof. cbn [lookup]. destruct (eq_dec k k); [reflexivity | congruence]. Qed.

Lemma lookup_next (A K : Type) (eq_dec : forall a b : K, {a = b} + {a <> b})
      (k k' : K) (v : A) rest :
  k <> k' -> lookup eq_dec ((k', v) :: rest) k = lookup eq_dec rest k.
Proof. intros H. cbn [lookup]. destruct (eq_dec k k'); [congruence | reflexivity]. Qed.

Lemma lookup_in (A K : Type) (eq_dec : forall a b : K, {a = b} + {a <> b})
      (table : list (K * A)) (k : K) (v : A) :
  lookup eq_dec table k = Some v -> In (k, v) table.
Proof.
  induction table as [|[k' v'] rest IH]; cbn [lookup]; [discriminate|].
  destruct (eq_dec k k') as [->|_].
  - intros H. injection H as ->. left. reflexivity.
  - intros H. right. apply IH. exact H.
Qed.

Ltac mps_differ :=
  let H := fresh in
  intros H; apply (f_equal mark) in H;
  cbv [mark pair_mps unnormalized_mps zero_mps scaled_zero_mps
       nth data hd Re fst Cone] in H; lra.

Ltac recorded_lookup :=
  unfold recorded_quimb, unchanged;
  cbn [from_dense tensor_network_1d_compress permute_arrays compress_left
       left_canonicalize normalize gate_split_ gate_ to_dense];
  repeat first [ apply lookup_here | rewrite lookup_next by mps_differ ].

Lemma recorded_from_dense_pair b :
  from_dense (recorded_quimb b) pair_state = Some pair_mps.
Proof. recorded_lookup. Qed.

Lemma recorded_from_dense_unnormalized b :
  from_dense (recorded_quimb b) unnormalized_pair = Some unnormalized_mps.
Proof.
  unfold recorded_quimb. cbn [from_dense]. rewrite lookup_next; [apply lookup_here|].
  intros H. apply (f_equal (fun v => Re (hd Czero v))) in H.
  cbv [unnormalized_pair pair_state hd Re fst] in H. lra.
Qed.

Lemma recorded_compress b m chi :
  (2 <= chi)%Z -> In (m, m) unchanged ->
  tensor_network_1d_compress (recorded_quimb b) m chi = Some m
  /\ permute_arrays (recorded_quimb b) m = Some m
  /\ compress_left (recorded_quimb b) m chi = Some m.
Proof.
  intros Hchi Hm. unfold recorded_quimb.
  cbn [tensor_network_1d_compress permute_arrays compress_left].
  destruct (Z.leb_spec 2 chi); [|lia].
  assert (Hl : lookup mps_eq_dec unchanged m = Some m).
  { unfold unchanged in *. cbn [In] in Hm.
    destruct Hm as [E|[E|[E|[E|[]]]]]; injection E as <-;
      repeat first [ apply lookup_here | rewrite lookup_next by mps_differ ]. }
  rewrite Hl. auto.
Qed.

Lemma recorded_left_canonicalize_pair b :
  left_canonicalize (recorded_quimb b) pair_mps = Some pair_mps.
Proof. recorded_lookup. Qed.

Lemma recorded_left_canonicalize_unnormalized b :
  left_canonicalize (recorded_quimb b) unnormalized_mps
  = Some (if b then pair_mps else unnormalized_mps).
Proof. recorded_lookup. Qed.

Lemma recorded_normalize_pair b :
  normalize (recorded_quimb b) pair_mps = Some pair_mps.
Proof. recorded_lookup. Qed.

Lemma recorded_normalize_unnormalized b :
  normalize (recorded_quimb b) unnormalized_mps = Some pair_mps.
Proof. recorded_lookup. Qed.

Lemma recorded_gate_identity b m site :
  (0 <= site < 2)%Z -> In (m, m) unchanged ->
  gate_ (recorded_quimb b) m (dagger identity2) site = Some m.
Proof.
  intros Hs Hm. unfold recorded_quimb. cbn [gate_].
  destruct (ndarray_eq_dec _ _); [|congruence].
  destruct (Z.leb_spec 0 site); [|lia]. destruct (Z.ltb_spec site 2); [|lia].
  cbn [andb]. unfold unchanged in *. cbn [In] in Hm.
  destruct Hm as [E|[E|[E|[E|[]]]]]; injection E as <-;
    repeat first [ apply lookup_here | rewrite lookup_next by mps_differ ].
Qed.

Lemma recorded_gate_split_pair b :
  gate_split_ (recorded_quimb b) pair_mps (dagger pair_unitary) (0, 1)%Z
  = Some zero_mps.
Proof.
  unfold recorded_quimb. cbn [gate_split_].
  destruct (ndarray_eq_dec _ _); [|congruence].
  cbn [fst snd Z.eqb andb]. apply lookup_here.
Qed.

Lemma recorded_gate_split_unnormalized b :
  gate_split_ (recorded_quimb b) unnormalized_mps (dagger pair_unitary) (0, 1)%Z
  = Some scaled_zero_mps.
Proof.
  unfold recorded_quimb. cbn [gate_split_].
  destruct (ndarray_eq_dec _ _); [|congruence].
  cbn [fst snd Z.eqb andb]. rewrite lookup_next by mps_differ. apply lookup_here.
Qed.

Lemma recorded_to_dense_zero b :
  to_dense (recorded_quimb b) zero_mps = Some zero_dense.
Proof. recorded_lookup. Qed.

Lemma recorded_to_dense_scaled_zero b :
  to_dense (recorded_quimb b) scaled_zero_mps = Some scaled_zero_dense.
Proof. recorded_lookup. Qed.

Lemma unchanged_pair : In (pair_mps, pair_mps) unchanged.
Proof. left. reflexivity. Qed.

Lemma unchanged_unnormalized : In (unnormalized_mps, unnormalized_mps) unchanged.
Proof. right. left. reflexivity. Qed.

Lemma unchanged_zero : In (zero_mps, zero_mps) unchanged.
Proof. right. right. left. reflexivity. Qed.

Lemma unchanged_scaled_zero : In (scaled_zero_mps, scaled_zero_mps) unchanged.
Proof. right. right. right. left. reflexivity. Qed.

(** Undoing [pair_layer]: the identity at site 0, then the gate of site 1
    on the sites [(0, 1)]. *)
Lemma apply_inverses_step_identity Q d rest :
  apply_inverses Q pair_layer (0%nat :: rest) d =
  (d' <- lib (gate_ Q d (dagger identity2) 0%Z) ;;
   apply_inverses Q pair_layer rest d')%py.
Proof. reflexivity. Qed.

Lemma apply_inverses_step_pair Q d rest :
  apply_inverses Q pair_layer (1%nat :: rest) d =
  (d' <- lib (gate_split_ Q d (dagger pair_unitary) (0, 1)%Z) ;;
   apply_inverses Q pair_layer rest d')%py.
Proof. reflexivity. Qed.

Lemma apply_inverses_pair b :
  apply_inverses (recorded_quimb b) pair_layer (seq 0 (length pair_layer)) pair_mps
  = Ok zero_mps.
Proof.
  change (seq 0 (length pair_layer)) with [0%nat; 1%nat].
  rewrite apply_inverses_step_identity.
  rewrite recorded_gate_identity by (try lia; apply unchanged_pair).
  cbn [lib bind_result]. rewrite apply_inverses_step_pair.
  rewrite recorded_gate_split_pair. reflexivity.
Qed.

Lemma apply_inverses_unnormalized b :
  apply_inverses (recorded_quimb b) pair_layer (seq 0 (length pair_layer))
                 unnormalized_mps
  = Ok scaled_zero_mps.
Proof.
  change (seq 0 (length pair_layer)) with [0%nat; 1%nat].
  rewrite apply_inverses_step_identity.
  rewrite recorded_gate_identity by (try lia; apply unchanged_unnormalized).
  cbn [lib bind_result]. rewrite apply_inverses_step_pair.
  rewrite recorded_gate_split_unnormalized. reflexivity.
Qed.

Lemma vdot_zero_state_ok dense n :
  length dense = (2 ^ n)%nat ->
  vdot dense (zero_state n) = Ok (Cconj (hd Czero dense)).
Proof.
  intros Hlen. unfold vdot. rewrite length_zero_state, Hlen, Nat.eqb_refl.
  rewrite inner_zero_state by exact Hlen. reflexivity.
Qed.

(** The first turn of the loop on the run from [pair_state]. *)
Lemma iteration_recorded b idx g :
  g = 0%nat \/ g = 24%nat ->
  iteration staircase_sample (recorded_quimb b) 2 2 idx (pair_start g) =
  Ok (mk_loop_state zero_mps [pair_layer] (Some idx) (Some (Cconj Cone)) (g + 24)).
Proof.
  intros Hg. unfold iteration, pair_start.
  cbn [disentangled_mps generator unitary_layers].
  rewrite recorded_normalize_pair. cbn [lib bind_result].
  destruct (@recorded_compress b pair_mps 2 ltac:(lia) unchanged_pair) as (_ & _ & ->).
  cbn [lib bind_result].
  rewrite generate_layer_pair by exact Hg. cbn [bind_result].
  rewrite apply_inverses_pair. cbn [bind_result].
  destruct (@recorded_compress b zero_mps 2 ltac:(lia) unchanged_zero) as (-> & _ & _).
  cbn [lib bind_result].
  rewrite recorded_to_dense_zero. cbn [lib bind_result].
  rewrite (@vdot_zero_state_ok zero_dense 2) by reflexivity. reflexivity.
Qed.

(** The first turn on the run from [unnormalized_pair], when line 194 has
    left the state as it was. *)
Lemma iteration_unnormalized idx g :
  g = 0%nat \/ g = 24%nat ->
  iteration staircase_sample (recorded_quimb false) 2 2 idx
            (mk_loop_state unnormalized_mps [] None None g) =
  Ok (mk_loop_state scaled_zero_mps [pair_layer] (Some idx)
                    (Some (Cconj (5, 0))) (g + 24)).
Proof.
  intros Hg. unfold iteration.
  cbn [disentangled_mps generator unitary_layers].
  rewrite recorded_normalize_unnormalized. cbn [lib bind_result].
  destruct (@recorded_compress false pair_mps 2 ltac:(lia) unchanged_pair) as (_ & _ & ->).
  cbn [lib bind_result].
  rewrite generate_layer_pair by exact Hg. cbn [bind_result].
  rewrite apply_inverses_unnormalized. cbn [bind_result].
  destruct (@recorded_compress false scaled_zero_mps 2 ltac:(lia) unchanged_scaled_zero)
    as (-> & _ & _).
  cbn [lib bind_result].
  rewrite recorded_to_dense_scaled_zero. cbn [lib bind_result].
  rewrite (@vdot_zero_state_ok scaled_zero_dense 2) by reflexivity. reflexivity.
Qed.

Lemma prepare_recorded b g :
  prepare (recorded_quimb b) pair_state 2 g = Ok (pair_start g).
Proof.
  destruct (@recorded_compress b pair_mps 2 ltac:(lia) unchanged_pair)
    as (H1 & H2 & H3).
  unfold prepare. rewrite recorded_from_dense_pair. cbn [lib bind_result].
  rewrite H1. cbn [lib bind_result]. rewrite H2. cbn [lib bind_result].
  rewrite H3. cbn [lib bind_result].
  rewrite recorded_left_canonicalize_pair. reflexivity.
Qed.

Lemma prepare_unnormalized b g :
  prepare (recorded_quimb b) unnormalized_pair 2 g
  = Ok (mk_loop_state (if b then pair_mps else unnormalized_mps) [] None None g).
Proof.
  destruct (@recorded_compress b unnormalized_mps 2 ltac:(lia) unchanged_unnormalized)
    as (H1 & H2 & H3).
  unfold prepare. rewrite recorded_from_dense_unnormalized. cbn [lib bind_result].
  rewrite H1. cbn [lib bind_result]. rewrite H2. cbn [lib bind_result].
  rewrite H3. cbn [lib bind_result].
  rewrite recorded_left_canonicalize_unnormalized. reflexivity.
Qed.

Lemma complex_ge_true z t : t < Re z -> complex_ge z t = true.
Proof. intros H. apply complex_ge_iff. left. exact H. Qed.

(** The run from [pair_state] stops after the first layer: the overlap
    is 1. *)
Lemma layer_loop_recorded b :
  layer_loop staircase_sample (recorded_quimb b) (9 / 10) 2 2
             (seq 0 3) (pair_start 0) =
  Ok pair_stopped.
Proof.
  cbn [seq layer_loop].
  rewrite iteration_recorded by (left; reflexivity). cbn [bind_result Nat.add].
  unfold reached. cbn [fidelity].
  rewrite complex_ge_true by (cbv [Cconj Cone Re Im fst snd]; lra).
  reflexivity.
Qed.

(** So does the run from [unnormalized_pair] when the state has not been
    normalised: the overlap is 5. *)
Lemma layer_loop_unnormalized :
  layer_loop staircase_sample (recorded_quimb false) (9 / 10) 2 2
             (seq 0 3) (mk_loop_state unnormalized_mps [] None None 0) =
  Ok (mk_loop_state scaled_zero_mps [pair_layer] (Some 0%nat)
                    (Some (Cconj (5, 0))) 24).
Proof.
  cbn [seq layer_loop].
  rewrite iteration_unnormalized by (left; reflexivity). cbn [bind_result Nat.add].
  unfold reached. cbn [fidelity].
  rewrite complex_ge_true by (cbv [Cconj Re Im fst snd]; lra).
  reflexivity.
Qed.

(** ** No path raises [InvalidInputError] *)

(** The exceptions of the source are [ValueError], [OverflowError],
    [UFuncTypeError] and [UnboundLocalError]; the libraries add their own.
    The proofs follow the call graph, from [gram_schmidt] up. *)
Lemma benign_ok (A : Type) (a : A) : benign (Ok a).
Proof. unfold benign. discriminate. Qed.

Lemma benign_bind (A B : Type) (r : result A) (k : A -> result B) :
  benign r -> (forall a, benign (k a)) -> benign (bind_result r k).
Proof.
  unfold benign. intros Hr Hk. destruct r as [a|e]; cbn [bind_result].
  - apply Hk.
  - intros H. apply Hr. injection H as ->. reflexivity.
Qed.

Lemma benign_lib (A : Type) (o : option A) : benign (lib o).
Proof. destruct o; unfold benign; cbn; discriminate. Qed.

Lemma never_invalid_ret (A : Type) (a : A) : never_invalid (ret a).
Proof. intros st. unfold ret. discriminate. Qed.

Lemma never_invalid_bind (A B : Type) (c : M A) (k : A -> M B) :
  never_invalid c -> (forall a, never_invalid (k a)) -> never_invalid (bind c k).
Proof.
  intros Hc Hk st. unfold bind. specialize (Hc st).
  destruct (c st) as [[a st']|e]; [apply Hk|].
  intros H. apply Hc. injection H as ->. reflexivity.
Qed.

Ltac never_invalid_step :=
  first [ apply never_invalid_ret
        | apply never_invalid_bind; [|intros ?]
        | (intros ?; unfold raise, uniform, col_values; discriminate) ].

Lemma never_invalid_isub mdtype r c column rhs :
  never_invalid (isub mdtype r c column rhs).
Proof.
  unfold isub. destruct (col_dtype mdtype column); [never_invalid_step|].
  destruct column; [intros st; discriminate | never_invalid_step].
Qed.

Lemma never_invalid_iadd mdtype r c column rhs :
  never_invalid (iadd mdtype r c column rhs).
Proof.
  unfold iadd. destruct (col_dtype mdtype column); [never_invalid_step|].
  destruct column; [intros st; discriminate | never_invalid_step].
Qed.

Section NeverInvalid.

Variable sample : nat -> R.
Variable mdtype : dtype.
Variables r c : nat.

Lemma never_invalid_project_out basis column :
  never_invalid (project_out mdtype r c basis column).
Proof.
  revert column. induction basis as [|b basis IH]; intros column; cbn [project_out].
  - never_invalid_step.
  - never_invalid_step; [never_invalid_step|].
    never_invalid_step; [apply never_invalid_isub | apply IH].
Qed.

Lemma never_invalid_column_step acc j :
  never_invalid (column_step sample mdtype r c acc j).
Proof.
  destruct acc as [unitary basis]. unfold column_step.
  never_invalid_step.
  { unfold replace_if_zero. never_invalid_step; [never_invalid_step|].
    destruct (allclose_zero _); [|never_invalid_step].
    never_invalid_step; [never_invalid_step|].
    destruct mdtype; repeat never_invalid_step. }
  never_invalid_step; [apply never_invalid_project_out|].
  never_invalid_step.
  { unfold retry_if_dependent. never_invalid_step; [never_invalid_step|].
    destruct (Rltb _ _); [|never_invalid_step].
    never_invalid_step; [never_invalid_step|].
    never_invalid_step; [|apply never_invalid_project_out].
    destruct mdtype; [never_invalid_step|].
    never_invalid_step; [never_invalid_step | apply never_invalid_iadd]. }
  apply never_invalid_bind; [|intros [u b]; apply never_invalid_ret].
  unfold normalize_into. never_invalid_step; [never_invalid_step|].
  destruct (Reqb _ _); never_invalid_step.
Qed.

Lemma never_invalid_column_loop js acc :
  never_invalid (column_loop sample mdtype r c js acc).
Proof.
  revert acc. induction js as [|j js IH]; intros acc; cbn [column_loop].
  - never_invalid_step.
  - never_invalid_step; [apply never_invalid_column_step | apply IH].
Qed.

End NeverInvalid.

Section Benign.

Variable sample : nat -> R.

Lemma benign_gram_schmidt matrix g : benign (gram_schmidt sample matrix g).
Proof.
  unfold gram_schmidt, benign.
  destruct (shape matrix) as [|nr [|nc [|? ?]]]; try discriminate.
  pose proof (@never_invalid_column_loop sample (dtype_of matrix) nr nc (seq 0 nc)
                (data (zeros complex128 [nr; nc]), [])
                (mk_gs_state (data matrix) g)) as H.
  destruct (column_loop _ _ _ _ _ _ _) as [[[u b] st]|e]; [discriminate|].
  intros He. apply H. injection He as ->. reflexivity.
Qed.

Lemma benign_site_gate num_sites i tensor g :
  benign (site_gate sample num_sites i tensor g).
Proof.
  unfold site_gate. apply benign_bind.
  { unfold boundary_reshape. apply benign_bind.
    - destruct (_ =? _)%nat; [|apply benign_ok].
      destruct (shape tensor) as [|? [|? [|? ?]]]; unfold benign; discriminate.
    - intros t. destruct (_ =? _)%Z; [|apply benign_ok].
      destruct (shape t) as [|? [|? [|? ?]]]; unfold benign; discriminate. }
  intros t1. apply benign_bind.
  { unfold swapaxes12.
    destruct (shape t1) as [|? [|? [|? [|? ?]]]]; unfold benign; discriminate. }
  intros t2. destruct (shape t2) as [|? [|? [|? [|? ?]]]]; try (unfold benign; discriminate).
  apply benign_bind.
  { unfold site_qubits, ceil_log2. apply benign_bind.
    - destruct (_ =? _)%nat; unfold benign; discriminate.
    - intros z. apply benign_ok. }
  intros qs. destruct (_ <? _)%nat; [unfold benign; discriminate|].
  apply benign_bind; [apply benign_gram_schmidt|].
  intros [u st]. apply benign_ok.
Qed.

Lemma benign_site_loop num_sites sites acc g :
  benign (site_loop sample num_sites sites acc g).
Proof.
  revert acc g. induction sites as [|[k t] sites IH]; intros acc g; cbn [site_loop].
  - apply benign_ok.
  - apply benign_bind; [apply benign_site_gate|]. intros [gt g']. apply IH.
Qed.

Lemma benign_generate_layer mps g : benign (generate_layer sample mps g).
Proof. unfold generate_layer. apply benign_site_loop. Qed.

Variable Q : quimb.
Variable target_fidelity : R.

Lemma benign_apply_inverses layer idxs d : benign (apply_inverses Q layer idxs d).
Proof.
  revert d. induction idxs as [|i idxs IH]; intros d; cbn [apply_inverses].
  - apply benign_ok.
  - apply benign_bind; [|intros d'; apply IH].
    destruct (_ =? _)%nat; apply benign_lib.
Qed.

Lemma benign_iteration chi_max num_sites idx s :
  benign (iteration sample Q chi_max num_sites idx s).
Proof.
  unfold iteration.
  apply benign_bind; [apply benign_lib|]. intros m1.
  apply benign_bind; [apply benign_lib|]. intros m2.
  apply benign_bind; [apply benign_generate_layer|]. intros [layer g'].
  apply benign_bind; [apply benign_apply_inverses|]. intros d1.
  apply benign_bind; [apply benign_lib|]. intros d2.
  apply benign_bind; [apply benign_lib|]. intros dense.
  apply benign_bind; [|intros f; apply benign_ok].
  unfold vdot. destruct (_ =? _)%nat; unfold benign; discriminate.
Qed.

Lemma benign_layer_loop chi_max num_sites idxs s :
  benign (layer_loop sample Q target_fidelity chi_max num_sites idxs s).
Proof.
  revert s. induction idxs as [|i idxs IH]; intros s; cbn [layer_loop].
  - apply benign_ok.
  - apply benign_bind; [apply benign_iteration|]. intros s'.
    destruct (reached _ _); [apply benign_ok | apply IH].
Qed.

Lemma benign_prepare statevector chi_max g :
  benign (prepare Q statevector chi_max g).
Proof.
  unfold prepare.
  repeat (apply benign_bind; [apply benign_lib | intros ?]).
  apply benign_ok.
Qed.

(** C5 (amended): [mps_to_circuit_approx] validates nothing and never
    raises [InvalidInputError].  The statevector goes unchecked to
    [MatrixProductState.from_dense]: if that call fails the failure is the
    library's own exception, and two statevectors on which it agrees are
    compiled alike, whatever their length or norm. *)
Theorem mps_to_circuit_approx_never_validates
        (statevector : list C) (max_num_layers chi_max : Z) (g : nat) :
  mps_to_circuit_approx sample Q target_fidelity statevector
                        max_num_layers chi_max g
  <> Raise InvalidInputError
  /\ (from_dense Q statevector = None ->
      mps_to_circuit_approx sample Q target_fidelity statevector
                            max_num_layers chi_max g
      = Raise LibraryError)
  /\ (forall statevector',
        from_dense Q statevector' = from_dense Q statevector ->
        mps_to_circuit_approx sample Q target_fidelity statevector'
                              max_num_layers chi_max g
        = mps_to_circuit_approx sample Q target_fidelity statevector
                                max_num_layers chi_max g).
Proof.
  split; [|split].
  - unfold mps_to_circuit_approx. apply benign_bind; [apply benign_prepare|].
    intros s0. apply benign_bind; [apply benign_layer_loop|].
    intros s. destruct (layer_index s); unfold benign; discriminate.
  - intros Hnone. unfold mps_to_circuit_approx, prepare. rewrite Hnone. reflexivity.
  - intros sv' Heq. unfold mps_to_circuit_approx, prepare. rewrite Heq. reflexivity.
Qed.

End Benign.

Lemma norm_unnormalized_pair : norm unnormalized_pair = 5.
Proof.
  apply norm_eq; [lra|]. unfold unnormalized_pair, Rsum. eval_lists. lra.
Qed.

(** C5 (counterexample): the statevector [[3, 0, 0, 4]], of norm 5, is
    compiled to a circuit, whether or not line 194 has normalised the
    state. *)
Lemma unnormalized_input_is_compiled :
  norm unnormalized_pair = 5
  /\ mps_to_circuit_approx staircase_sample (recorded_quimb true) (9 / 10)
                           unnormalized_pair 3 2 0
     = Ok (emit 2 [pair_layer], 24%nat)
  /\ mps_to_circuit_approx staircase_sample (recorded_quimb false) (9 / 10)
                           unnormalized_pair 3 2 0
     = Ok (emit 2 [pair_layer], 24%nat).
Proof.
  split; [exact norm_unnormalized_pair|]. split.
  - unfold mps_to_circuit_approx. rewrite prepare_unnormalized. cbn [bind_result].
    change (L (disentangled_mps (mk_loop_state pair_mps [] None None 0))) with 2%nat.
    change (Z.to_nat 3) with 3%nat.
    change (mk_loop_state pair_mps [] None None 0) with (pair_start 0).
    rewrite layer_loop_recorded. reflexivity.
  - unfold mps_to_circuit_approx. rewrite prepare_unnormalized. cbn [bind_result].
    change (L (disentangled_mps (mk_loop_state unnormalized_mps [] None None 0)))
      with 2%nat.
    change (Z.to_nat 3) with 3%nat.
    rewrite layer_loop_unnormalized. reflexivity.
Qed.


Lemma fidelity_is_the_raw_overlap_witness :
  exists dense,
    to_dense (recorded_quimb true) (disentangled_mps pair_stopped) = Some dense
    /\ length dense = (2 ^ 2)%nat
    /\ fidelity pair_stopped = Some (Cconj (hd Czero dense))
    /\ (reached (9 / 10) pair_stopped = true
        <-> 9 / 10 < Re (hd Czero dense)
            \/ (Re (hd Czero dense) = 9 / 10 /\ Im (hd Czero dense) <= 0))
    /\ (reached (9 / 10) pair_stopped = true -> 9 / 10 <= Cmod (hd Czero dense)).
Proof.
  apply (@fidelity_is_the_raw_overlap staircase_sample (recorded_quimb true)
           (9 / 10) 2 2 0%nat (pair_start 0)).
  apply (@iteration_recorded true 0%nat 0%nat). left; reflexivity.
Defined.

(** ** [gram_schmidt] on a real matrix *)

Section RealMatrices.

Variable sample : nat -> R.
Variables r c : nat.

(** On a [float64] matrix the name [column] always denotes a [float64]
    array: the view, or the array drawn by the fallback. *)
Lemma replace_if_zero_float64 j st :
  exists column st',
    replace_if_zero sample float64 r c j st = Ok (column, st')
    /\ col_dtype float64 column = float64
    /\ (allclose_zero (get_col c r (arr st) j) = false ->
        column = View j /\ st' = st).
Proof.
  unfold replace_if_zero, bind, col_values, read_column.
  destruct (allclose_zero (get_col c r (arr st) j)).
  - eexists _, _. split; [reflexivity|]. split; [reflexivity|]. discriminate.
  - exists (View j), st. repeat split.
Qed.

(** The first subtraction of a projection has a [complex128] right-hand
    side, the basis vector read from [unitary]. *)
Lemma project_out_float64 b basis column st :
  col_dtype float64 column = float64 ->
  project_out float64 r c (b :: basis) column st = Raise UFuncTypeError.
Proof.
  intros Hdt. cbn [project_out]. unfold bind, col_values, isub.
  rewrite Hdt. reflexivity.
Qed.

Lemma column_step_float64_later unitary b basis j st :
  column_step sample float64 r c (unitary, b :: basis) j st = Raise UFuncTypeError.
Proof.
  unfold column_step. unfold bind at 1.
  destruct (replace_if_zero_float64 j st) as (column & st' & -> & Hdt & _).
  unfold bind at 1. rewrite project_out_float64 by exact Hdt. reflexivity.
Qed.

(** With an empty basis the retry draws a real array and keeps it. *)
Lemma retry_if_dependent_float64_first column st :
  retry_if_dependent sample float64 r c [] column st =
  if Rltb (norm (read_column r c column st)) 1e-12
  then Ok (Own float64 (map RtoC (map sample (seq (rng st) r))),
           mk_gs_state (arr st) (rng st + r))
  else Ok (column, st).
Proof.
  unfold retry_if_dependent, bind, col_values, uniform, ret.
  destruct (Rltb _ _); reflexivity.
Qed.

Lemma normalize_into_cases unitary j column st :
  normalize_into r c unitary j column st =
  let v := read_column r c column st in
  if Reqb (norm v) 0 then Raise NonFinite
  else Ok ((set_col c unitary j (vdiv v (norm v)),
            get_col c r (set_col c unitary j (vdiv v (norm v))) j), st).
Proof.
  unfold normalize_into, bind, col_values, raise, ret. cbv zeta.
  destruct (Reqb _ _); reflexivity.
Qed.

Lemma column_step_float64_first unitary j st res :
  column_step sample float64 r c (unitary, []) j st = res ->
  res = Raise NonFinite
  \/ exists unitary' b st', res = Ok ((unitary', [b]), st').
Proof.
  unfold column_step. unfold bind at 1.
  destruct (replace_if_zero_float64 j st) as (column & st' & -> & _ & _).
  unfold bind at 1. cbn [project_out]. unfold ret at 1.
  unfold bind at 1. rewrite retry_if_dependent_float64_first.
  destruct (Rltb _ _);
    unfold bind at 1; rewrite normalize_into_cases; cbv zeta;
    (destruct (Reqb _ _); [intros <-; left; reflexivity|]);
    intros <-; right; eexists _, _, _; reflexivity.
Qed.

Lemma norm_above_tolerance v :
  allclose_zero v = false -> 1e-8 < norm v.
Proof.
  intros Hnz.
  destruct (Rle_or_lt (norm v) 1e-8) as [Hle|Hlt]; [|exact Hlt].
  exfalso. assert (Ht : allclose_zero v = true); [|congruence].
  apply allclose_zero_iff. apply Forall_forall. intros z Hz.
  apply Rle_trans with (norm v); [|exact Hle].
  clear - Hz. induction v as [|y v IH]; [contradiction|].
  unfold norm, Cmod. apply sqrt_le_1_alt. cbn [map Rsum fold_right].
  fold (Rsum (map (fun z => Re z * Re z + Im z * Im z) v)).
  pose proof (sum_sq_nonneg v) as Hs.
  destruct Hz as [->|Hz].
  - lra.
  - specialize (IH Hz). unfold norm, Cmod in IH.
    apply sqrt_le_0 in IH; [nra | nra | exact Hs].
Qed.

(** A first column with an element of modulus above [1e-8] is kept and
    normalised. *)
Lemma column_step_float64_kept unitary j st res :
  allclose_zero (get_col c r (arr st) j) = false ->
  column_step sample float64 r c (unitary, []) j st = res ->
  exists unitary' b st', res = Ok ((unitary', [b]), st').
Proof.
  intros Hnz. unfold column_step. unfold bind at 1.
  destruct (replace_if_zero_float64 j st) as (column & st' & -> & _ & Hkeep).
  destruct (Hkeep Hnz) as [-> ->].
  unfold bind at 1. cbn [project_out]. unfold ret at 1.
  unfold bind at 1. rewrite retry_if_dependent_float64_first. cbn [read_column].
  pose proof (norm_above_tolerance _ Hnz) as Hn.
  rewrite Rltb_false by lra.
  unfold bind at 1. rewrite normalize_into_cases. cbv zeta. cbn [read_column].
  rewrite Reqb_false by lra. intros <-. eexists _, _, _. reflexivity.
Qed.

End RealMatrices.

(** X4: on a [float64] matrix with at least two columns [gram_schmidt]
    never returns.  The projection of the second column subtracts a
    [complex128] array in place from a [float64] one, which numpy refuses
    with [UFuncTypeError]; the only other way out is the division by a
    zero norm at the first column, where numpy itself would go on with
    [nan] and fail one column later.  If the first column has an element
    of modulus above [1e-8] the exception is [UFuncTypeError]. *)
Theorem gram_schmidt_rejects_real_matrices
        (sample : nat -> R) (matrix : ndarray) (g r c : nat) :
  dtype_of matrix = float64 ->
  shape matrix = [r; c] ->
  (2 <= c)%nat ->
  (gram_schmidt sample matrix g = Raise UFuncTypeError
   \/ gram_schmidt sample matrix g = Raise NonFinite)
  /\ (allclose_zero (get_col c r (data matrix) 0) = false ->
      gram_schmidt sample matrix g = Raise UFuncTypeError).
Proof.
  intros Hdt Hsh Hc. unfold gram_schmidt. rewrite Hsh, Hdt.
  destruct c as [|[|c]]; try lia.
  set (st0 := mk_gs_state (data matrix) g).
  set (u0 := data (zeros complex128 [r; S (S c)])).
  assert (Hrun :
    (column_loop sample float64 r (S (S c)) (seq 0 (S (S c))) (u0, []) st0
     = Raise UFuncTypeError
     \/ column_loop sample float64 r (S (S c)) (seq 0 (S (S c))) (u0, []) st0
        = Raise NonFinite)
    /\ (allclose_zero (get_col (S (S c)) r (arr st0) 0) = false ->
        column_loop sample float64 r (S (S c)) (seq 0 (S (S c))) (u0, []) st0
        = Raise UFuncTypeError)).
  { assert (Hgo : forall acc st',
              column_step sample float64 r (S (S c)) (u0, []) 0 st0 = Ok (acc, st') ->
              column_loop sample float64 r (S (S c)) (seq 0 (S (S c))) (u0, []) st0
              = Raise UFuncTypeError).
    { intros acc st' Hstep.
      destruct (@column_step_float64_first sample r (S (S c)) _ _ _ _ Hstep)
        as [H | (u & b & st1 & H)]; [discriminate|].
      injection H as -> _.
      cbn [seq column_loop]. unfold bind at 1. rewrite Hstep.
      unfold bind at 1. rewrite column_step_float64_later. reflexivity. }
    destruct (column_step sample float64 r (S (S c)) (u0, []) 0 st0)
      as [[acc st']|e] eqn:Hstep.
    - rewrite (Hgo acc st' eq_refl). split; [left; reflexivity | reflexivity].
    - destruct (@column_step_float64_first sample r (S (S c)) _ _ _ _ Hstep)
        as [H | (u & b & st1 & H)]; [|discriminate].
      injection H as ->.
      assert (Hnf : column_loop sample float64 r (S (S c)) (seq 0 (S (S c))) (u0, []) st0
                    = Raise NonFinite).
      { cbn [seq column_loop]. unfold bind at 1. rewrite Hstep. reflexivity. }
      split; [right; exact Hnf|].
      intros Hnz.
      destruct (@column_step_float64_kept sample r (S (S c)) _ _ _ _ Hnz Hstep)
        as (u & b & st1 & H).
      discriminate. }
  destruct Hrun as [[Hrun | Hrun] Hkept].
  - split; [left; rewrite Hrun; reflexivity|].
    intros Hnz. rewrite (Hkept Hnz). reflexivity.
  - split; [right; rewrite Hrun; reflexivity|].
    intros Hnz. rewrite (Hkept Hnz). reflexivity.
Qed.

Lemma gram_schmidt_rejects_real_matrices_witness :
  (gram_schmidt half_sample real_identity2 0 = Raise UFuncTypeError
   \/ gram_schmidt half_sample real_identity2 0 = Raise NonFinite)
  /\ (allclose_zero (get_col 2 2 (data real_identity2) 0) = false ->
      gram_schmidt half_sample real_identity2 0 = Raise UFuncTypeError).
Proof.
  apply (@gram_schmidt_rejects_real_matrices half_sample real_identity2 0 2 2);
    [reflexivity | reflexivity | lia].
Defined.

(** ** The random numbers [gram_schmidt] consumes *)

Section Draws.

Variable sample : nat -> R.
Variables r c : nat.
Variable original : list C.

Lemma column_step_draws k acc st acc' st' :
  (k < c)%nat ->
  column_inv c r original k acc st ->
  column_step sample complex128 r c acc k st = Ok (acc', st') ->
  rng st' = (rng st + if allclose_zero (get_col c r original k)
                      then 2 * r else 0)%nat.
Proof.
  intros Hk (_ & _ & _ & _ & Htodo) Hstep.
  destruct acc as [unitary basis]. rewrite column_step_complex in Hstep.
  rewrite (Htodo k ltac:(lia)) in Hstep.
  destruct (allclose_zero (get_col c r original k)).
  - apply finish_column_inv in Hstep. destruct Hstep as (_ & -> & _).
    cbn [rng]. lia.
  - cbv zeta in Hstep. apply finish_column_inv in Hstep.
    destruct Hstep as (_ & -> & _). cbn [rng]. lia.
Qed.

Lemma column_loop_draws n k acc st acc' st' :
  (k + n <= c)%nat ->
  column_inv c r original k acc st ->
  column_loop sample complex128 r c (seq k n) acc st = Ok (acc', st') ->
  rng st' = (rng st
             + 2 * r * length (filter (fun j => allclose_zero (get_col c r original j))
                                      (seq k n)))%nat.
Proof.
  revert k acc st. induction n as [|n IH]; intros k acc st Hkn Hinv Hloop.
  - cbn in Hloop. injection Hloop as _ <-. cbn. lia.
  - cbn [seq column_loop] in Hloop. unfold bind in Hloop.
    destruct (column_step sample complex128 r c acc k st) as [[acc1 st1]|e] eqn:Hstep;
      [|discriminate].
    pose proof (@column_step_draws k acc st acc1 st1 ltac:(lia) Hinv Hstep) as Hd.
    pose proof (@column_step_inv sample r c original k acc st acc1 st1
                  ltac:(lia) Hinv Hstep) as Hinv1.
    rewrite (IH (S k) acc1 st1 ltac:(lia) Hinv1 Hloop), Hd.
    cbn [seq filter].
    destruct (allclose_zero (get_col c r original k)); cbn [length]; lia.
Qed.

End Draws.

(** X23: the random numbers consumed.  A call of [gram_schmidt] on a
    complex matrix that returns has drawn [2 * num_rows] variates for each
    column of the input that is zero within [np.allclose], and none for
    any other column. *)
Theorem gram_schmidt_draws
        (sample : nat -> R) (matrix unitary : ndarray) (g r c : nat) (st : gs_state) :
  dtype_of matrix = complex128 ->
  shape matrix = [r; c] ->
  length (data matrix) = (r * c)%nat ->
  gram_schmidt sample matrix g = Ok (unitary, st) ->
  rng st = (g + 2 * r * length (filter (fun j => allclose_zero
                                                    (get_col c r (data matrix) j))
                                       (seq 0 c)))%nat.
Proof.
  intros Hdt Hsh Hlen Hrun. unfold gram_schmidt in Hrun. rewrite Hsh, Hdt in Hrun.
  destruct (column_loop sample complex128 r c (seq 0 c)
              (data (zeros complex128 [r; c]), []) (mk_gs_state (data matrix) g))
    as [[[u basis] st1]|e] eqn:Hloop; [|discriminate].
  injection Hrun as _ <-.
  assert (Hinit : column_inv c r (data matrix) 0
                    (data (zeros complex128 [r; c]), [])
                    (mk_gs_state (data matrix) g)).
  { unfold column_inv. cbn [fst snd arr zeros data fold_right].
    rewrite repeat_length. repeat split; auto; try lia. }
  apply (@column_loop_draws sample r c (data matrix) c 0 _ _ _ _
           (Nat.le_refl _) Hinit Hloop).
Qed.

Lemma gram_schmidt_draws_witness :
  rng (mk_gs_state (data tiny1) 2)
  = (0 + 2 * 1 * length (filter (fun j => allclose_zero (get_col 1 1 (data tiny1) j))
                                (seq 0 1)))%nat.
Proof.
  apply (@gram_schmidt_draws pythagorean_sample tiny1
           (mk_ndarray complex128 [1%nat; 1%nat] [(3 / 5, 4 / 5)]) 0 1 1
           (mk_gs_state (data tiny1) 2));
    [reflexivity | reflexivity | reflexivity | exact gram_schmidt_tiny1].
Defined.

(** ** Edge cases and gate shapes of [generate_layer] *)

Lemma gram_schmidt_shape sample matrix g unitary st :
  gram_schmidt sample matrix g = Ok (unitary, st) ->
  shape unitary = shape matrix /\ dtype_of unitary = complex128.
Proof.
  unfold gram_schmidt.
  destruct (shape matrix) as [|r [|c [|? ?]]] eqn:Hsh; try discriminate.
  destruct (column_loop _ _ _ _ _ _ _) as [[[u b] st1]|e]; [|discriminate].
  intros H. injection H as <- _. split; reflexivity.
Qed.

Lemma length_py_range lo hi : length (py_range lo hi) = Z.to_nat (hi - lo).
Proof. unfold py_range. rewrite length_map, length_seq. reflexivity. Qed.

Lemma site_qubits_length num_sites i d_left qs :
  site_qubits num_sites i d_left = Ok qs ->
  length qs = S (Nat.log2_up d_left).
Proof.
  unfold site_qubits, ceil_log2. destruct (d_left =? 0)%nat; [discriminate|].
  cbn [bind_result]. intros H. injection H as <-.
  rewrite length_map, length_rev, length_py_range. lia.
Qed.

Section GateShapes.

Variable sample : nat -> R.

(** The gate of a site of a qubit state is a square matrix of dimension
    [2 ^ (number of its qubits)]. *)
Lemma site_gate_shape num_sites i t g qs u g' :
  last (shape t) 0%nat = 2%nat ->
  Forall (fun d => (1 <= d <= 2)%nat) (shape t) ->
  site_gate sample num_sites i t g = Ok ((qs, u), g') ->
  shape u = [2 ^ length qs; 2 ^ length qs]%nat
  /\ dtype_of u = complex128
  /\ (length qs = 1%nat \/ length qs = 2%nat).
Proof.
  intros Hlast Hdims H. unfold site_gate in H.
  destruct (boundary_reshape num_sites i t) as [t1|e] eqn:Hb; [|discriminate].
  cbn [bind_result] in H.
  assert (H1 : last (shape t1) 0%nat = 2%nat
               /\ Forall (fun d => (1 <= d <= 2)%nat) (shape t1)).
  { unfold boundary_reshape in Hb.
    assert (Hstep : forall t0 t',
              last (shape t0) 0%nat = 2%nat ->
              Forall (fun d => (1 <= d <= 2)%nat) (shape t0) ->
              (match shape t0 with
               | [x; d] => Ok (reshape t0 [1%nat; x; d])
               | _ => Raise ValueError
               end = Ok t'
               \/ match shape t0 with
                  | [x; d] => Ok (reshape t0 [x; 1%nat; d])
                  | _ => Raise ValueError
                  end = Ok t'
               \/ t0 = t') ->
              last (shape t') 0%nat = 2%nat
              /\ Forall (fun d => (1 <= d <= 2)%nat) (shape t')).
    { intros t0 t' Hl Hd Hcase.
      destruct Hcase as [Hc | [Hc | <-]]; [| |auto];
        destruct (shape t0) as [|x [|d [|? ?]]] eqn:Hs; try discriminate;
        injection Hc as <-; cbn [reshape shape]; cbn [last] in Hl |- *;
        apply Forall_cons_iff in Hd; destruct Hd as [Hx Hd];
        apply Forall_cons_iff in Hd; destruct Hd as [Hd' _];
        (split; [exact Hl|]);
        repeat (apply Forall_cons; [lia|]); apply Forall_nil. }
    destruct (i =? 0)%nat.
    - destruct (match shape t with
                | [d_right; d] => Ok (reshape t [1%nat; d_right; d])
                | _ => Raise ValueError
                end) as [t0|e] eqn:Hfirst; [|discriminate].
      cbn [bind_result] in Hb.
      destruct (Hstep t t0 Hlast Hdims (or_introl Hfirst)) as [Hl0 Hd0].
      destruct (Z.of_nat i =? Z.of_nat num_sites - 1)%Z.
      + apply (Hstep t0 t1 Hl0 Hd0). right. left. exact Hb.
      + injection Hb as <-. auto.
    - cbn [bind_result] in Hb.
      destruct (Z.of_nat i =? Z.of_nat num_sites - 1)%Z.
      + apply (Hstep t t1 Hlast Hdims). right. left. exact Hb.
      + injection Hb as <-. auto. }
  destruct H1 as [Hl1 Hd1].
  destruct (swapaxes12 t1) as [t2|e] eqn:Hs; [|discriminate].
  cbn [bind_result] in H. unfold swapaxes12 in Hs.
  destruct (shape t1) as [|a [|b [|c [|? ?]]]] eqn:Ht1; try discriminate.
  injection Hs as <-. cbn [shape] in H. cbn [last] in Hl1. subst c.
  destruct (site_qubits num_sites i a) as [qs0|e] eqn:Hq; [|discriminate].
  cbn [bind_result] in H.
  destruct (_ <? _)%nat; [discriminate|].
  destruct (gram_schmidt _ _ _) as [[u0 st]|e] eqn:Hgs; [|discriminate].
  cbn [bind_result] in H. injection H as <- <- _.
  apply gram_schmidt_shape in Hgs. destruct Hgs as [Hsh Hdt]. cbn [shape] in Hsh.
  apply site_qubits_length in Hq.
  apply Forall_inv in Hd1.
  assert (Ha : a = 1%nat \/ a = 2%nat) by lia.
  destruct Ha as [-> | ->].
  - change (Nat.log2_up 1) with 0%nat in Hq. rewrite Hq, Hsh.
    repeat split; auto.
  - change (Nat.log2_up 2) with 1%nat in Hq. rewrite Hq, Hsh.
    repeat split; auto.
Qed.

Lemma site_loop_shapes num_sites sites acc g layer g' :
  (forall k t, In (k, t) sites ->
               last (shape t) 0%nat = 2%nat
               /\ Forall (fun d => (1 <= d <= 2)%nat) (shape t)) ->
  site_loop sample num_sites sites acc g = Ok (layer, g') ->
  exists rest,
    layer = acc ++ rest
    /\ Forall (fun qu : list Z * ndarray =>
                 shape (snd qu) = [2 ^ length (fst qu); 2 ^ length (fst qu)]%nat
                 /\ dtype_of (snd qu) = complex128
                 /\ (length (fst qu) = 1%nat \/ length (fst qu) = 2%nat)) rest.
Proof.
  revert acc g. induction sites as [|[k t] sites IH]; intros acc g Hall H.
  - cbn in H. injection H as <- _. exists []. rewrite app_nil_r. auto.
  - cbn [site_loop] in H.
    destruct (site_gate sample num_sites (num_sites - k - 1) t g)
      as [[[qs u] g1]|e] eqn:Hg; [|discriminate].
    cbn [bind_result] in H.
    destruct (Hall k t (or_introl eq_refl)) as [Hl Hd].
    apply site_gate_shape in Hg; [|exact Hl|exact Hd].
    apply IH in H; [|intros k' t' Hin; apply (Hall k' t'); right; exact Hin].
    destruct H as (rest & -> & Hrest).
    exists ((qs, u) :: rest). rewrite <- app_assoc. split; [reflexivity|].
    apply Forall_cons; [exact Hg | exact Hrest].
Qed.

End GateShapes.

(** X7: the two ends of [generate_layer].  An empty state gives an empty
    layer and draws nothing.  A state with a single site always raises
    [ValueError]: the tensor is reshaped to three dimensions as first
    site, and then unpacked into two as last site (lines 128-133). *)
Theorem generate_layer_edge_cases (sample : nat -> R) (t : ndarray) (g : nat) :
  generate_layer sample [] g = Ok ([], g)
  /\ generate_layer sample [t] g = Raise ValueError.
Proof.
  split; [reflexivity|].
  unfold generate_layer, L. cbn [length seq rev app combine site_loop].
  unfold site_gate, boundary_reshape. cbn [Nat.sub Nat.eqb].
  destruct (shape t) as [|d_right [|d [|? ?]]]; reflexivity.
Qed.

Lemma qubit_mps_bond_le_2 mps : qubit_mps mps -> bond_le_2 mps.
Proof.
  unfold qubit_mps, bond_le_2. intros H. eapply Forall_impl; [|exact H].
  intros t [_ Hd]. eapply Forall_impl; [|exact Hd]. intros d Hd'. cbn in Hd'. lia.
Qed.

Lemma generate_layer_shapes (sample : nat -> R) (mps : MatrixProductState) (g g' : nat)
      (layer : list (list Z * ndarray)) (qs : list Z) (u : ndarray) :
  qubit_mps mps ->
  generate_layer sample mps g = Ok (layer, g') ->
  In (qs, u) layer ->
  shape u = [2 ^ length qs; 2 ^ length qs]%nat
  /\ dtype_of u = complex128
  /\ (length qs = 1%nat \/ length qs = 2%nat).
Proof.
  intros Hq H Hin. unfold generate_layer in H.
  apply site_loop_shapes in H.
  - destruct H as (rest & -> & Hrest). cbn [app] in Hin.
    rewrite Forall_forall in Hrest. specialize (Hrest _ Hin).
    exact Hrest.
  - intros k t Hin'. apply in_combine_r in Hin'. apply in_rev in Hin'.
    unfold qubit_mps in Hq. rewrite Forall_forall in Hq. apply Hq. exact Hin'.
Qed.

(** X8: every gate of a layer generated from a qubit state is a complex
    square matrix of dimension [2 ^ q], where [q] is the number of qubits
    the gate is given, and [q] is 1 or 2: what [circuit.unitary(unitary,
    qubits)] is called with fits.  The inverse [unitary.conj().T] has 4
    rows, the test of line 232, exactly for the two-qubit gates. *)
Theorem generate_layer_gate_shapes
        (sample : nat -> R) (mps : MatrixProductState) (g g' : nat)
        (layer : list (list Z * ndarray)) (qs : list Z) (u : ndarray) :
  qubit_mps mps ->
  generate_layer sample mps g = Ok (layer, g') ->
  In (qs, u) layer ->
  shape u = [2 ^ length qs; 2 ^ length qs]%nat
  /\ dtype_of u = complex128
  /\ (length qs = 1%nat \/ length qs = 2%nat)
  /\ (hd 0%nat (shape (dagger u)) = 4%nat <-> length qs = 2%nat).
Proof.
  intros Hq H Hin.
  destruct (@generate_layer_shapes sample mps g g' layer qs u Hq H Hin)
    as (Hsh & Hdt & Hlen).
  split; [exact Hsh|]. split; [exact Hdt|]. split; [exact Hlen|].
  unfold dagger. rewrite Hsh. cbn [shape hd].
  destruct Hlen as [-> | ->]; cbn; split; intros; try lia; discriminate.
Qed.

Lemma pair_mps_qubit_mps : qubit_mps pair_mps.
Proof.
  unfold qubit_mps, pair_mps.
  repeat (apply Forall_cons; [split; [reflexivity|]; cbn [shape];
                              repeat (apply Forall_cons; [lia|]); apply Forall_nil|]).
  apply Forall_nil.
Qed.

Lemma generate_layer_gate_shapes_witness :
  shape pair_unitary = [2 ^ length [0; 1]%Z; 2 ^ length [0; 1]%Z]%nat
  /\ dtype_of pair_unitary = complex128
  /\ (length [0; 1]%Z = 1%nat \/ length [0; 1]%Z = 2%nat)
  /\ (hd 0%nat (shape (dagger pair_unitary)) = 4%nat <-> length [0; 1]%Z = 2%nat).
Proof.
  apply (@generate_layer_gate_shapes staircase_sample pair_mps 0 24
           [([0; 1]%Z, pair_unitary); ([1]%Z, identity2)] [0; 1]%Z pair_unitary
           pair_mps_qubit_mps (generate_layer_pair (or_introl eq_refl))).
  left. reflexivity.
Defined.

(** ** The sites the inverses of a layer are applied to *)

Section InverseSites.

Variables Q Q' : quimb.
Variable layer : list (list Z * ndarray).
Variable num_sites : nat.

Hypothesis Hgate : forall m u i,
  (0 <= i < Z.of_nat num_sites)%Z -> gate_ Q m u i = gate_ Q' m u i.
Hypothesis Hsplit : forall m u i,
  (1 <= i < Z.of_nat num_sites)%Z ->
  gate_split_ Q m u (i - 1, i)%Z = gate_split_ Q' m u (i - 1, i)%Z.

Lemma apply_inverses_agree idxs d :
  Forall (fun i =>
            (i < num_sites)%nat
            /\ (hd 0%nat (shape (dagger (snd (nth (length layer - (i + 1)) layer
                                                  ([], zeros complex128 [])))))
                = 4%nat -> (1 <= i)%nat)) idxs ->
  apply_inverses Q layer idxs d = apply_inverses Q' layer idxs d.
Proof.
  revert d. induction idxs as [|i idxs IH]; intros d H; [reflexivity|].
  apply Forall_cons_iff in H. destruct H as [[Hi H4] Hrest].
  cbn [apply_inverses].
  destruct (Nat.eqb_spec
              (hd 0%nat (shape (dagger (snd (nth (length layer - (i + 1)) layer
                                                 ([], zeros complex128 []))))))
              4) as [E|E].
  - rewrite Hsplit by (specialize (H4 E); lia).
    destruct (lib _) as [d'|e]; [|reflexivity]. cbn [bind_result].
    apply IH. exact Hrest.
  - rewrite Hgate by lia.
    destruct (lib _) as [d'|e]; [|reflexivity]. cbn [bind_result].
    apply IH. exact Hrest.
Qed.

End InverseSites.

(** X9: the inverses of a layer generated from a qubit state are applied
    to sites of the state only.  The gate undone first belongs to site 0
    and acts on one qubit, so [gate_split_] is never called with the pair
    [(-1, 0)]: the result depends on [gate_] at the sites [0 .. n-1] and
    on [gate_split_] at the pairs [(i-1, i)] with [1 <= i <= n-1], and on
    nothing else the library does. *)
Theorem apply_inverses_stays_in_range
        (sample : nat -> R) (Q Q' : quimb) (mps d : MatrixProductState)
        (g g' : nat) (layer : list (list Z * ndarray)) :
  qubit_mps mps ->
  generate_layer sample mps g = Ok (layer, g') ->
  (forall m u i, (0 <= i < Z.of_nat (L mps))%Z -> gate_ Q m u i = gate_ Q' m u i) ->
  (forall m u i, (1 <= i < Z.of_nat (L mps))%Z ->
     gate_split_ Q m u (i - 1, i)%Z = gate_split_ Q' m u (i - 1, i)%Z) ->
  apply_inverses Q layer (seq 0 (length layer)) d
  = apply_inverses Q' layer (seq 0 (length layer)) d.
Proof.
  intros Hq H Hgate Hsplit.
  pose proof (qubit_mps_bond_le_2 Hq) as Hb.
  pose proof (@generate_layer_length sample mps g layer g' Hb H) as Hlen.
  apply (@apply_inverses_agree Q Q' layer (L mps) Hgate Hsplit).
  apply Forall_forall. intros i Hi. apply in_seq in Hi.
  split; [lia|]. intros H4.
  destruct (Nat.eq_dec i 0) as [->|]; [exfalso|lia].
  (* the gate undone first is the last of the layer, the gate of site 0 *)
  replace (length layer - (0 + 1))%nat with (L mps - 1)%nat in H4 by lia.
  assert (Hk : (L mps - 1 < L mps)%nat) by lia.
  destruct (nth_error (rev mps) (L mps - 1)) as [t|] eqn:Ht.
  2:{ apply nth_error_None in Ht. rewrite length_rev in Ht. unfold L in *. lia. }
  destruct (@generate_layer_gate sample mps g layer g' (L mps - 1) t Hb H Ht)
    as [u Hu].
  replace (S (L mps - 1) =? L mps)%nat with true in Hu
    by (symmetry; apply Nat.eqb_eq; lia).
  cbn [orb] in Hu.
  rewrite (nth_error_nth _ _ _ Hu) in H4. cbn [snd] in H4.
  apply nth_error_In in Hu.
  destruct (@generate_layer_shapes sample mps g g' layer _ u Hq H Hu)
    as (Hsh & _ & _).
  unfold dagger in H4. rewrite Hsh in H4. cbn in H4. discriminate.
Qed.

(** *** The recorded run, once more *)

Lemma mps_to_circuit_approx_without_layers_witness :
  mps_to_circuit_approx staircase_sample (recorded_quimb true) (9 / 10)
                        pair_state 0 2 0
  = Raise UnboundLocalError.
Proof.
  apply (@mps_to_circuit_approx_without_layers staircase_sample
           (recorded_quimb true) (9 / 10) pair_state 0 2 0 (pair_start 0));
    [lia | apply prepare_recorded].
Defined.

Lemma lenient_gate_agrees m u i :
  (0 <= i < Z.of_nat (L pair_mps))%Z ->
  gate_ (recorded_quimb true) m u i = gate_ lenient_quimb m u i.
Proof.
  intros Hi. unfold lenient_quimb. cbn [gate_].
  destruct (Z.ltb_spec i 0); [lia | reflexivity].
Qed.

Lemma lenient_gate_split_agrees m u i :
  (1 <= i < Z.of_nat (L pair_mps))%Z ->
  gate_split_ (recorded_quimb true) m u (i - 1, i)%Z
  = gate_split_ lenient_quimb m u (i - 1, i)%Z.
Proof.
  intros Hi. unfold lenient_quimb. cbn [gate_split_ fst].
  destruct (Z.ltb_spec (i - 1) 0); [lia | reflexivity].
Qed.

Lemma apply_inverses_stays_in_range_witness :
  apply_inverses (recorded_quimb true) pair_layer (seq 0 (length pair_layer)) pair_mps
  = apply_inverses lenient_quimb pair_layer (seq 0 (length pair_layer)) pair_mps.
Proof.
  apply (@apply_inverses_stays_in_range staircase_sample
           (recorded_quimb true) lenient_quimb
           pair_mps pair_mps 0 24 pair_layer
           pair_mps_qubit_mps (generate_layer_pair (or_introl eq_refl))
           lenient_gate_agrees lenient_gate_split_agrees).
Defined.

(** ** Truncation *)

Lemma Int_part_le x y : x <= y -> (Int_part x <= Int_part y)%Z.
Proof.
  intros Hxy. destruct (base_Int_part x) as [Hx _], (base_Int_part y) as [_ Hy].
  assert (H : IZR (Int_part x) < IZR (Int_part y + 1)) by (rewrite plus_IZR; lra).
  apply lt_IZR in H. lia.
Qed.

Lemma py_int_nonneg x : 0 <= x -> py_int x = Int_part x.
Proof. intros H. unfold py_int. rewrite Rleb_true by exact H. reflexivity. Qed.

Lemma py_int_le x y : 0 <= x -> x <= y -> (py_int x <= py_int y)%Z.
Proof.
  intros Hx Hxy. rewrite !py_int_nonneg by lra. apply Int_part_le. exact Hxy.
Qed.

(** On a quotient of non-negative integers [int] is the integer quotient. *)
Lemma py_int_quotient (a b : Z) :
  (0 <= a)%Z -> (0 < b)%Z -> py_int (IZR a / IZR b) = (a / b)%Z.
Proof.
  intros Ha Hb.
  assert (HbR : 0 < IZR b) by (apply IZR_lt; exact Hb).
  assert (HaR : 0 <= IZR a) by (apply IZR_le; exact Ha).
  assert (Hq : 0 <= IZR a / IZR b).
  { unfold Rdiv. apply Rmult_le_pos; [exact HaR|].
    apply Rlt_le, Rinv_0_lt_compat. exact HbR. }
  rewrite py_int_nonneg by exact Hq. symmetry. apply Int_part_spec.
  pose proof (Z.div_mod a b ltac:(lia)) as Hdm.
  pose proof (Z.mod_pos_bound a b Hb) as Hmod.
  assert (HaE : IZR a = IZR b * IZR (a / b) + IZR (a mod b)).
  { rewrite <- mult_IZR, <- plus_IZR. f_equal. exact Hdm. }
  assert (Hr0 : 0 <= IZR (a mod b)) by (apply IZR_le; lia).
  assert (Hr1 : IZR (a mod b) < IZR b) by (apply IZR_lt; lia).
  assert (HqE : IZR a / IZR b = IZR (a / b) + IZR (a mod b) / IZR b).
  { rewrite HaE. field. lra. }
  assert (Hf0 : 0 <= IZR (a mod b) / IZR b).
  { unfold Rdiv. apply Rmult_le_pos; [exact Hr0|].
    apply Rlt_le, Rinv_0_lt_compat. exact HbR. }
  assert (Hf1 : IZR (a mod b) / IZR b < 1).
  { apply Rmult_lt_reg_r with (IZR b); [exact HbR|].
    unfold Rdiv. rewrite Rmult_assoc, Rinv_l by lra. lra. }
  lra.
Qed.

(** ** Memory needed for the statevector *)

Lemma two_pow_30 : (2 : R) ^ 30 = 1073741824.
Proof. lra. Qed.

Lemma memory_required_gb_eq (n : nat) :
  powerRZ 2 (4 + Z.of_nat n - 31) = 2 ^ (n + 4) / 2 ^ 31.
Proof.
  replace (4 + Z.of_nat n - 31)%Z with (Z.of_nat (n + 4) + (- 31))%Z by lia.
  rewrite powerRZ_add by lra. rewrite <- pow_powerRZ.
  cbn [powerRZ]. change (Pos.to_nat 31) with 31%nat. reflexivity.
Qed.

Lemma has_memory_iff (available : Z) (n : nat) :
  fst (fst (has_enough_memory available n)) = true
  <-> (16 * 2 ^ Z.of_nat n <= 2 * available)%Z.
Proof.
  unfold has_enough_memory. cbn [fst]. rewrite memory_required_gb_eq.
  assert (Hp : (2 : R) ^ (n + 4) = IZR (16 * 2 ^ Z.of_nat n)).
  { rewrite mult_IZR, <- pow_IZR, pow_add. simpl (2 ^ 4). lra. }
  rewrite Hp.
  assert (H31 : (2 : R) ^ 31 = 2 * 2 ^ 30) by (simpl; lra).
  rewrite H31, two_pow_30.
  split; intros H.
  - destruct (Rleb_spec (IZR (16 * 2 ^ Z.of_nat n) / (2 * 1073741824))
                        (IZR available / 1073741824)) as [Hle|]; [|discriminate].
    apply le_IZR. rewrite (mult_IZR 2 available). lra.
  - apply Rleb_true. apply IZR_le in H. rewrite (mult_IZR 2 available) in H. lra.
Qed.

(** X11: [has_enough_memory] answers yes exactly when the [16 * 2^n] bytes
    of a statevector on [n] qubits are at most twice the memory psutil
    reports as available, that is when half of the statevector fits; the
    figure it returns as required is [2^(n-27)] GiB.  If it answers yes
    for [n] qubits it does so for fewer. *)
Theorem has_enough_memory_threshold (available : Z) (n : nat) :
  (fst (fst (has_enough_memory available n)) = true
   <-> (16 * 2 ^ Z.of_nat n <= 2 * available)%Z)
  /\ snd (fst (has_enough_memory available n)) * 2 ^ 27 = 2 ^ n
  /\ snd (has_enough_memory available n) * 2 ^ 30 = IZR available
  /\ (forall m, (m <= n)%nat ->
        fst (fst (has_enough_memory available n)) = true ->
        fst (fst (has_enough_memory available m)) = true).
Proof.
  split; [apply has_memory_iff|]. split; [|split].
  - unfold has_enough_memory. cbn [fst snd]. rewrite memory_required_gb_eq.
    rewrite pow_add.
    assert (H31 : (2 : R) ^ 31 = 2 ^ 4 * 2 ^ 27) by (rewrite <- pow_add; reflexivity).
    rewrite H31. field.
  - unfold has_enough_memory. cbn [fst snd]. field.
  - intros m Hm H. apply has_memory_iff in H. apply has_memory_iff.
    assert (Hpow : (2 ^ Z.of_nat m <= 2 ^ Z.of_nat n)%Z)
      by (apply Z.pow_le_mono_r; lia).
    lia.
Qed.

(** ** The parameters chosen for qmprs *)

Section OptimalParams.

Variable DensityMatrix : Type.
Variable partial_trace : list C -> list nat -> DensityMatrix.
Variable entropy : DensityMatrix -> R.

(** The copy of the slope computation in [QmprsCompiler] is the one of
    [utils]. *)
Lemma QmprsCompiler_slope_is_utils_slope (state : list C) :
  QmprsCompiler_calculate_entanglement_entropy_slope partial_trace entropy state
  = calculate_entanglement_entropy_slope partial_trace entropy state.
Proof. reflexivity. Qed.

Lemma optimal_params_of_slope (statevector : list C) (n : nat) (slope : R) :
  num_qubits_of statevector = Ok n ->
  calculate_entanglement_entropy_slope partial_trace entropy statevector = Ok slope ->
  optimal_params partial_trace entropy statevector
  = Ok (py_int ((2 + 2 * slope) * INR n / 1.5),
        py_int ((10 + 20 * slope) * INR n)).
Proof.
  intros Hq Hs. unfold optimal_params.
  rewrite QmprsCompiler_slope_is_utils_slope, Hq, Hs. reflexivity.
Qed.

Lemma optimal_params_small (statevector : list C) (n : nat) :
  length statevector = (2 ^ n)%nat -> (n <= 5)%nat ->
  optimal_params partial_trace entropy statevector
  = Ok ((4 * Z.of_nat n / 3)%Z, (10 * Z.of_nat n)%Z).
Proof.
  intros Hlen Hn.
  pose proof (num_qubits_of_pow2 statevector n Hlen) as Hq.
  pose proof (@second_half_short _ partial_trace entropy n statevector Hn) as Hshort.
  assert (Hden : regression_denominator
                   (second_half (cut_entropies partial_trace entropy statevector n)) = 0)
    by (apply regression_denominator_zero_iff; exact Hshort).
  assert (Hret : retained_entropies partial_trace entropy statevector
                 = Ok (second_half (cut_entropies partial_trace entropy statevector n)))
    by (unfold retained_entropies; rewrite Hq; reflexivity).
  destruct (@degenerate_regression _ partial_trace entropy statevector _ Hret Hden)
    as (Hs & _ & _).
  rewrite (@optimal_params_of_slope statevector n 0 Hq Hs).
  rewrite INR_IZR_INZ.
  replace ((2 + 2 * 0) * IZR (Z.of_nat n) / 1.5)
    with (IZR (4 * Z.of_nat n) / IZR 3) by (rewrite mult_IZR; lra).
  replace ((10 + 20 * 0) * IZR (Z.of_nat n))
    with (IZR (10 * Z.of_nat n) / IZR 1) by (rewrite mult_IZR; lra).
  rewrite !py_int_quotient by lia. rewrite Z.div_1_r. reflexivity.
Qed.

(** X12: for a statevector on at most 5 qubits the parameters do not
    depend on the state: [4 n / 3] layers, rounded down, and [10 n]
    sweeps. *)
Theorem optimal_params_of_small_states (statevector : list C) (n : nat) :
  length statevector = (2 ^ n)%nat -> (n <= 5)%nat ->
  optimal_params partial_trace entropy statevector
  = Ok ((4 * Z.of_nat n / 3)%Z, (10 * Z.of_nat n)%Z).
Proof. apply optimal_params_small. Qed.

(** X13: for a slope between 0 and 1, the range the source expects, the
    number of layers lies between [4 n / 3] and [8 n / 3] (rounded down)
    and the number of sweeps between [10 n] and [30 n]. *)
Theorem optimal_params_range (statevector : list C) (n : nat) (slope : R)
        (num_layers num_sweeps : Z) :
  num_qubits_of statevector = Ok n ->
  calculate_entanglement_entropy_slope partial_trace entropy statevector = Ok slope ->
  0 <= slope <= 1 ->
  optimal_params partial_trace entropy statevector = Ok (num_layers, num_sweeps) ->
  (4 * Z.of_nat n / 3 <= num_layers <= 8 * Z.of_nat n / 3)%Z
  /\ (10 * Z.of_nat n <= num_sweeps <= 30 * Z.of_nat n)%Z.
Proof.
  intros Hq Hs Hslope Hp.
  rewrite (@optimal_params_of_slope statevector n slope Hq Hs) in Hp.
  injection Hp as <- <-.
  rewrite INR_IZR_INZ.
  assert (Hn : 0 <= IZR (Z.of_nat n)) by (apply IZR_le; lia).
  set (x := IZR (Z.of_nat n)) in *.
  assert (E4 : IZR (4 * Z.of_nat n) / IZR 3 = (2 + 2 * 0) * x / 1.5)
    by (rewrite mult_IZR; fold x; lra).
  assert (E8 : IZR (8 * Z.of_nat n) / IZR 3 = (2 + 2 * 1) * x / 1.5)
    by (rewrite mult_IZR; fold x; lra).
  assert (E10 : IZR (10 * Z.of_nat n) / IZR 1 = (10 + 20 * 0) * x)
    by (rewrite mult_IZR; fold x; lra).
  assert (E30 : IZR (30 * Z.of_nat n) / IZR 1 = (10 + 20 * 1) * x)
    by (rewrite mult_IZR; fold x; lra).
  rewrite <- (@py_int_quotient (4 * Z.of_nat n) 3) by lia.
  rewrite <- (@py_int_quotient (8 * Z.of_nat n) 3) by lia.
  rewrite <- (Z.div_1_r (10 * Z.of_nat n)), <- (Z.div_1_r (30 * Z.of_nat n)).
  rewrite <- (@py_int_quotient (10 * Z.of_nat n) 1) by lia.
  rewrite <- (@py_int_quotient (30 * Z.of_nat n) 1) by lia.
  rewrite E4, E8, E10, E30.
  repeat split; apply py_int_le; nra.
Qed.

(** X24: degenerate statevectors.  On an empty statevector
    [int(np.ceil(np.log2(0)))] raises [OverflowError] in each of the
    analysis functions, before qiskit is called.  On a statevector of
    length 1 there is no cut: the slope is 0, the type "area", and qmprs
    would be asked for 0 layers and 0 sweeps. *)
Theorem degenerate_statevectors (z : C) :
  calculate_entanglement_entropy_slope partial_trace entropy [] = Raise OverflowError
  /\ entanglement_type partial_trace entropy [] = Raise OverflowError
  /\ optimal_params partial_trace entropy [] = Raise OverflowError
  /\ calculate_entanglement_entropy_slope partial_trace entropy [z] = Ok 0
  /\ entanglement_type partial_trace entropy [z] = Ok "area"%string
  /\ optimal_params partial_trace entropy [z] = Ok (0%Z, 0%Z).
Proof.
  split; [reflexivity|]. split; [reflexivity|]. split; [reflexivity|].
  assert (Hret : retained_entropies partial_trace entropy [z] = Ok []) by reflexivity.
  assert (Hden : regression_denominator [] = 0)
    by (apply regression_denominator_zero_iff; cbn; lia).
  destruct (@degenerate_regression _ partial_trace entropy [z] [] Hret Hden)
    as (Hs & _ & Ht).
  split; [exact Hs|]. split; [exact Ht|].
  apply (@optimal_params_small [z] 0); [reflexivity | lia].
Qed.

End OptimalParams.

Lemma optimal_params_of_small_states_witness :
  optimal_params traced_out bell_entropy bell_state
  = Ok ((4 * Z.of_nat 2 / 3)%Z, (10 * Z.of_nat 2)%Z).
Proof.
  apply (@optimal_params_of_small_states _ traced_out bell_entropy bell_state 2);
    [reflexivity | lia].
Defined.

(** With one bit of entropy per qubit on 6 qubits: 16 layers, 180 sweeps. *)
Lemma maximal_entropy6_slope :
  calculate_entanglement_entropy_slope traced_out maximal_entropy6 flat_state64 = Ok 1.
Proof.
  assert (Hq : num_qubits_of flat_state64 = Ok 6%nat) by reflexivity.
  unfold calculate_entanglement_entropy_slope. rewrite Hq. cbn [bind_result].
  change (second_half (cut_entropies traced_out maximal_entropy6 flat_state64 6))
    with [INR 2; INR 3].
  unfold regression_slope.
  assert (Hd : regression_denominator [INR 2; INR 3] = 0.5).
  { unfold regression_denominator, arange1, mean. simpl. lra. }
  assert (Hn : regression_numerator [INR 2; INR 3] = 0.5).
  { unfold regression_numerator, arange1, mean. simpl. lra. }
  rewrite Hd, Hn. rewrite Reqb_false by lra. f_equal. lra.
Qed.

Lemma optimal_params_maximal6 :
  optimal_params traced_out maximal_entropy6 flat_state64 = Ok (16%Z, 180%Z).
Proof.
  rewrite (@optimal_params_of_slope _ traced_out maximal_entropy6 flat_state64 6 1
             eq_refl maximal_entropy6_slope).
  replace ((2 + 2 * 1) * INR 6 / 1.5) with (IZR 16 / IZR 1) by (simpl; lra).
  replace ((10 + 20 * 1) * INR 6) with (IZR 180 / IZR 1) by (simpl; lra).
  rewrite !py_int_quotient by lia. reflexivity.
Qed.

Lemma optimal_params_range_witness :
  (4 * Z.of_nat 6 / 3 <= 16 <= 8 * Z.of_nat 6 / 3)%Z
  /\ (10 * Z.of_nat 6 <= 180 <= 30 * Z.of_nat 6)%Z.
Proof.
  apply (@optimal_params_range _ traced_out maximal_entropy6 flat_state64 6 1 16 180
           eq_refl maximal_entropy6_slope);
    [lra | exact optimal_params_maximal6].
Defined.

(** ** The call of the qmprs encoder *)

Ltac front_eval :=
  cbn [fbind lift flib lib fret throw warn fst snd app].

Lemma fbind_fret (A B : Type) (a : A) (k : A -> F B) :
  fbind ([], Returns a) k = k a.
Proof. unfold fbind. destruct (k a). reflexivity. Qed.

Lemma fbind_returns (A B : Type) (log : list event) (a : A) (k : A -> F B) :
  fbind (log, Returns a) k = (log ++ fst (k a), snd (k a)).
Proof. unfold fbind. destruct (k a). reflexivity. Qed.

Lemma fbind_throws (A B : Type) (log : list event) (e : front_exn) (k : A -> F B) :
  fbind (log, Throws e) k = (log, Throws e).
Proof. reflexivity. Qed.

Ltac front_step :=
  unfold flib, lib, lift, fret, throw, warn; cbv beta iota;
  repeat first [rewrite fbind_fret | rewrite fbind_throws].

Section QmprsCall.

Variable DensityMatrix : Type.
Variable partial_trace : list C -> list nat -> DensityMatrix.
Variable entropy : DensityMatrix -> R.
Variables QuickCircuit program : Type.
Variable X : qmprs QuickCircuit program.

Lemma slope_returns (statevector : list C) (n : nat) :
  num_qubits_of statevector = Ok n ->
  QmprsCompiler_calculate_entanglement_entropy_slope partial_trace entropy statevector
  = Ok (regression_slope
          (second_half (cut_entropies partial_trace entropy statevector n))).
Proof.
  intros Hq. unfold QmprsCompiler_calculate_entanglement_entropy_slope.
  rewrite Hq. reflexivity.
Qed.

Lemma QmprsCompiler_call_cases (self : QmprsCompiler) (statevector : list C) :
  snd (QmprsCompiler_call partial_trace entropy X self statevector true)
  = snd (QmprsCompiler_call partial_trace entropy X self statevector false)
  /\ fst (QmprsCompiler_call partial_trace entropy X self statevector false) = []
  /\ (forall circuit,
        snd (QmprsCompiler_call partial_trace entropy X self statevector true)
        = Returns circuit ->
        (In (Warn VolumeLawEntangled)
            (fst (QmprsCompiler_call partial_trace entropy X self statevector true))
         <-> entanglement_type partial_trace entropy statevector
             = Ok "volume"%string)).
Proof.
  unfold QmprsCompiler_call, optimal_params, entanglement_type.
  destruct (num_qubits_of statevector) as [n|e] eqn:Hq.
  2:{ front_eval. split; [reflexivity|]. split; [reflexivity|].
    intros c Hc. discriminate. }
  rewrite (slope_returns statevector Hq). cbn [bind_result]. front_eval.
  destruct (sequential_prepare_state X _ _ _ _ _) as [qc|].
  2:{ front_eval. split; [reflexivity|]. split; [reflexivity|].
    intros c Hc. discriminate. }
  front_eval.
  destruct (get_statevector X qc) as [produced|].
  2:{ front_eval. split; [reflexivity|]. split; [reflexivity|].
    intros c Hc. discriminate. }
  front_eval.
  destruct (vdot produced statevector) as [f|e].
  2:{ front_eval. split; [reflexivity|]. split; [reflexivity|].
    intros c Hc. discriminate. }
  front_eval.
  destruct (isclose _ 1 default_rtol 0.1); front_eval.
  - split; [reflexivity|]. split; [reflexivity|]. intros c _.
    split; [reflexivity | intros _; left; reflexivity].
  - split; [reflexivity|]. split; [reflexivity|]. intros c _.
    split; [|discriminate]. intros [H|[]]. discriminate.
Qed.

(** X14: [verbose] changes what is printed and nothing else.  The call
    returns the same circuit, or raises the same exception, with and
    without it; without it nothing is logged; with it, a call that
    returns has warned of volume-law entanglement exactly when
    [entanglement_type] classifies the statevector as "volume". *)
Theorem QmprsCompiler_call_verbose (self : QmprsCompiler) (statevector : list C) :
  snd (QmprsCompiler_call partial_trace entropy X self statevector true)
  = snd (QmprsCompiler_call partial_trace entropy X self statevector false)
  /\ fst (QmprsCompiler_call partial_trace entropy X self statevector false) = []
  /\ (forall circuit,
        snd (QmprsCompiler_call partial_trace entropy X self statevector true)
        = Returns circuit ->
        (In (Warn VolumeLawEntangled)
            (fst (QmprsCompiler_call partial_trace entropy X self statevector true))
         <-> entanglement_type partial_trace entropy statevector
             = Ok "volume"%string)).
Proof. apply QmprsCompiler_call_cases. Qed.

End QmprsCall.

(** ** Approximate compilation *)

Lemma complex_lt_false z t : complex_lt z t = false -> t <= Re z.
Proof.
  unfold complex_lt. intros H. apply orb_false_iff in H. destruct H as [H _].
  destruct (Rltb_spec (Re z) t); [discriminate | lra].
Qed.

Lemma complex_lt_true z t : Re z < t -> complex_lt z t = true.
Proof. intros H. unfold complex_lt. rewrite Rltb_true by exact H. reflexivity. Qed.

Section ApproxCompile.

Variable DensityMatrix : Type.
Variable partial_trace : list C -> list nat -> DensityMatrix.
Variable entropy : DensityMatrix -> R.
Variables QuickCircuit program Target CouplingMap : Type.
Variable X : qmprs QuickCircuit program.
Variable T : toolchain program Target CouplingMap.
Variable qmprs_available : bool.
Variable available : Z.

(** A circuit on one qubit is returned as it is, before any call of
    qiskit or of the encoder. *)
Lemma approx_compile_one_qubit (circuit : program) :
  circuit_num_qubits T circuit = 1%nat ->
  approx_compile partial_trace entropy X T qmprs_available available circuit
  = (if qmprs_available then [] else [Warn QmprsNotInstalled], Returns circuit).
Proof.
  intros Hn. unfold approx_compile. rewrite Hn. cbn [Nat.eqb].
  destruct qmprs_available; reflexivity.
Qed.

(** What [approx_compile] does after the memory test, as a function of
    the statevector of the circuit. *)
Lemma approx_compile_large (circuit : program) :
  circuit_num_qubits T circuit <> 1%nat ->
  fst (fst (has_enough_memory available (circuit_num_qubits T circuit))) = true ->
  approx_compile partial_trace entropy X T qmprs_available available circuit
  = ((if negb qmprs_available then warn QmprsNotInstalled else fret tt) ;;;
     target_sv <- flib (Statevector_data T circuit) ;;
     encoder <- ([], new_encoder (MPS_Encoder qmprs_available) []) ;;
     aqc_circuit <- call_encoder partial_trace entropy X encoder target_sv ;;
     aqc_sv <- flib (Statevector_data T aqc_circuit) ;;
     fidelity <- lift (vdot target_sv aqc_sv) ;;
     if complex_lt fidelity 0.8 then
       warn (FidelityTooLow fidelity) ;;;
       fret circuit
     else
       aqc_transpiled <- flib (qiskit_transpile T aqc_circuit ["u3"; "cx"]%string 3) ;;
       original_transpiled <- flib (qiskit_transpile T circuit ["u3"; "cx"]%string 3) ;;
       if (count_ops_cx T original_transpiled <=? count_ops_cx T aqc_transpiled)%Z
          && (depth T original_transpiled <=? depth T aqc_transpiled)%Z
       then fret circuit
       else fret aqc_circuit)%front.
Proof.
  intros Hn Hm. unfold approx_compile.
  apply Nat.eqb_neq in Hn. rewrite Hn.
  destruct (has_enough_memory available (circuit_num_qubits T circuit))
    as [[hm req] av]. cbn [fst] in Hm. subst hm. reflexivity.
Qed.

Lemma approx_compile_sequential_returns_input (circuit r : program) :
  qmprs_available = false ->
  snd (approx_compile partial_trace entropy X T qmprs_available available
                      circuit) = Returns r ->
  r = circuit.
Proof.
  intros Hq. unfold approx_compile. rewrite Hq. front_eval. cbn [negb].
  front_eval.
  destruct (circuit_num_qubits T circuit =? 1)%nat.
  - front_eval. intros H. injection H as <-. reflexivity.
  - destruct (has_enough_memory available (circuit_num_qubits T circuit))
      as [[hm req] av].
    destruct hm; cbn [negb]; front_eval.
    + destruct (Statevector_data T circuit); front_eval; discriminate.
    + intros H. injection H as <-. reflexivity.
Qed.

(** X16: without qmprs the encoder is [Sequential], whose constructor
    needs a target fidelity: [MPS_Encoder()] raises [TypeError].  So
    [approx_compile] never returns a compiled circuit; on a circuit that
    is not on one qubit, passes the memory test and has a statevector,
    it warns that qmprs is missing and raises [TypeError]. *)
Theorem approx_compile_without_qmprs (circuit : program) :
  qmprs_available = false ->
  (forall r,
     snd (approx_compile partial_trace entropy X T qmprs_available available
                         circuit) = Returns r ->
     r = circuit)
  /\ (forall target_sv,
        circuit_num_qubits T circuit <> 1%nat ->
        fst (fst (has_enough_memory available (circuit_num_qubits T circuit))) = true ->
        Statevector_data T circuit = Some target_sv ->
        approx_compile partial_trace entropy X T qmprs_available available
                       circuit
        = ([Warn QmprsNotInstalled], Throws TypeError)).
Proof.
  intros Hq. split.
  - intros r. apply approx_compile_sequential_returns_input. exact Hq.
  - intros target_sv Hn Hm Hsv.
    rewrite (@approx_compile_large circuit Hn Hm), Hq, Hsv. reflexivity.
Qed.

(** X15: the memory gate.  A circuit on a number [n] of qubits other
    than 1 for which [8 * 2^n] bytes exceed the memory psutil reports is
    returned as it is, before its statevector is computed, with a
    warning that gives the two figures of [has_enough_memory]. *)
Theorem approx_compile_skips_large_circuits (circuit : program) :
  circuit_num_qubits T circuit <> 1%nat ->
  (available < 8 * 2 ^ Z.of_nat (circuit_num_qubits T circuit))%Z ->
  approx_compile partial_trace entropy X T qmprs_available available circuit
  = ((if qmprs_available then [] else [Warn QmprsNotInstalled])
     ++ [Warn (NotEnoughMemory
                 (powerRZ 2 (4 + Z.of_nat (circuit_num_qubits T circuit) - 31))
                 (IZR available / 2 ^ 30))],
     Returns circuit).
Proof.
  intros Hn Hbig. unfold approx_compile.
  apply Nat.eqb_neq in Hn. rewrite Hn.
  assert (Hm : fst (fst (has_enough_memory available
                           (circuit_num_qubits T circuit))) = false).
  { destruct (fst (fst (has_enough_memory available
                          (circuit_num_qubits T circuit)))) eqn:E;
      [|reflexivity].
    apply has_memory_iff in E. lia. }
  unfold has_enough_memory in *. cbn [fst] in Hm. rewrite Hm. cbn [negb].
  destruct qmprs_available; reflexivity.
Qed.

(** X17: what [approx_compile] can return.  The result is the circuit it
    was given, unless the encoder's circuit passes both tests: its raw
    overlap with the target, [np.vdot(target_sv, aqc_sv)], is not below
    [0.8] in numpy's order on complex numbers, so that its real part is
    at least [0.8], and after transpilation to [u3] and [cx] it has
    fewer [cx] gates or less depth than the original. *)
Theorem approx_compile_result (circuit r : program) :
  snd (approx_compile partial_trace entropy X T qmprs_available available
                      circuit) = Returns r ->
  r = circuit
  \/ (exists target_sv aqc_sv aqc_transpiled original_transpiled,
        qmprs_available = true
        /\ circuit_num_qubits T circuit <> 1%nat
        /\ fst (fst (has_enough_memory available (circuit_num_qubits T circuit))) = true
        /\ Statevector_data T circuit = Some target_sv
        /\ snd (QmprsCompiler_call partial_trace entropy X
                  (QmprsCompiler_init None) target_sv false) = Returns r
        /\ Statevector_data T r = Some aqc_sv
        /\ length target_sv = length aqc_sv
        /\ complex_lt (inner target_sv aqc_sv) 0.8 = false
        /\ 0.8 <= Re (inner target_sv aqc_sv)
        /\ qiskit_transpile T r ["u3"; "cx"]%string 3 = Some aqc_transpiled
        /\ qiskit_transpile T circuit ["u3"; "cx"]%string 3 = Some original_transpiled
        /\ (count_ops_cx T aqc_transpiled < count_ops_cx T original_transpiled
            \/ depth T aqc_transpiled < depth T original_transpiled)%Z).
Proof.
  destruct (Nat.eq_dec (circuit_num_qubits T circuit) 1) as [Hn|Hn].
  { rewrite (approx_compile_one_qubit circuit Hn). cbn [snd].
    intros H. injection H as <-. left. reflexivity. }
  destruct (fst (fst (has_enough_memory available (circuit_num_qubits T circuit))))
    eqn:Hm.
  2:{ unfold approx_compile. apply Nat.eqb_neq in Hn. rewrite Hn.
      destruct (has_enough_memory available (circuit_num_qubits T circuit))
        as [[hm req] av]. cbn [fst] in Hm. subst hm. cbn [negb].
      destruct (negb qmprs_available); front_eval;
        intros H; injection H as <-; left; reflexivity. }
  destruct (Bool.bool_dec qmprs_available false) as [Hq|Hq].
  { intros H. left.
    apply (@approx_compile_sequential_returns_input circuit r Hq H). }
  apply not_false_is_true in Hq.
  rewrite (@approx_compile_large circuit Hn Hm), Hq. cbn [negb]. front_eval.
  destruct (Statevector_data T circuit) as [target_sv|] eqn:Hsv; front_eval;
    [|discriminate].
  cbn [MPS_Encoder new_encoder call_encoder]. front_eval.
  destruct (QmprsCompiler_call partial_trace entropy X (QmprsCompiler_init None)
              target_sv false) as [log [aqc|e]] eqn:Hcall; front_eval;
    [|discriminate].
  destruct (Statevector_data T aqc) as [aqc_sv|] eqn:Hasv; front_eval;
    [|rewrite ?app_nil_r; discriminate].
  unfold vdot.
  destruct (length target_sv =? length aqc_sv)%nat eqn:Hlen; front_eval;
    [|discriminate].
  apply Nat.eqb_eq in Hlen.
  destruct (complex_lt (inner target_sv aqc_sv) 0.8) eqn:Hf; front_eval.
  { intros H. injection H as <-. left. reflexivity. }
  destruct (qiskit_transpile T aqc ["u3"; "cx"]%string 3) as [ta|] eqn:Hta;
    front_eval; [|discriminate].
  destruct (qiskit_transpile T circuit ["u3"; "cx"]%string 3) as [to|] eqn:Hto;
    front_eval; [|discriminate].
  destruct ((count_ops_cx T to <=? count_ops_cx T ta)%Z
            && (depth T to <=? depth T ta)%Z) eqn:Hworse; front_eval.
  { intros H. injection H as <-. left. reflexivity. }
  intros H. injection H as <-. right.
  exists target_sv, aqc_sv, ta, to.
  do 4 (split; [first [reflexivity | assumption]|]).
  split; [rewrite Hcall; reflexivity|].
  do 3 (split; [first [reflexivity | assumption]|]).
  split; [apply complex_lt_false; exact Hf|].
  do 2 (split; [first [reflexivity | assumption]|]).
  apply andb_false_iff in Hworse. destruct Hworse as [H|H];
    apply Z.leb_gt in H; [left | right]; exact H.
Qed.

End ApproxCompile.

(** *** The recorded tool chain *)

Lemma recorded_memory :
  fst (fst (has_enough_memory eight_gib
              (circuit_num_qubits recorded_toolchain "pair"%string))) = true.
Proof. apply has_memory_iff. vm_compute. discriminate. Qed.

Lemma inner_pair_state : inner pair_state pair_state = Cone.
Proof.
  unfold inner, pair_state, Czero, Cone.
  cbv [combine map Csum fold_right Cadd Cmul Cconj Czero Re Im fst snd].
  f_equal; lra.
Qed.

Lemma QmprsCompiler_call_recorded :
  QmprsCompiler_call traced_out bell_entropy recorded_qmprs
    (QmprsCompiler_init None) pair_state false
  = ([], Returns "encoded"%string).
Proof.
  unfold QmprsCompiler_call.
  assert (Hq : num_qubits_of pair_state = Ok 2%nat) by reflexivity.
  rewrite Hq. front_step.
  rewrite (@optimal_params_small _ traced_out bell_entropy pair_state 2 eq_refl)
    by lia.
  front_step. cbn [recorded_qmprs sequential_prepare_state get_statevector].
  front_step. unfold vdot. cbn [length pair_state Nat.eqb].
  front_step. reflexivity.
Qed.

Lemma approx_compile_recorded :
  approx_compile traced_out bell_entropy recorded_qmprs recorded_toolchain
    true eight_gib "pair"%string
  = ([], Returns "encoded"%string).
Proof.
  rewrite approx_compile_large; [| discriminate | exact recorded_memory].
  cbn [negb]. front_step. cbn [recorded_toolchain Statevector_data]. front_step.
  cbn [MPS_Encoder new_encoder]. front_step. cbn [call_encoder].
  rewrite QmprsCompiler_call_recorded. front_step.
  unfold vdot. cbn [length pair_state Nat.eqb]. front_step.
  rewrite inner_pair_state.
  assert (Hf : complex_lt Cone 0.8 = false).
  { unfold complex_lt, Cone, Re, Im. cbn [fst snd].
    rewrite Rltb_false by lra. rewrite Reqb_false by lra. reflexivity. }
  rewrite Hf. cbn [qiskit_transpile]. front_step. reflexivity.
Qed.

Lemma approx_compile_without_qmprs_witness :
  approx_compile traced_out bell_entropy recorded_qmprs recorded_toolchain
    false eight_gib "pair"%string
  = ([Warn QmprsNotInstalled], Throws TypeError).
Proof.
  apply (proj2 (@approx_compile_without_qmprs _ traced_out bell_entropy _ _ _ _
                  recorded_qmprs recorded_toolchain false eight_gib "pair"%string
                  eq_refl) pair_state);
    [discriminate | exact recorded_memory | reflexivity].
Defined.

Lemma approx_compile_result_witness :
  "encoded"%string = "pair"%string
  \/ (exists target_sv aqc_sv aqc_transpiled original_transpiled,
        true = true
        /\ circuit_num_qubits recorded_toolchain "pair"%string <> 1%nat
        /\ fst (fst (has_enough_memory eight_gib
                       (circuit_num_qubits recorded_toolchain "pair"%string))) = true
        /\ Statevector_data recorded_toolchain "pair"%string = Some target_sv
        /\ snd (QmprsCompiler_call traced_out bell_entropy recorded_qmprs
                  (QmprsCompiler_init None) target_sv false)
           = Returns "encoded"%string
        /\ Statevector_data recorded_toolchain "encoded"%string = Some aqc_sv
        /\ length target_sv = length aqc_sv
        /\ complex_lt (inner target_sv aqc_sv) 0.8 = false
        /\ 0.8 <= Re (inner target_sv aqc_sv)
        /\ qiskit_transpile recorded_toolchain "encoded"%string ["u3"; "cx"]%string 3
           = Some aqc_transpiled
        /\ qiskit_transpile recorded_toolchain "pair"%string ["u3"; "cx"]%string 3
           = Some original_transpiled
        /\ (count_ops_cx recorded_toolchain aqc_transpiled
            < count_ops_cx recorded_toolchain original_transpiled
            \/ depth recorded_toolchain aqc_transpiled
               < depth recorded_toolchain original_transpiled)%Z).
Proof.
  apply (@approx_compile_result _ traced_out bell_entropy _ _ _ _
           recorded_qmprs recorded_toolchain true eight_gib
           "pair"%string "encoded"%string).
  rewrite approx_compile_recorded. reflexivity.
Defined.

Lemma approx_compile_skips_large_circuits_witness :
  approx_compile traced_out bell_entropy recorded_qmprs recorded_toolchain
    true 16 "pair"%string
  = ((if true then [] else [Warn QmprsNotInstalled])
     ++ [Warn (NotEnoughMemory
                 (powerRZ 2 (4 + Z.of_nat (circuit_num_qubits recorded_toolchain
                                             "pair"%string) - 31))
                 (IZR 16 / 2 ^ 30))],
     Returns "pair"%string).
Proof.
  apply (@approx_compile_skips_large_circuits _ traced_out bell_entropy _ _ _ _
           recorded_qmprs recorded_toolchain true 16 "pair"%string);
    [discriminate | vm_compute; reflexivity].
Defined.

(** ** The default pass pipeline *)

Section Pipeline.

Variables Target CouplingMap : Type.
Variable operation_names : Target -> gateset.
Variable build_coupling_map : Target -> option CouplingMap.
Variable h : host.

Lemma add_local_passes_fold (A : Type) (l : list A)
      (self : UCCDefault1 Target CouplingMap) :
  fold_left
    (fun (self : UCCDefault1 Target CouplingMap) (_ : A) =>
       let self := append self [Optimize1qGatesDecomposition] in
       let self := append self [CommutativeCancellation] in
       let self := append self [Collect2qBlocks] in
       let self := append self [ConsolidateBlocks true] in
       let self := append self [UnitarySynthesis (target_gateset self)] in
       let self := append self [CollectCliffords] in
       append self [HighLevelSynthesis ["greedy"%string]])
    l self
  = mk_UCCDefault1
      (pass_manager self
       ++ concat (repeat (local_block Target CouplingMap (target_gateset self))
                         (length l)))
      (target_device self) (target_gateset self).
Proof.
  revert self. induction l as [|a l IH]; intros self.
  - cbn. rewrite app_nil_r. destruct self; reflexivity.
  - cbn [fold_left length repeat concat]. rewrite IH.
    unfold append. cbn [pass_manager target_device target_gateset].
    rewrite <- !app_assoc. reflexivity.
Qed.

(** [_add_local_passes] appends as many copies of the local block as
    [range(local_iterations)] has elements. *)
Lemma add_local_passes_closed (self : UCCDefault1 Target CouplingMap)
      (local_iterations : Z) :
  _add_local_passes self local_iterations
  = mk_UCCDefault1
      (pass_manager self
       ++ concat (repeat (local_block Target CouplingMap (target_gateset self))
                         (Z.to_nat local_iterations)))
      (target_device self) (target_gateset self).
Proof.
  unfold _add_local_passes. rewrite add_local_passes_fold.
  unfold py_range. rewrite length_map, length_seq, Z.sub_0_r. reflexivity.
Qed.

Lemma UCCDefault1_init_closed (local_iterations : Z)
        (device : option Target) (given : option gateset) :
  let gates := resolved_gateset operation_names device given in
  let locals :=
    concat (repeat (local_block Target CouplingMap gates)
                   (Z.to_nat local_iterations)) in
  UCCDefault1_init operation_names build_coupling_map h
                   local_iterations device given
  = match device with
    | None => Ok (mk_UCCDefault1 locals None gates)
    | Some d =>
        match build_coupling_map d with
        | Some coupling_map =>
            Ok (mk_UCCDefault1
                  (locals ++ map_block gates d coupling_map
                                       (_get_trial_count h 20))
                  (Some d) gates)
        | None => Raise LibraryError
        end
    end.
Proof.
  intros gates locals. unfold UCCDefault1_init.
  rewrite add_local_passes_closed. cbn [pass_manager target_device target_gateset app].
  destruct device as [d|].
  - unfold _add_map_passes.
    destruct (build_coupling_map d) as [cm|]; [|reflexivity].
    cbn [lib bind_result]. rewrite add_local_passes_closed.
    unfold append. cbn [pass_manager target_device target_gateset].
    change (Z.to_nat 1) with 1%nat. cbn [repeat concat].
    unfold map_block. rewrite app_nil_r, <- !app_assoc.
    reflexivity.
  - destruct given; reflexivity.
Qed.

(** X18: the pipeline [UCCDefault1] builds, in closed form.  The gate set
    is the device's if there is a device, else the one given, else the
    default of five gates.  The pipeline is [local_iterations] copies of
    the seven local passes (none if the number is not positive); a
    device adds the layout and routing passes around one more copy of
    the local passes, and makes the constructor fail if its coupling map
    cannot be built. *)
Theorem UCCDefault1_pipeline (local_iterations : Z)
        (device : option Target) (given : option gateset) :
  let gates := resolved_gateset operation_names device given in
  let locals :=
    concat (repeat (local_block Target CouplingMap gates)
                   (Z.to_nat local_iterations)) in
  UCCDefault1_init operation_names build_coupling_map h
                   local_iterations device given
  = match device with
    | None => Ok (mk_UCCDefault1 locals None gates)
    | Some d =>
        match build_coupling_map d with
        | Some coupling_map =>
            Ok (mk_UCCDefault1
                  (locals ++ map_block gates d coupling_map
                                       (_get_trial_count h 20))
                  (Some d) gates)
        | None => Raise LibraryError
        end
    end.
Proof. apply UCCDefault1_init_closed. Qed.

Lemma length_locals (gates : gateset) (n : nat) :
  length (concat (repeat (local_block Target CouplingMap gates) n)) = (7 * n)%nat.
Proof.
  induction n as [|n IH]; [reflexivity|].
  cbn [repeat concat]. rewrite length_app, IH. cbn [local_block length]. lia.
Qed.

Lemma in_locals (gates : gateset) (n : nat) (p : pass Target CouplingMap) :
  In p (concat (repeat (local_block Target CouplingMap gates) n)) ->
  In p (local_block Target CouplingMap gates).
Proof.
  induction n as [|n IH]; [contradiction|].
  cbn [repeat concat]. intros H. apply in_app_or in H. destruct H; auto.
Qed.

Lemma in_local_block (gates : gateset) (p : pass Target CouplingMap) :
  In p (local_block Target CouplingMap gates) ->
  is_map_pass p = false
  /\ (forall g, p = UnitarySynthesis g -> g = gates).
Proof.
  unfold local_block. cbn [In].
  intros [<-|[<-|[<-|[<-|[<-|[<-|[<-|[]]]]]]]]; (split; [reflexivity|]);
    intros g Hg; try discriminate.
  injection Hg as <-. reflexivity.
Qed.

(** X19: what the pipeline contains.  It has [7 * local_iterations]
    passes without a device and 15 more with one; without a device none
    of them lays out or routes; every [UnitarySynthesis] pass is given
    the gate set the constructor has settled on, the device's before the
    caller's before the default; and the three trial counts of the Sabre
    passes are the one value of [_get_trial_count(20)]: the number of
    processes if [sabre_all_threads] is set in the configuration or
    [QISKIT_SABRE_ALL_THREADS] is any non-empty string, else 20. *)
Theorem UCCDefault1_pipeline_contents (local_iterations : Z)
        (device : option Target) (given : option gateset)
        (self : UCCDefault1 Target CouplingMap) :
  UCCDefault1_init operation_names build_coupling_map h
                   local_iterations device given = Ok self ->
  let gates := resolved_gateset operation_names device given in
  let trials :=
    if truthy_bool (sabre_all_threads h)
       || truthy_str (QISKIT_SABRE_ALL_THREADS h)
    then default_num_processes h else 20%Z in
  target_gateset self = gates
  /\ length (pass_manager self)
     = (7 * Z.to_nat local_iterations
        + match device with Some _ => 15 | None => 0 end)%nat
  /\ (device = None ->
      forall p, In p (pass_manager self) -> is_map_pass p = false)
  /\ (forall g, In (UnitarySynthesis g) (pass_manager self) -> g = gates)
  /\ (forall cm seed max_iterations swap_trials layout_trials,
        In (SabreLayout cm seed max_iterations swap_trials layout_trials)
           (pass_manager self) ->
        swap_trials = trials /\ layout_trials = trials)
  /\ (forall cm heuristic seed n,
        In (SabreSwap cm heuristic seed n) (pass_manager self) -> n = trials).
Proof.
  intros Hinit gates trials.
  rewrite UCCDefault1_init_closed in Hinit. cbv zeta in Hinit. fold gates in Hinit.
  assert (Hlocal : forall p,
            In p (concat (repeat (local_block Target CouplingMap gates)
                                 (Z.to_nat local_iterations))) ->
            is_map_pass p = false
            /\ (forall g, p = UnitarySynthesis g -> g = gates)).
  { intros p Hp. apply in_local_block. apply (in_locals _ _ _ Hp). }
  destruct device as [d|].
  - destruct (build_coupling_map d) as [cm|]; [|discriminate].
    injection Hinit as <-. cbn [pass_manager target_gateset].
    split; [reflexivity|]. split.
    { rewrite length_app, length_locals. unfold map_block.
      rewrite !length_app. cbn [length local_block]. lia. }
    split; [discriminate|].
    assert (Hmap : forall p,
              In p (map_block gates d cm (_get_trial_count h 20)) ->
              (forall g, p = UnitarySynthesis g -> g = gates)
              /\ (forall cm' s mi st lt, p = SabreLayout cm' s mi st lt ->
                    st = trials /\ lt = trials)
              /\ (forall cm' he s n, p = SabreSwap cm' he s n -> n = trials)).
    { intros p Hp. unfold map_block in Hp. cbn [app In local_block] in Hp.
      repeat (destruct Hp as [<-|Hp];
              [repeat split; intros; try discriminate;
               match goal with
               | H : _ = _ |- _ => injection H; intros; subst; reflexivity
               end|]).
      contradiction. }
    split; [|split].
    + intros g Hg. apply in_app_or in Hg. destruct Hg as [Hg|Hg].
      * apply (proj2 (Hlocal _ Hg)). reflexivity.
      * apply (proj1 (Hmap _ Hg)). reflexivity.
    + intros cm' s mi st lt Hp. apply in_app_or in Hp. destruct Hp as [Hp|Hp].
      * destruct (Hlocal _ Hp) as [Hf _]. discriminate.
      * apply (proj1 (proj2 (Hmap _ Hp)) cm' s mi). reflexivity.
    + intros cm' he s n Hp. apply in_app_or in Hp. destruct Hp as [Hp|Hp].
      * destruct (Hlocal _ Hp) as [Hf _]. discriminate.
      * apply (proj2 (proj2 (Hmap _ Hp)) cm' he s). reflexivity.
  - injection Hinit as <-. cbn [pass_manager target_gateset].
    split; [reflexivity|]. split; [rewrite length_locals; lia|].
    split; [intros _ p Hp; apply (proj1 (Hlocal _ Hp))|].
    split; [|split].
    + intros g Hg. apply (proj2 (Hlocal _ Hg)). reflexivity.
    + intros cm' s mi st lt Hp. destruct (Hlocal _ Hp) as [Hf _]. discriminate.
    + intros cm' he s n Hp. destruct (Hlocal _ Hp) as [Hf _]. discriminate.
Qed.

End Pipeline.

Lemma UCCDefault1_pipeline_contents_witness :
  let gates := resolved_gateset recorded_names (Some tt) (Some ["h"%string]) in
  let trials :=
    if truthy_bool (sabre_all_threads threaded_host)
       || truthy_str (QISKIT_SABRE_ALL_THREADS threaded_host)
    then default_num_processes threaded_host else 20%Z in
  target_gateset recorded_pipeline = gates
  /\ length (pass_manager recorded_pipeline)
     = (7 * Z.to_nat 1 + match Some tt with Some _ => 15 | None => 0 end)%nat
  /\ (Some tt = None ->
      forall p, In p (pass_manager recorded_pipeline) -> is_map_pass p = false)
  /\ (forall g, In (UnitarySynthesis g) (pass_manager recorded_pipeline) -> g = gates)
  /\ (forall cm seed max_iterations swap_trials layout_trials,
        In (SabreLayout cm seed max_iterations swap_trials layout_trials)
           (pass_manager recorded_pipeline) ->
        swap_trials = trials /\ layout_trials = trials)
  /\ (forall cm heuristic seed n,
        In (SabreSwap cm heuristic seed n) (pass_manager recorded_pipeline) ->
        n = trials).
Proof.
  apply (@UCCDefault1_pipeline_contents unit unit recorded_names recorded_coupling
           threaded_host 1 (Some tt) (Some ["h"%string]) recorded_pipeline).
  reflexivity.
Defined.

(** ** [compile] *)

Section CompileFacts.

Variable DensityMatrix : Type.
Variable partial_trace : list C -> list nat -> DensityMatrix.
Variable entropy : DensityMatrix -> R.
Variables QuickCircuit program Target CouplingMap : Type.
Variable X : qmprs QuickCircuit program.
Variable T : toolchain program Target CouplingMap.
Variable operation_names : Target -> gateset.
Variable build_coupling_map : Target -> option CouplingMap.
Variable h : host.
Variable qmprs_available : bool.
Variable available : Z.

(** [approx_compile] never warns about the gate set. *)
Lemma approx_compile_log (circuit : program) (ev : event) :
  In ev (fst (approx_compile partial_trace entropy X T qmprs_available available
                circuit)) ->
  ev = Warn QmprsNotInstalled
  \/ (exists required free, ev = Warn (NotEnoughMemory required free))
  \/ (exists fidelity, ev = Warn (FidelityTooLow fidelity)).
Proof.
  unfold approx_compile.
  assert (Hfirst : forall (rest : F program),
            (forall ev', In ev' (fst rest) ->
               (exists required free, ev' = Warn (NotEnoughMemory required free))
               \/ (exists fidelity, ev' = Warn (FidelityTooLow fidelity))) ->
            In ev (fst (fbind (if negb qmprs_available
                               then warn QmprsNotInstalled else fret tt)
                              (fun _ => rest))) ->
            ev = Warn QmprsNotInstalled
            \/ (exists required free, ev = Warn (NotEnoughMemory required free))
            \/ (exists fidelity, ev = Warn (FidelityTooLow fidelity))).
  { intros rest Hrest. destruct (negb qmprs_available); front_step.
    - unfold warn. rewrite fbind_returns. cbn [fst app In].
      intros [<-|H]; [left; reflexivity | right; apply Hrest; exact H].
    - intros H. right. apply Hrest. exact H. }
  apply Hfirst. clear Hfirst. intros ev'.
  destruct (circuit_num_qubits T circuit =? 1)%nat; [contradiction|].
  destruct (has_enough_memory available (circuit_num_qubits T circuit))
    as [[hm req] av].
  destruct hm; cbn [negb].
  2:{ front_step. rewrite fbind_returns. cbn [fst app In].
      intros [<-|[]]. left. eauto. }
  destruct (Statevector_data T circuit) as [target_sv|]; front_step;
    [|contradiction].
  destruct (MPS_Encoder qmprs_available) eqn:Hcls; cbn [new_encoder];
    front_step; [|contradiction].
  cbn [call_encoder].
  destruct (@QmprsCompiler_call_cases _ partial_trace entropy _ _ X
              (QmprsCompiler_init None) target_sv) as (_ & Hquiet & _).
  destruct (QmprsCompiler_call partial_trace entropy X (QmprsCompiler_init None)
              target_sv false) as [log [aqc|e]]; cbn [fst] in Hquiet; subst log;
    front_step; [|contradiction].
  destruct (Statevector_data T aqc) as [aqc_sv|]; front_step; [|contradiction].
  destruct (vdot target_sv aqc_sv) as [f|e]; front_step; [|contradiction].
  destruct (complex_lt f 0.8).
  { rewrite fbind_returns. cbn [fst app In]. intros [<-|[]]. right. eauto. }
  destruct (qiskit_transpile T aqc _ 3); front_step; [|contradiction].
  destruct (qiskit_transpile T circuit _ 3); front_step; [|contradiction].
  destruct (_ && _); contradiction.
Qed.

(** X20: the warning about the gate set.  A call of [compile] that
    returns has warned that the target gate set [None] is not supported
    by the device exactly when a device was given and no gate set: the
    test of line 181 is made on [None], which is no name of an
    operation.  The gate set is never named in a warning of this
    kind. *)
Theorem compile_gateset_warning
        (circuit r : program) (return_format : string)
        (gates : option gateset) (device : option Target)
        (custom_passes : option (list (pass Target CouplingMap))) (aqc : bool) :
  snd (compile partial_trace entropy X T operation_names build_coupling_map h
               qmprs_available available
               circuit return_format gates device custom_passes aqc)
  = Returns r ->
  (In (Warn (GatesetNotSupported None))
      (fst (compile partial_trace entropy X T operation_names build_coupling_map h
                    qmprs_available available
                    circuit return_format gates device custom_passes aqc))
   <-> gates = None /\ device <> None)
  /\ (forall g,
        ~ In (Warn (GatesetNotSupported (Some g)))
             (fst (compile partial_trace entropy X T operation_names
                           build_coupling_map h qmprs_available available
                           circuit return_format gates device custom_passes aqc))).
Proof.
  unfold compile.
  set (fmt := if String.eqb return_format "original"
              then flib (get_program_type_alias T circuit)
              else fret return_format).
  assert (Hfmt : fst fmt = []).
  { unfold fmt. destruct (String.eqb _ _); [|reflexivity].
    destruct (get_program_type_alias T circuit); reflexivity. }
  destruct fmt as [log0 [f|e]]; cbn [fst] in Hfmt; subst log0;
    [|cbn [fst snd]; intros H; discriminate].
  rewrite fbind_fret.
  destruct (translate T circuit "qiskit") as [qc|]; front_step;
    [|cbn [fst snd]; intros H; discriminate].
  set (step := if aqc
               then approx_compile partial_trace entropy X T qmprs_available
                                   available qc
               else ([], Returns qc)).
  assert (Hstep : forall ev, In ev (fst step) ->
                             forall g, ev <> Warn (GatesetNotSupported g)).
  { unfold step. destruct aqc; [|intros ev []].
    intros ev Hev g. apply approx_compile_log in Hev.
    destruct Hev as [->|[(a & b & ->)|(a & ->)]]; discriminate. }
  destruct step as [log1 [qc1|e]]; cbn [fst] in Hstep;
    [|cbn [fst snd]; intros H; discriminate].
  rewrite fbind_returns. cbn [fst snd].
  destruct (UCCDefault1_init operation_names build_coupling_map h 1 device None)
    as [u|e]; front_step; [|cbn [fst snd]; intros H; discriminate].
  destruct (PassManager_run T _ qc1) as [cc|]; front_step;
    [|cbn [fst snd]; intros H; discriminate].
  assert (Hno : forall g, ~ In (Warn (GatesetNotSupported g)) log1)
    by (intros g Hin; apply (Hstep _ Hin g); reflexivity).
  destruct gates as [gs|].
  - destruct (qiskit_transpile T cc gs 0) as [cc1|]; front_step;
      [|cbn [fst snd]; intros H; discriminate].
    destruct (translate T cc1 f); front_step; [|cbn [fst snd]; intros H; discriminate].
    intros _. rewrite app_nil_r. split.
    + split; [intros Hin; exfalso; apply (Hno _ Hin) | intros [Hc _]; discriminate].
    + intros g. apply Hno.
  - destruct device as [d|].
    + cbn [None_in negb]. unfold warn. rewrite fbind_returns. cbn [fst snd].
      destruct (qiskit_transpile T cc (operation_names d) 0) as [cc1|];
        front_step; cbn [fst snd app];
        [|cbn [fbind fst snd]; intros H; discriminate].
      rewrite fbind_returns.
      destruct (translate T cc1 f); front_step; cbn [fst snd app];
        [|intros H; discriminate].
      intros _. split.
      * split; [intros _; split; [reflexivity | discriminate]|].
        intros _. apply in_or_app. right. left. reflexivity.
      * intros g Hin. apply in_app_or in Hin. destruct Hin as [Hin|[Hin|[]]];
          [apply (Hno _ Hin) | discriminate].
    + front_step. destruct (translate T cc f); front_step;
        [|cbn [fst snd]; intros H; discriminate].
      intros _. rewrite app_nil_r. split.
      * split; [intros Hin; exfalso; apply (Hno _ Hin) | intros [_ Hc]; congruence].
      * intros g. apply Hno.
Qed.

(** X22: without qmprs, [compile(..., aqc=True)] raises [TypeError] for
    every circuit that translates to a qiskit circuit on a number of
    qubits other than 1 which passes the memory test and has a
    statevector: the only thing it has done by then is to warn that
    qmprs is missing. *)
Theorem compile_aqc_without_qmprs
        (circuit qiskit_circuit : program) (return_format : string)
        (target_sv : list C)
        (gates : option gateset) (device : option Target)
        (custom_passes : option (list (pass Target CouplingMap))) :
  qmprs_available = false ->
  (String.eqb return_format "original" = true ->
   get_program_type_alias T circuit <> None) ->
  translate T circuit "qiskit" = Some qiskit_circuit ->
  circuit_num_qubits T qiskit_circuit <> 1%nat ->
  fst (fst (has_enough_memory available
              (circuit_num_qubits T qiskit_circuit))) = true ->
  Statevector_data T qiskit_circuit = Some target_sv ->
  compile partial_trace entropy X T operation_names build_coupling_map h
          qmprs_available available
          circuit return_format gates device custom_passes true
  = ([Warn QmprsNotInstalled], Throws TypeError).
Proof.
  intros Hq Halias Htr Hn Hm Hsv. unfold compile.
  assert (Hfmt : exists f,
            (if String.eqb return_format "original"
             then flib (get_program_type_alias T circuit)
             else fret return_format) = ([], Returns f)).
  { destruct (String.eqb return_format "original").
    - destruct (get_program_type_alias T circuit) as [a|].
      + exists a. reflexivity.
      + exfalso. apply Halias; reflexivity.
    - exists return_format. reflexivity. }
  destruct Hfmt as [f ->]. rewrite fbind_fret, Htr. front_step.
  rewrite (@approx_compile_large _ partial_trace entropy _ _ _ _ X T
             qmprs_available available qiskit_circuit Hn Hm).
  rewrite Hq, Hsv. reflexivity.
Qed.

End CompileFacts.

Lemma compile_gateset_warning_witness :
  (In (Warn (GatesetNotSupported None))
      (fst (compile traced_out bell_entropy recorded_qmprs recorded_toolchain
                    recorded_names recorded_coupling plain_host true eight_gib
                    "pair"%string "original"%string None (Some tt) None false))
   <-> @None gateset = None /\ Some tt <> None)
  /\ (forall g,
        ~ In (Warn (GatesetNotSupported (Some g)))
             (fst (compile traced_out bell_entropy recorded_qmprs recorded_toolchain
                           recorded_names recorded_coupling plain_host true eight_gib
                           "pair"%string "original"%string None (Some tt) None
                           false))).
Proof.
  apply (@compile_gateset_warning _ traced_out bell_entropy _ _ _ _
           recorded_qmprs recorded_toolchain recorded_names recorded_coupling
           plain_host true eight_gib "pair"%string "pair"%string
           "original"%string None (Some tt) None false).
  reflexivity.
Defined.

Lemma compile_aqc_without_qmprs_witness :
  compile traced_out bell_entropy recorded_qmprs recorded_toolchain
          recorded_names recorded_coupling plain_host false eight_gib
          "pair"%string "original"%string None None None true
  = ([Warn QmprsNotInstalled], Throws TypeError).
Proof.
  apply (@compile_aqc_without_qmprs _ traced_out bell_entropy _ _ _ _
           recorded_qmprs recorded_toolchain recorded_names recorded_coupling
           plain_host false eight_gib "pair"%string "pair"%string
           "original"%string pair_state None None None);
    [reflexivity | discriminate | reflexivity | discriminate
     | exact recorded_memory | reflexivity].
Defined.

(** ** The size of the circuit *)

Lemma generate_layer_fits sample mps g layer g' :
  bond_le_2 mps ->
  generate_layer sample mps g = Ok (layer, g') ->
  layer_fits (L mps) layer.
Proof.
  intros Hb H.
  pose proof (@generate_layer_length sample mps g layer g' Hb H) as Hlen.
  split; [exact Hlen|].
  intros qs u Hin. apply In_nth_error in Hin. destruct Hin as [k Hk].
  assert (Hkl : (k < L mps)%nat).
  { rewrite <- Hlen. apply nth_error_Some. congruence. }
  destruct (nth_error (rev mps) k) as [t|] eqn:Ht.
  2:{ apply nth_error_None in Ht. rewrite length_rev in Ht. unfold L in Hkl. lia. }
  destruct (@generate_layer_gate sample mps g layer g' k t Hb H Ht) as [u' Hu].
  assert (Hqs : qs = if (S k =? L mps)%nat || (hd 0%nat (shape t) =? 1)%nat
                     then [Z.of_nat k] else [Z.of_nat k; Z.of_nat (S k)])
    by congruence.
  rewrite Hqs. clear Hqs.
  destruct (Nat.eqb_spec (S k) (L mps)) as [He|Hne]; cbn [orb];
    [|destruct (hd 0%nat (shape t) =? 1)%nat]; cbn [length In];
    (split; [lia|]); intros q Hq; lia.
Qed.

Lemma length_flat_map_const (A B : Type) (f : A -> list B) (l : list A) (n : nat) :
  Forall (fun a => length (f a) = n) l ->
  length (flat_map f l) = (length l * n)%nat.
Proof.
  induction 1 as [|a l Ha _ IH]; [reflexivity|].
  cbn [flat_map length]. rewrite length_app, Ha, IH. lia.
Qed.

Section CircuitSize.

Variable sample : nat -> R.
Variable Q : quimb.
Variable target_fidelity : R.
Variable chi_max : Z.
Variable n : nat.

(** What is asked of the library: a property [Inv] of the disentangled
    state that its operations keep, and under which normalising and
    compressing to bond dimension 2 gives a state on [n] sites with bonds
    of dimension at most 2. *)
Variable Inv : MatrixProductState -> Prop.

Hypothesis Hcompressed : forall d m1 m2,
  Inv d -> normalize Q d = Some m1 -> compress_left Q m1 2 = Some m2 ->
  bond_le_2 m2 /\ L m2 = n.
Hypothesis Hgate : forall d u i d', Inv d -> gate_ Q d u i = Some d' -> Inv d'.
Hypothesis Hsplit : forall d u ij d',
  Inv d -> gate_split_ Q d u ij = Some d' -> Inv d'.
Hypothesis Hcompress : forall d chi d',
  Inv d -> tensor_network_1d_compress Q d chi = Some d' -> Inv d'.

Lemma apply_inverses_inv layer idxs d d' :
  Inv d -> apply_inverses Q layer idxs d = Ok d' -> Inv d'.
Proof.
  revert d. induction idxs as [|i idxs IH]; intros d Hd H.
  - cbn in H. injection H as <-. exact Hd.
  - cbn [apply_inverses] in H.
    destruct (_ =? 4)%nat.
    + destruct (gate_split_ Q d _ _) as [d1|] eqn:E; [|discriminate].
      cbn [lib bind_result] in H. apply (IH d1); [|exact H].
      apply (@Hsplit d _ _ d1 Hd E).
    + destruct (gate_ Q d _ _) as [d1|] eqn:E; [|discriminate].
      cbn [lib bind_result] in H. apply (IH d1); [|exact H].
      apply (@Hgate d _ _ d1 Hd E).
Qed.

Lemma iteration_fits idx s s' :
  Inv (disentangled_mps s) ->
  iteration sample Q chi_max n idx s = Ok s' ->
  Inv (disentangled_mps s')
  /\ exists layer,
       unitary_layers s' = unitary_layers s ++ [layer]
       /\ layer_fits n layer.
Proof.
  intros Hinv H. unfold iteration in H.
  destruct (normalize Q (disentangled_mps s)) as [m1|] eqn:E1; [|discriminate].
  cbn [lib bind_result] in H.
  destruct (compress_left Q m1 2) as [m2|] eqn:E2; [|discriminate].
  cbn [lib bind_result] in H.
  destruct (@Hcompressed _ m1 m2 Hinv E1 E2) as [Hb HL].
  destruct (generate_layer sample m2 (generator s)) as [[layer g']|e] eqn:Hgen;
    [|discriminate].
  cbn [bind_result] in H.
  destruct (apply_inverses Q layer _ _) as [d1|e] eqn:Hinvs; [|discriminate].
  cbn [bind_result] in H.
  destruct (tensor_network_1d_compress Q d1 chi_max) as [d2|] eqn:E3; [|discriminate].
  cbn [lib bind_result] in H.
  destruct (to_dense Q d2) as [dense|]; [|discriminate].
  cbn [lib bind_result] in H.
  destruct (vdot dense (zero_state n)) as [f|e]; [|discriminate].
  cbn [bind_result] in H. injection H as <-.
  cbn [disentangled_mps unitary_layers]. split.
  - apply (@Hcompress d1 chi_max d2 (@apply_inverses_inv layer _ _ d1 Hinv Hinvs) E3).
  - exists layer. split; [reflexivity|].
    rewrite <- HL. apply (@generate_layer_fits sample m2 _ layer g' Hb Hgen).
Qed.

Lemma layer_loop_fits idxs s s' :
  Inv (disentangled_mps s) ->
  Forall (layer_fits n) (unitary_layers s) ->
  layer_loop sample Q target_fidelity chi_max n idxs s = Ok s' ->
  Forall (layer_fits n) (unitary_layers s')
  /\ (length (unitary_layers s')
      <= length (unitary_layers s) + length idxs)%nat
  /\ (idxs <> [] ->
      (length (unitary_layers s) < length (unitary_layers s'))%nat
      /\ layer_index s' <> None).
Proof.
  revert s. induction idxs as [|i idxs IH]; intros s Hinv Hall H.
  - cbn in H. injection H as <-. split; [exact Hall|]. split; [lia | congruence].
  - cbn [layer_loop] in H.
    destruct (iteration sample Q chi_max n i s) as [s1|e] eqn:Hit; [|discriminate].
    cbn [bind_result] in H.
    destruct (@iteration_fits i s s1 Hinv Hit) as (Hinv1 & layer & Hl & Hfit).
    assert (Hidx : layer_index s1 = Some i).
    { destruct (@iteration_fidelity sample Q chi_max n i s s1 Hit)
        as (_ & _ & _ & _ & _ & _ & Hi). exact Hi. }
    assert (Hall1 : Forall (layer_fits n) (unitary_layers s1)).
    { rewrite Hl. apply Forall_app. split; [exact Hall|].
      apply Forall_cons; [exact Hfit | apply Forall_nil]. }
    assert (Hlen1 : length (unitary_layers s1) = S (length (unitary_layers s)))
      by (rewrite Hl, length_app; cbn [length]; lia).
    destruct (reached target_fidelity s1).
    + injection H as <-. split; [exact Hall1|]. cbn [length].
      split; [lia|]. intros _. split; [lia | congruence].
    + destruct (IH s1 Hinv1 Hall1 H) as (Hall' & Hle & Hgrow).
      split; [exact Hall'|]. cbn [length]. split; [lia|].
      intros _. destruct idxs as [|i2 idxs].
      * cbn in H. injection H as <-. split; [lia | congruence].
      * destruct (Hgrow ltac:(discriminate)) as [Hlt Hne]. split; [lia | exact Hne].
Qed.

(** X21: the circuit [mps_to_circuit_approx] returns.  If the library
    keeps the state on [n] sites and compresses it to bonds of dimension
    at most 2, the circuit is on [n] qubits and [n] classical bits; it
    holds [k * n] gates for some number [k] of layers with
    [1 <= k <= max_num_layers]; and every gate acts on one or two qubits
    of the register. *)
Theorem circuit_size_and_qubits
        (statevector : list C) (max_num_layers : Z) (g g' : nat)
        (s0 : loop_state) (circuit : QuantumCircuit) :
  prepare Q statevector chi_max g = Ok s0 ->
  Inv (disentangled_mps s0) ->
  L (disentangled_mps s0) = n ->
  mps_to_circuit_approx sample Q target_fidelity statevector
                        max_num_layers chi_max g = Ok (circuit, g') ->
  num_qubits circuit = n
  /\ num_clbits circuit = n
  /\ (exists k, (1 <= k <= Z.to_nat max_num_layers)%nat
                /\ length (instructions circuit) = (k * n)%nat)
  /\ (forall u qs, In (u, qs) (instructions circuit) ->
        (1 <= length qs <= 2)%nat
        /\ (forall q, In q qs -> (0 <= q < Z.of_nat n)%Z)).
Proof.
  intros Hprep Hinv HL H. unfold mps_to_circuit_approx in H.
  rewrite Hprep in H. cbn [bind_result] in H. rewrite HL in H.
  destruct (layer_loop sample Q target_fidelity chi_max n
              (seq 0 (Z.to_nat max_num_layers)) s0) as [s|e] eqn:Hloop;
    [|discriminate].
  cbn [bind_result] in H.
  destruct (@prepare_state Q statevector chi_max g s0 Hprep) as (Hl0 & _ & Hi0).
  assert (Hall0 : Forall (layer_fits n) (unitary_layers s0))
    by (rewrite Hl0; apply Forall_nil).
  destruct (@layer_loop_fits _ s0 s Hinv Hall0 Hloop) as (Hall & Hle & Hgrow).
  rewrite Hl0, length_seq in Hle. cbn [length Nat.add] in Hle.
  destruct (layer_index s) as [idx|] eqn:Hidx; [|discriminate].
  injection H as <- _. cbn [num_qubits num_clbits instructions emit].
  split; [reflexivity|]. split; [reflexivity|]. split.
  - exists (length (unitary_layers s)). split.
    + split; [|exact Hle].
      destruct (seq 0 (Z.to_nat max_num_layers)) as [|i idxs] eqn:Hseq.
      * cbn in Hloop. injection Hloop as <-. congruence.
      * destruct (Hgrow ltac:(discriminate)) as [Hlt _]. rewrite Hl0 in Hlt.
        cbn [length] in Hlt. lia.
    + rewrite (@length_flat_map_const _ _ _ _ n).
      * rewrite length_rev. reflexivity.
      * apply Forall_rev. eapply Forall_impl; [|exact Hall].
        intros layer [Hlen _]. rewrite length_map. exact Hlen.
  - intros u qs Hin. apply in_flat_map in Hin.
    destruct Hin as (layer & Hlayer & Hin). apply in_rev in Hlayer.
    apply in_map_iff in Hin. destruct Hin as ([qs' u'] & Heq & Hin).
    cbn [fst snd] in Heq. injection Heq as -> ->.
    rewrite Forall_forall in Hall. destruct (Hall _ Hlayer) as [_ Hgates].
    apply (Hgates _ _ Hin).
Qed.

End CircuitSize.

Lemma mps_to_circuit_approx_recorded :
  mps_to_circuit_approx staircase_sample (recorded_quimb true) (9 / 10)
                        pair_state 3 2 0
  = Ok (emit 2 [pair_layer], 24%nat).
Proof.
  unfold mps_to_circuit_approx. rewrite prepare_recorded. cbn [bind_result].
  change (L (disentangled_mps (pair_start 0))) with 2%nat.
  change (Z.to_nat 3) with 3%nat.
  rewrite layer_loop_recorded. reflexivity.
Qed.

Lemma recorded_state_fits m : recorded_state m -> bond_le_2 m /\ L m = 2%nat.
Proof.
  intros [<-|[<-|[<-|[<-|[]]]]]; (split; [|reflexivity]);
    unfold bond_le_2; repeat constructor.
Qed.

Lemma unchanged_recorded d d' : In (d, d') unchanged -> recorded_state d'.
Proof.
  unfold unchanged, recorded_state. cbn [In].
  intros [E|[E|[E|[E|[]]]]]; injection E as _ <-; auto.
Qed.

Lemma recorded_compressed d m1 m2 :
  recorded_state d ->
  normalize (recorded_quimb true) d = Some m1 ->
  compress_left (recorded_quimb true) m1 2 = Some m2 ->
  bond_le_2 m2 /\ L m2 = 2%nat.
Proof.
  intros _ _ H2. unfold recorded_quimb in H2. cbn [compress_left] in H2.
  change (2 <=? 2)%Z with true in H2. cbv iota in H2.
  apply lookup_in in H2. apply recorded_state_fits.
  apply (unchanged_recorded H2).
Qed.

Lemma recorded_gate_keeps d u i d' :
  recorded_state d -> gate_ (recorded_quimb true) d u i = Some d' -> recorded_state d'.
Proof.
  intros _ H. unfold recorded_quimb in H. cbn [gate_] in H.
  destruct (ndarray_eq_dec _ _); [|discriminate].
  destruct (_ && _)%bool; [|discriminate].
  apply lookup_in in H. apply (unchanged_recorded H).
Qed.

Lemma recorded_gate_split_keeps d u ij d' :
  recorded_state d ->
  gate_split_ (recorded_quimb true) d u ij = Some d' -> recorded_state d'.
Proof.
  intros _ H. unfold recorded_quimb in H. cbn [gate_split_] in H.
  destruct (ndarray_eq_dec _ _); [|discriminate].
  destruct (_ && _)%bool; [|discriminate].
  apply lookup_in in H. unfold recorded_state. cbn [In] in *.
  destruct H as [E|[E|[]]]; injection E as _ <-; auto.
Qed.

Lemma recorded_compress_keeps d chi d' :
  recorded_state d ->
  tensor_network_1d_compress (recorded_quimb true) d chi = Some d' ->
  recorded_state d'.
Proof.
  intros _ H. unfold recorded_quimb in H. cbn [tensor_network_1d_compress] in H.
  destruct (_ <=? _)%Z; [|discriminate].
  apply lookup_in in H. apply (unchanged_recorded H).
Qed.

Lemma circuit_size_and_qubits_witness :
  num_qubits (emit 2 [pair_layer]) = 2%nat
  /\ num_clbits (emit 2 [pair_layer]) = 2%nat
  /\ (exists k, (1 <= k <= Z.to_nat 3)%nat
                /\ length (instructions (emit 2 [pair_layer])) = (k * 2)%nat)
  /\ (forall u qs, In (u, qs) (instructions (emit 2 [pair_layer])) ->
        (1 <= length qs <= 2)%nat
        /\ (forall q, In q qs -> (0 <= q < Z.of_nat 2)%Z)).
Proof.
  apply (@circuit_size_and_qubits staircase_sample (recorded_quimb true)
           (9 / 10) 2 2 recorded_state recorded_compressed
           recorded_gate_keeps recorded_gate_split_keeps recorded_compress_keeps
           pair_state 3 0 24 (pair_start 0) (emit 2 [pair_layer])
           (prepare_recorded true 0) (or_introl eq_refl) eq_refl
           mps_to_circuit_approx_recorded).
Defined.
